(** * Log monitor: parser, in-memory store, broadcast and upload pipeline

    A shallow embedding of
      - src/client/src/lib/log-parser.ts (TOMCAT_PATTERNS, parseLogLine),
      - the store, [MemStorage], in its TypeScript source
        (src/unnamed/part_001, second document) and in its compiled form
        storage.js (src/unnamed/part_000),
      - src/server/routes.ts (the WebSocket handlers, broadcast, the
        handlers of /api/upload, /api/logs, /api/filters and /api/export),
      - the production server script, called index.ts below
        (src/unnamed/part_002), whose upload loop merges stack traces into
        [lastEntry],
    and the properties of the ingestion pipeline proved (or refuted) on it. *)

From Stdlib Require Import NArith ZArith List String Ascii Bool Lia.
From stdpp Require Import gmap list.
Import ListNotations.

Set Default Proof Using "Type".
Local Open Scope N_scope.

(** ** JavaScript strings

    A JavaScript string is a sequence of UTF-16 code units; the regular
    expressions of the parser carry no [u] flag, so they work on code units
    as well. *)
Module JS.

Abbreviation jsstring := (list N).

(** A string literal of the source, read as code units. *)
Definition str (s : string) : jsstring :=
  map N_of_ascii (list_ascii_of_string s).
Arguments str _%_string.

(** ECMAScript WhiteSpace and LineTerminator: what [String.prototype.trim]
    strips and what the class [\s] accepts. *)
Definition is_space (c : N) : bool :=
  (c =? 9) || (c =? 10) || (c =? 11) || (c =? 12) || (c =? 13) || (c =? 32)
  || (c =? 160) || (c =? 5760) || ((8192 <=? c) && (c <=? 8202))
  || (c =? 8232) || (c =? 8233) || (c =? 8239) || (c =? 8287)
  || (c =? 12288) || (c =? 65279).

(** LineTerminator: what [.] refuses when the [s] flag is absent. *)
Definition is_line_terminator (c : N) : bool :=
  (c =? 10) || (c =? 13) || (c =? 8232) || (c =? 8233).

(** [\d] *)
Definition is_digit (c : N) : bool := (48 <=? c) && (c <=? 57).

(** [\w] *)
Definition is_word (c : N) : bool :=
  ((97 <=? c) && (c <=? 122)) || ((65 <=? c) && (c <=? 90))
  || is_digit c || (c =? 95).

Fixpoint trimStart (s : jsstring) : jsstring :=
  match s with
  | c :: s' => if is_space c then trimStart s' else s
  | [] => []
  end.

Definition trimEnd (s : jsstring) : jsstring := rev (trimStart (rev s)).

(** [s.trim()] *)
Definition trim (s : jsstring) : jsstring := trimEnd (trimStart s).

(** [s.slice(start, end)] and [s.slice(start)] for the non-negative literal
    indices the parser uses. *)
Definition slice (s : jsstring) (start stop : nat) : jsstring :=
  take (stop - start) (drop start s).

Definition slice_from (s : jsstring) (start : nat) : jsstring := drop start s.

(** [s.replace(a, b)] with a one-unit string pattern: the first occurrence
    only. *)
Fixpoint replace_first (a b : N) (s : jsstring) : jsstring :=
  match s with
  | [] => []
  | c :: s' => if c =? a then b :: s' else c :: replace_first a b s'
  end.

(** [s.toUpperCase()] on the Basic Latin letters.  The parser applies it to
    the second capture group only, which is one of the four level words
    (lemma [structural_level]).  The statistics of the compiled store
    compare the upper case of a stored level with [ERROR] and [WARN]: no
    string with a unit outside Basic Latin has one of the two as its upper
    case, so this mapping decides the comparison as the engine's does. *)
Definition toUpperCase (s : jsstring) : jsstring :=
  map (fun c => if (97 <=? c) && (c <=? 122) then c - 32 else c) s.

(** [s.split("\n")] *)
Fixpoint split_lines_aux (cur : jsstring) (s : jsstring) : list jsstring :=
  match s with
  | [] => [rev cur]
  | c :: s' =>
      if c =? 10 then rev cur :: split_lines_aux [] s'
      else split_lines_aux (c :: cur) s'
  end.

Definition split_lines (s : jsstring) : list jsstring := split_lines_aux [] s.

(** ["\n"] *)
Definition newline : jsstring := [10].

(** What a call evaluates to: a value, or a thrown exception with its
    message. *)
Inductive result (A : Type) : Type :=
| Ok (a : A)
| Throw (msg : jsstring).
Arguments Ok {A} a.
Arguments Throw {A} msg.

(** A value [JSON.parse] returns, as far as the server looks at it: a
    string with its code units; a number with whether it is zero ([0] and
    [-0], the falsy ones) and the text [JSON.stringify] gives back for it;
    an array or an object with that text. *)
Inductive JsValue : Type :=
| JNull
| JBool (b : bool)
| JNumber (zero : bool) (json : jsstring)
| JString (s : jsstring)
| JArray (json : jsstring)
| JObject (json : jsstring).

#[export] Instance JsValue_eq_dec : EqDecision JsValue := ltac:(solve_decision).

(** Whether [if (v)] takes the branch: [null], [false], zero and the empty
    string do not; arrays and objects do, empty ones too. *)
Definition truthy (v : JsValue) : bool :=
  match v with
  | JNull => false
  | JBool b => b
  | JNumber zero _ => negb zero
  | JString [] => false
  | JString (_ :: _) => true
  | JArray _ | JObject _ => true
  end.

End JS.
Import JS.

(** ** Regular expressions

    A backtracking matcher with the priorities of the ECMAScript semantics:
    alternatives left to right, quantifiers greedy, capture groups numbered
    from 1. *)
Module Regex.

Inductive regex : Type :=
| RChar (p : N -> bool)        (* one code unit of a class *)
| REps
| RSeq (r1 r2 : regex)
| RAlt (r1 r2 : regex)
| RStar (r : regex)            (* r*, greedy *)
| RGroup (i : nat) (r : regex) (* the i-th pair of capturing parentheses *).

(** Capture [i] lives at index [i - 1]; [None] is [undefined]. *)
Abbreviation captures := (list (option jsstring)).

Definition set_capture (i : nat) (v : jsstring) (c : captures) : captures :=
  <[pred i := Some v]> c.

(** [rmatch r s c k]: match [r] at the front of [s], then hand the rest of
    the input and the captures to [k]; [None] makes the matcher backtrack.
    An iteration of a star that consumes nothing is refused, as in
    ECMAScript, so [length s] iterations are all a star can make. *)
Fixpoint rmatch (r : regex) (s : jsstring) (c : captures)
    (k : jsstring -> captures -> option captures) {struct r} : option captures :=
  match r with
  | RChar p =>
      match s with
      | x :: s' => if p x then k s' c else None
      | [] => None
      end
  | REps => k s c
  | RSeq r1 r2 => rmatch r1 s c (fun s' c' => rmatch r2 s' c' k)
  | RAlt r1 r2 =>
      match rmatch r1 s c k with
      | Some res => Some res
      | None => rmatch r2 s c k
      end
  | RStar r1 =>
      (fix loop (fuel : nat) (s : jsstring) (c : captures) {struct fuel}
         : option captures :=
         match fuel with
         | O => k s c
         | S fuel' =>
             match rmatch r1 s c (fun s' c' =>
                     if (length s' <? length s)%nat then loop fuel' s' c'
                     else None) with
             | Some res => Some res
             | None => k s c
             end
         end) (length s) s c
  | RGroup i r1 =>
      rmatch r1 s c (fun s' c' =>
        k s' (set_capture i (take (length s - length s') s) c'))
  end.

(** A pattern of the form [/^r$/] with its number of capture groups. *)
Record pattern : Type := { body : regex; ngroups : nat }.

Definition at_end (s : jsstring) (c : captures) : option captures :=
  match s with [] => Some c | _ :: _ => None end.

(** [line.match(/^r$/)]: without the [g] and [m] flags the anchors pin the
    match to the whole line; the result array holds the matched text and
    then one slot per capture group, or the call returns [null]. *)
Definition js_match (line : jsstring) (p : pattern) : option captures :=
  match rmatch (body p) line (replicate (ngroups p) None) at_end with
  | Some c => Some (Some line :: c)
  | None => None
  end.

(** Building blocks. *)
Definition chr (a : ascii) : regex := RChar (N.eqb (N_of_ascii a)).
Arguments chr _%_char.
Definition lit (s : string) : regex :=
  fold_right (fun a r => RSeq (RChar (N.eqb a)) r) REps (str s).
Arguments lit _%_string.
Definition plus (r : regex) : regex := RSeq r (RStar r).
Fixpoint times (n : nat) (r : regex) : regex :=
  match n with
  | O => REps
  | S n' => RSeq r (times n' r)
  end.
Fixpoint seq (rs : list regex) : regex :=
  match rs with
  | [] => REps
  | r :: rs' => RSeq r (seq rs')
  end.
Fixpoint alt (r : regex) (rs : list regex) : regex :=
  match rs with
  | [] => r
  | r' :: rs' => RAlt r (alt r' rs')
  end.

Definition d : regex := RChar is_digit.
Definition sp : regex := RChar is_space.
Definition dot : regex := RChar (fun c => negb (is_line_terminator c)).

End Regex.
Import Regex.

(** ** src/client/src/lib/log-parser.ts *)
Module LogParser.

(** A [Date] as the parser builds it: [new Date(s)] from a string, or
    [new Date()], the time of the call.  How the engine reads [s] is outside
    the repository, so the argument is kept as it is. *)
Inductive Timestamp : Type :=
| NewDate (s : jsstring)
| NewDateNow.

Record ParsedLogEntry : Type := {
  lineNumber : nat;
  timestamp : Timestamp;
  level : jsstring;
  logger : option jsstring;
  message : jsstring;
  stackTrace : option jsstring
}.

(** [(ERROR|WARN|INFO|DEBUG)] *)
Definition level_alt : regex :=
  alt (lit "ERROR") [lit "WARN"; lit "INFO"; lit "DEBUG"].

(** [/^(\d{4}-\d{2}-\d{2}\s\d{2}:\d{2}:\d{2},\d{3})\s+main\s+(ERROR|WARN|INFO|DEBUG)\s+(.+)$/] *)
Definition iso_main_pattern : pattern :=
  {| body := seq
       [ RGroup 1 (seq [ times 4 d; chr "-"; times 2 d; chr "-"; times 2 d; sp;
                         times 2 d; chr ":"; times 2 d; chr ":"; times 2 d;
                         chr ","; times 3 d ]);
         plus sp; lit "main"; plus sp;
         RGroup 2 level_alt;
         plus sp;
         RGroup 3 (plus dot) ];
     ngroups := 3 |}.

(** [[\w.-]] *)
Definition logger_char (c : N) : bool :=
  is_word c || (c =? 46) || (c =? 45).

(** [/^(\d{2}\.\d{2}\.\d{2}\s\d{2}:\d{2}:\d{2}:\d{3})\s*-\s*(ERROR|WARN|INFO|DEBUG)\s*-\s*([\w.-]+)\s*-\s*(.+)$/] *)
Definition locale_pattern : pattern :=
  {| body := seq
       [ RGroup 1 (seq [ times 2 d; chr "."; times 2 d; chr "."; times 2 d; sp;
                         times 2 d; chr ":"; times 2 d; chr ":"; times 2 d;
                         chr ":"; times 3 d ]);
         RStar sp; chr "-"; RStar sp;
         RGroup 2 level_alt;
         RStar sp; chr "-"; RStar sp;
         RGroup 3 (plus (RChar logger_char));
         RStar sp; chr "-"; RStar sp;
         RGroup 4 (plus dot) ];
     ngroups := 4 |}.

(** The Java stack trace line, written here with blanks around the
    alternatives:
    [/^\s+( at\s+.+ | Caused\s+by:.+ | \.{3}\s+\d+\s+more | \s+.*Exception.* )$/] *)
Definition stack_trace_pattern : pattern :=
  {| body := seq
       [ plus sp;
         RGroup 1 (alt
           (seq [ lit "at"; plus sp; plus dot ])
           [ seq [ lit "Caused"; plus sp; lit "by:"; plus dot ];
             seq [ times 3 (chr "."); plus sp; plus d; plus sp; lit "more" ];
             seq [ plus sp; RStar dot; lit "Exception"; RStar dot ] ]) ];
     ngroups := 1 |}.

Definition TOMCAT_PATTERNS : list pattern :=
  [ iso_main_pattern; locale_pattern; stack_trace_pattern ].

(** [match[i]] followed by a method call: a [TypeError] when the group is
    [undefined]. *)
Definition group (m : captures) (i : nat) : result jsstring :=
  match m !! i with
  | Some (Some s) => Ok s
  | _ => Throw (str "TypeError: Cannot read properties of undefined")
  end.

Definition bind {A B} (x : result A) (f : A -> result B) : result B :=
  match x with
  | Ok a => f a
  | Throw msg => Throw msg
  end.

Notation "x <- e1 ;; e2" := (bind e1 (fun x => e2))
  (at level 100, e1 at next level, right associativity).

(** [match[i]] stored as it is: a field may hold [undefined]. *)
Definition group_raw (m : captures) (i : nat) : option jsstring :=
  match m !! i with
  | Some o => o
  | None => None
  end.

(** The loop [for (const pattern of TOMCAT_PATTERNS)]: [Ok (Some e)] when an
    iteration returns [e], [Ok None] when the loop runs to its end.  The
    message is read from the match without a method call; its group is
    filled by every match (lemma [structural_fields_defined]), so the
    default below is never taken. *)
Fixpoint try_patterns (pats : list pattern) (line : jsstring) (n : nat)
    : result (option ParsedLogEntry) :=
  match pats with
  | [] => Ok None
  | p :: rest =>
      match js_match line p with
      | Some m =>
          if (length m =? 4)%nat then
            m1 <- group m 1 ;;
            m2 <- group m 2 ;;
            Ok (Some {| lineNumber := n;
                        timestamp := NewDate (replace_first 44 46 m1);
                        level := toUpperCase m2;
                        logger := Some (str "main");
                        message := default [] (group_raw m 3);
                        stackTrace := None |})
          else if (length m =? 5)%nat then
            m1 <- group m 1 ;;
            let timestampStr :=
              str "20" ++ slice m1 6 8 ++ str "-" ++ slice m1 3 5 ++ str "-"
              ++ slice m1 0 2 ++ str " " ++ slice_from m1 9 in
            m2 <- group m 2 ;;
            Ok (Some {| lineNumber := n;
                        timestamp := NewDate timestampStr;
                        level := toUpperCase m2;
                        logger := group_raw m 3;
                        message := default [] (group_raw m 4);
                        stackTrace := None |})
          else try_patterns rest line n
      | None => try_patterns rest line n
      end
  end.

(** Which [return] of [parseLogLine] produced the entry. *)
Inductive Outcome : Type :=
| Structural
| Continuation
| Fallback.

Definition parseLogLine_tagged (line0 : jsstring) (n : nat)
    : result (Outcome * ParsedLogEntry) :=
  let line := trim line0 in
  match line with
  | [] => Throw (str "Empty line")
  | _ :: _ =>
      r <- try_patterns TOMCAT_PATTERNS line n ;;
      match r with
      | Some e => Ok (Structural, e)
      | None =>
          match js_match line stack_trace_pattern with
          | Some _ =>
              Ok (Continuation,
                  {| lineNumber := n; timestamp := NewDateNow;
                     level := str "DEBUG"; logger := None; message := [];
                     stackTrace := Some line |})
          | None =>
              Ok (Fallback,
                  {| lineNumber := n; timestamp := NewDateNow;
                     level := str "INFO"; logger := None; message := line;
                     stackTrace := None |})
          end
      end
  end.

Definition parseLogLine (line : jsstring) (n : nat) : result ParsedLogEntry :=
  x <- parseLogLine_tagged line n ;; Ok (snd x).

End LogParser.
Import LogParser.

(** ** storage.ts: the in-memory store *)
Module Storage.

(** A timestamp field holds a [Date] (routes.ts passes the parser's) or a
    string (index.ts passes [toISOString()]). *)
Inductive TimeValue : Type :=
| TDate (t : Timestamp)
| TString (s : jsstring).

(** The object handed to [createLogEntry].  The schema type omits [id] and
    [createdAt], but the spread [...insertEntry] copies whatever the object
    carries, so a caller-supplied [id] is part of the model. *)
Module InsertLogEntry.
Record t : Type := {
  id : option jsstring;
  lineNumber : nat;
  timestamp : TimeValue;
  level : jsstring;
  logger : option jsstring;
  message : jsstring;
  stackTrace : option jsstring;
  fileName : jsstring
}.
End InsertLogEntry.

(** A stored record; [None] in [logger] and [stackTrace] is [null]. *)
Module LogEntry.
Record t : Type := {
  id : jsstring;
  lineNumber : nat;
  timestamp : TimeValue;
  level : jsstring;
  logger : option jsstring;
  message : jsstring;
  stackTrace : option jsstring;
  fileName : jsstring;
  createdAt : Timestamp
}.
End LogEntry.

Module InsertLogFile.
Record t : Type := {
  fileName : jsstring;
  fileSize : Z;
  status : option jsstring
}.
End InsertLogFile.

Module LogFile.
Record t : Type := {
  id : jsstring;
  fileName : jsstring;
  fileSize : Z;
  status : jsstring;
  uploadedAt : Timestamp
}.
End LogFile.

Module LogStatistics.
Record t : Type := { total : nat; errors : nat; warnings : nat }.
End LogStatistics.

(** The two maps of [MemStorage] the pipeline uses ([filterSettings] is
    never touched by it). *)
Record MemStorage : Type := {
  logEntries : gmap jsstring (list LogEntry.t);
  logFiles : gmap jsstring LogFile.t
}.

(** [new MemStorage()] *)
Definition empty_storage : MemStorage :=
  {| logEntries := ∅; logFiles := ∅ |}.

(** [arr.slice(start, end)] of ECMAScript: a negative index counts from the
    end, both are clamped to the array. *)
Definition array_slice {A} (l : list A) (start stop : Z) : list A :=
  let len := Z.of_nat (length l) in
  let k := if (start <? 0)%Z then Z.max (len + start) 0 else Z.min start len in
  let final := if (stop <? 0)%Z then Z.max (len + stop) 0 else Z.min stop len in
  take (Z.to_nat (final - k)) (drop (Z.to_nat k) l).

(** [this.logEntries.get(fileName) || []] *)
Definition entries_of (st : MemStorage) (fileName : jsstring) : list LogEntry.t :=
  default [] (logEntries st !! fileName).

Definition getLogEntries (st : MemStorage) (fileName : jsstring)
    (limit offset : Z) : list LogEntry.t :=
  array_slice (entries_of st fileName) offset (offset + limit).

(** The compiled storage.js maps the slice before returning it: the level
    in upper case, the timestamp as a string.  Both renderings are the
    engine's: [toUpperCase] is [String.prototype.toUpperCase], which maps
    letters of every script (a stored level is any string);
    [toISOString] throws a [RangeError] on an invalid date, and the throw
    of the callback ends [map]. *)
Section StorageJs.

Variable toUpperCase : jsstring -> jsstring.
Variable toISOString : Timestamp -> result jsstring.

Definition with_level_timestamp (lvl : jsstring) (ts : jsstring) (e : LogEntry.t)
    : LogEntry.t :=
  {| LogEntry.id := LogEntry.id e;
     LogEntry.lineNumber := LogEntry.lineNumber e;
     LogEntry.timestamp := TString ts;
     LogEntry.level := lvl;
     LogEntry.logger := LogEntry.logger e;
     LogEntry.message := LogEntry.message e;
     LogEntry.stackTrace := LogEntry.stackTrace e;
     LogEntry.fileName := LogEntry.fileName e;
     LogEntry.createdAt := LogEntry.createdAt e |}.

Definition render_entry (e : LogEntry.t) : result LogEntry.t :=
  match LogEntry.timestamp e with
  | TString s => Ok (with_level_timestamp (toUpperCase (LogEntry.level e)) s e)
  | TDate t =>
      match toISOString t with
      | Ok iso => Ok (with_level_timestamp (toUpperCase (LogEntry.level e)) iso e)
      | Throw msg => Throw msg
      end
  end.

(** [arr.map(f)] with a callback that may throw. *)
Fixpoint array_map {A B} (f : A -> result B) (l : list A) : result (list B) :=
  match l with
  | [] => Ok []
  | x :: l' =>
      match f x with
      | Ok y =>
          match array_map f l' with
          | Ok ys => Ok (y :: ys)
          | Throw msg => Throw msg
          end
      | Throw msg => Throw msg
      end
  end.

Definition getLogEntries_js (st : MemStorage) (fileName : jsstring)
    (limit offset : Z) : result (list LogEntry.t) :=
  array_map render_entry
    (array_slice (entries_of st fileName) offset (offset + limit)).

End StorageJs.

(** Two results put end to end; the first exception wins. *)
Definition concat_results {A} (r1 r2 : result (list A)) : result (list A) :=
  match r1, r2 with
  | Ok a, Ok b => Ok (a ++ b)
  | Throw msg, _ => Throw msg
  | Ok _, Throw msg => Throw msg
  end.

(** [x || null] on an optional string: [undefined], [null] and the empty
    string all give [null]. *)
Definition or_null (x : option jsstring) : option jsstring :=
  match x with
  | Some [] => None
  | Some s => Some s
  | None => None
  end.

(** The object [createLogEntry] builds: [id], [logger], [stackTrace] and
    [createdAt] come after the spread and replace what it copied. *)
Definition new_entry (uuid : jsstring) (insertEntry : InsertLogEntry.t) : LogEntry.t :=
  {| LogEntry.id := uuid;
     LogEntry.lineNumber := InsertLogEntry.lineNumber insertEntry;
     LogEntry.timestamp := InsertLogEntry.timestamp insertEntry;
     LogEntry.level := InsertLogEntry.level insertEntry;
     LogEntry.logger := or_null (InsertLogEntry.logger insertEntry);
     LogEntry.message := InsertLogEntry.message insertEntry;
     LogEntry.stackTrace := or_null (InsertLogEntry.stackTrace insertEntry);
     LogEntry.fileName := InsertLogEntry.fileName insertEntry;
     LogEntry.createdAt := NewDateNow |}.

(** [createLogEntry]; [uuid] is what [randomUUID()] returns in this call. *)
Definition createLogEntry (uuid : jsstring) (st : MemStorage)
    (insertEntry : InsertLogEntry.t) : MemStorage * LogEntry.t :=
  let entry := new_entry uuid insertEntry in
  let fileName := LogEntry.fileName entry in
  let entries := entries_of st fileName in
  ({| logEntries := <[fileName := entries ++ [entry]]> (logEntries st);
      logFiles := logFiles st |},
   entry).

Definition clearLogEntries (st : MemStorage) (fileName : jsstring) : MemStorage :=
  {| logEntries := <[fileName := []]> (logEntries st);
     logFiles := logFiles st |}.

(** [deleteLogFile], present in the compiled storage.js only. *)
Definition deleteLogFile (st : MemStorage) (fileId : jsstring) : MemStorage :=
  {| logEntries := delete fileId (logEntries st);
     logFiles := delete fileId (logFiles st) |}.

Definition count_level (lvl : jsstring) (entries : list LogEntry.t) : nat :=
  length (filter (fun e => LogEntry.level e = lvl) entries).

Definition getLogStatistics (st : MemStorage) (fileName : jsstring)
    : LogStatistics.t :=
  let entries := entries_of st fileName in
  {| LogStatistics.total := length entries;
     LogStatistics.errors := count_level (str "ERROR") entries;
     LogStatistics.warnings := count_level (str "WARN") entries |}.

(** The compiled storage.js compares [e.level.toUpperCase()]. *)
Definition getLogStatistics_js (st : MemStorage) (fileName : jsstring)
    : LogStatistics.t :=
  let entries := entries_of st fileName in
  {| LogStatistics.total := length entries;
     LogStatistics.errors :=
       length (filter (fun e => toUpperCase (LogEntry.level e) = str "ERROR") entries);
     LogStatistics.warnings :=
       length (filter (fun e => toUpperCase (LogEntry.level e) = str "WARN") entries) |}.

Definition getLogFile (st : MemStorage) (id : jsstring) : option LogFile.t :=
  logFiles st !! id.

Definition createLogFile (uuid : jsstring) (st : MemStorage)
    (insertFile : InsertLogFile.t) : MemStorage * LogFile.t :=
  let file :=
    {| LogFile.id := uuid;
       LogFile.fileName := InsertLogFile.fileName insertFile;
       LogFile.fileSize := InsertLogFile.fileSize insertFile;
       LogFile.status :=
         default (str "active") (or_null (InsertLogFile.status insertFile));
       LogFile.uploadedAt := NewDateNow |} in
  ({| logEntries := logEntries st;
      logFiles := <[uuid := file]> (logFiles st) |},
   file).

Definition set_status (status : jsstring) (file : LogFile.t) : LogFile.t :=
  {| LogFile.id := LogFile.id file;
     LogFile.fileName := LogFile.fileName file;
     LogFile.fileSize := LogFile.fileSize file;
     LogFile.status := status;
     LogFile.uploadedAt := LogFile.uploadedAt file |}.

Definition updateLogFileStatus (st : MemStorage) (id status : jsstring)
    : MemStorage :=
  match logFiles st !! id with
  | Some file =>
      {| logEntries := logEntries st;
         logFiles := <[id := set_status status file]> (logFiles st) |}
  | None => st
  end.

End Storage.
Import Storage.

(** ** src/server/routes.ts: broadcast and the upload handler

    Every [await] of the handler waits for a [MemStorage] method that
    settles without I/O, so its continuation runs before any other request
    or WebSocket event is served: the handler is one sequential run over
    the server state. *)
Module Routes.

(** The payloads [JSON.stringify] is applied to before [send].  The
    acknowledgement repeats [data.fileName], whatever value that is. *)
Inductive Message : Type :=
| MsgStatus (status : jsstring)
| MsgSubscribed (fileName : JsValue)
| MsgLogEntry (data : LogEntry.t).

(** A member of [wss.clients]: its [subscribedFile] property ([None] while
    it is [undefined]; the message handler stores whatever truthy value the
    message carries), whether its [send] raises (the [ws] library decides,
    from the state of the socket), and what [send] was handed and returned
    on so far, oldest first. *)
Record Client : Type := {
  subscribedFile : option JsValue;
  sendThrows : bool;
  sent : list Message
}.




Definition deliver (msg : Message) (c : Client) : Client :=
  {| subscribedFile := subscribedFile c;
     sendThrows := sendThrows c;
     sent := sent c ++ [msg] |}.

(** The server: the [storage] singleton, [wss.clients] in iteration
    (insertion) order, and how many UUIDs [randomUUID] has produced. *)
Record Server : Type := {
  storage : MemStorage;
  clients : list Client;
  uuids : nat
}.

(** Code that reads and writes the server state and may throw; the state
    reached before a throw stays. *)
Definition M (A : Type) : Type := Server -> Server * result A.

Definition ret {A} (a : A) : M A := fun sv => (sv, Ok a).

Definition throw {A} (msg : jsstring) : M A := fun sv => (sv, Throw msg).

Definition bindM {A B} (m : M A) (f : A -> M B) : M B :=
  fun sv =>
    match m sv with
    | (sv', Ok a) => f a sv'
    | (sv', Throw msg) => (sv', Throw msg)
    end.

(** [try { m } catch (e) { h e }] *)
Definition try_catch {A} (m : M A) (h : jsstring -> M A) : M A :=
  fun sv =>
    match m sv with
    | (sv', Ok a) => (sv', Ok a)
    | (sv', Throw msg) => h msg sv'
    end.

Definition lift {A} (r : result A) : M A := fun sv => (sv, r).

Notation "x <-- e1 ;;; e2" := (bindM e1 (fun x => e2))
  (at level 100, e1 at next level, right associativity).
Notation "e1 ;;; e2" := (bindM e1 (fun _ => e2))
  (at level 100, right associativity).

(** [wss.clients.forEach(...)]: a [send] that throws ends the iteration, the
    clients after it are not visited. *)
Fixpoint send_each (fileName : jsstring) (msg : Message) (cs : list Client)
    : list Client * result unit :=
  match cs with
  | [] => ([], Ok tt)
  | client :: rest =>
      if bool_decide (subscribedFile client = Some (JString fileName)) then
        if sendThrows client then
          (client :: rest, Throw (str "WebSocket is not open"))
        else
          let '(rest', r) := send_each fileName msg rest in
          (deliver msg client :: rest', r)
      else
        let '(rest', r) := send_each fileName msg rest in
        (client :: rest', r)
  end.

Definition broadcast (fileName : jsstring) (logEntry : LogEntry.t) : M unit :=
  fun sv =>
    let '(cs, r) := send_each fileName (MsgLogEntry logEntry) (clients sv) in
    ({| storage := storage sv; clients := cs; uuids := uuids sv |}, r).

(** [req.file] of multer, with what the file system and the decoder will
    answer: [decoded] is the text [fs.readFileSync], [jschardet.detect] and
    [iconv.decode] produce, or the exception one of them throws;
    [unlinkThrows] tells whether [fs.unlinkSync] throws. *)
Record UploadedFile : Type := {
  originalname : jsstring;
  size : Z;
  decoded : result jsstring;
  unlinkThrows : bool
}.

Inductive Response : Type :=
| Status400 (error : jsstring)
| Status500 (error : jsstring)
| Uploaded (fileId fileName : jsstring) (linesProcessed errors : nat).

Section WithUUID.

(** [randomUUID n] is the value of the [n]-th call of [crypto.randomUUID()]
    since the process started. *)
Variable randomUUID : nat -> jsstring.

Definition storage_createLogFile (insertFile : InsertLogFile.t) : M LogFile.t :=
  fun sv =>
    let '(st, file) := createLogFile (randomUUID (uuids sv)) (storage sv) insertFile in
    ({| storage := st; clients := clients sv; uuids := S (uuids sv) |}, Ok file).

Definition storage_createLogEntry (insertEntry : InsertLogEntry.t) : M LogEntry.t :=
  fun sv =>
    let '(st, entry) := createLogEntry (randomUUID (uuids sv)) (storage sv) insertEntry in
    ({| storage := st; clients := clients sv; uuids := S (uuids sv) |}, Ok entry).

Definition storage_updateLogFileStatus (id status : jsstring) : M unit :=
  fun sv =>
    ({| storage := updateLogFileStatus (storage sv) id status;
        clients := clients sv; uuids := uuids sv |}, Ok tt).

(** [{ ...parsed, fileName: fileId }] *)
Definition spread_parsed (parsed : ParsedLogEntry) (fileId : jsstring)
    : InsertLogEntry.t :=
  {| InsertLogEntry.id := None;
     InsertLogEntry.lineNumber := LogParser.lineNumber parsed;
     InsertLogEntry.timestamp := TDate (LogParser.timestamp parsed);
     InsertLogEntry.level := LogParser.level parsed;
     InsertLogEntry.logger := LogParser.logger parsed;
     InsertLogEntry.message := LogParser.message parsed;
     InsertLogEntry.stackTrace := LogParser.stackTrace parsed;
     InsertLogEntry.fileName := fileId |}.

(** The object built in the [catch] of the loop; [message] is the line as
    read, not trimmed. *)
Definition catch_entry (line : jsstring) (lineNumber : nat) (fileId : jsstring)
    : InsertLogEntry.t :=
  {| InsertLogEntry.id := None;
     InsertLogEntry.lineNumber := lineNumber;
     InsertLogEntry.timestamp := TDate NewDateNow;
     InsertLogEntry.level := str "INFO";
     InsertLogEntry.logger := None;
     InsertLogEntry.message := line;
     InsertLogEntry.stackTrace := None;
     InsertLogEntry.fileName := fileId |}.

(** One turn of [for (const line of lines)] on a non-blank line; the value
    is the new [errorCount]. *)
Definition process_line (fileId line : jsstring) (lineNumber errorCount : nat)
    : M nat :=
  try_catch
    (parsed <-- lift (parseLogLine line lineNumber) ;;;
     logEntry <-- storage_createLogEntry (spread_parsed parsed fileId) ;;;
     broadcast fileId logEntry ;;;
     ret errorCount)
    (fun parseError =>
       logEntry <-- storage_createLogEntry (catch_entry line lineNumber fileId) ;;;
       broadcast fileId logEntry ;;;
       ret (S errorCount)).

(** The loop, from the values [lineNumber] and [errorCount] have when it is
    entered to the values they have when it ends. *)
Fixpoint process_lines (fileId : jsstring) (lines : list jsstring)
    (lineNumber errorCount : nat) : M (nat * nat) :=
  match lines with
  | [] => ret (lineNumber, errorCount)
  | line :: rest =>
      match trim line with
      | _ :: _ =>
          errorCount' <-- process_line fileId line lineNumber errorCount ;;;
          process_lines fileId rest (S lineNumber) errorCount'
      | [] => process_lines fileId rest lineNumber errorCount
      end
  end.

Definition unlinkSync (file : UploadedFile) : M unit :=
  if unlinkThrows file then throw (str "ENOENT: no such file or directory")
  else ret tt.

(** The body of the outer [try] of [app.post("/api/upload", ...)]. *)
Definition upload_body (file : UploadedFile) : M Response :=
  logFile <-- storage_createLogFile
    {| InsertLogFile.fileName := originalname file;
       InsertLogFile.fileSize := size file;
       InsertLogFile.status := Some (str "processing") |} ;;;
  fileContent <-- lift (decoded file) ;;;
  let lines := split_lines fileContent in
  counters <-- process_lines (LogFile.id logFile) lines 1 0 ;;;
  storage_updateLogFileStatus (LogFile.id logFile) (str "active") ;;;
  unlinkSync file ;;;
  ret (Uploaded (LogFile.id logFile) (LogFile.fileName logFile)
         (fst counters - 1) (snd counters)).

(** [app.post("/api/upload", ...)]: the handler from the request to the
    response it sends. *)
Definition upload (file : option UploadedFile) (sv : Server) : Server * Response :=
  match file with
  | None => (sv, Status400 (str "No file uploaded"))
  | Some f =>
      match upload_body f sv with
      | (sv', Ok response) => (sv', response)
      | (sv', Throw _) => (sv', Status500 (str "Failed to process file"))
      end
  end.

End WithUUID.

End Routes.
Import Routes.

(** ** index.ts: the upload loop that merges stack traces

    The production entry point runs the same handler with one more local,
    [lastEntry], and a branch on [parsed.stackTrace]. *)
Module Index.

Section WithEngine.

Variable randomUUID : nat -> jsstring.

(** [new Date(s).toISOString()]: the engine reads the string [s] its own
    way and throws a [RangeError] when it finds no date in it. *)
Variable date_iso : jsstring -> result jsstring.

(** What [toISOString()] gives for the time of the call. *)
Variable now_iso : jsstring.

(** [new Date(t).toISOString()] *)
Definition toISOString (t : Timestamp) : result jsstring :=
  match t with
  | NewDate s => date_iso s
  | NewDateNow => Ok now_iso
  end.

(** [storage.updateLogEntry]: index.ts calls it, the [MemStorage] classes of
    the repository do not define it. *)
Variable updateLogEntry : LogEntry.t -> M unit.

Definition set_stackTrace (v : option jsstring) (e : LogEntry.t) : LogEntry.t :=
  {| LogEntry.id := LogEntry.id e;
     LogEntry.lineNumber := LogEntry.lineNumber e;
     LogEntry.timestamp := LogEntry.timestamp e;
     LogEntry.level := LogEntry.level e;
     LogEntry.logger := LogEntry.logger e;
     LogEntry.message := LogEntry.message e;
     LogEntry.stackTrace := v;
     LogEntry.fileName := LogEntry.fileName e;
     LogEntry.createdAt := LogEntry.createdAt e |}.

(** [lastEntry.stackTrace = (lastEntry.stackTrace || '') + '\n' + trace] *)
Definition append_trace (trace : jsstring) (e : LogEntry.t) : LogEntry.t :=
  set_stackTrace
    (Some (default [] (or_null (LogEntry.stackTrace e)) ++ newline ++ trace)) e.

(** [lastEntry] is the object [createLogEntry] pushed last on the array of
    this file, and nothing else writes to that array while the loop runs:
    assigning to its field changes the last stored record. *)
Definition alter_last (fileId : jsstring) (f : LogEntry.t -> LogEntry.t)
    (st : MemStorage) : MemStorage :=
  match logEntries st !! fileId with
  | Some es =>
      {| logEntries := <[fileId := alter f (pred (length es)) es]> (logEntries st);
         logFiles := logFiles st |}
  | None => st
  end.

Definition assign_last (fileId : jsstring) (f : LogEntry.t -> LogEntry.t) : M unit :=
  fun sv =>
    ({| storage := alter_last fileId f (storage sv);
        clients := clients sv; uuids := uuids sv |}, Ok tt).

(** [{ ...parsed, fileName: fileId, timestamp: iso }] *)
Definition spread_parsed_iso (parsed : ParsedLogEntry) (fileId iso : jsstring)
    : InsertLogEntry.t :=
  {| InsertLogEntry.id := None;
     InsertLogEntry.lineNumber := LogParser.lineNumber parsed;
     InsertLogEntry.timestamp := TString iso;
     InsertLogEntry.level := LogParser.level parsed;
     InsertLogEntry.logger := LogParser.logger parsed;
     InsertLogEntry.message := LogParser.message parsed;
     InsertLogEntry.stackTrace := LogParser.stackTrace parsed;
     InsertLogEntry.fileName := fileId |}.

(** The locals of the loop. *)
Record Locals : Type := {
  lineNumber : nat;
  processedCount : nat;
  errorCount : nat;
  lastEntry : option LogEntry.t
}.

Definition with_lastEntry (e : LogEntry.t) (loc : Locals) : Locals :=
  {| lineNumber := lineNumber loc;
     processedCount := processedCount loc;
     errorCount := errorCount loc;
     lastEntry := Some e |}.

(** The [try] block ran to its end: [processedCount++; lineNumber++]. *)
Definition processed (loc : Locals) : Locals :=
  {| lineNumber := S (lineNumber loc);
     processedCount := S (processedCount loc);
     errorCount := errorCount loc;
     lastEntry := lastEntry loc |}.

(** The [catch] block ran: [errorCount++; lineNumber++]. *)
Definition caught (loc : Locals) : Locals :=
  {| lineNumber := S (lineNumber loc);
     processedCount := processedCount loc;
     errorCount := S (errorCount loc);
     lastEntry := lastEntry loc |}.

(** One turn of the loop on a non-blank line.  An assignment made before a
    throw stays: the locals are updated step by step. *)
Definition process_line (fileId line : jsstring) (loc : Locals) (sv : Server)
    : Server * Locals :=
  match parseLogLine line (lineNumber loc) with
  | Throw _ => (sv, caught loc)
  | Ok parsed =>
      match or_null (LogParser.stackTrace parsed) with
      | Some trace =>
          match lastEntry loc with
          | Some last =>
              let last' := append_trace trace last in
              let loc' := with_lastEntry last' loc in
              match (assign_last fileId (append_trace trace) ;;;
                     updateLogEntry last' ;;;
                     broadcast fileId last') sv with
              | (sv', Ok _) => (sv', processed loc')
              | (sv', Throw _) => (sv', caught loc')
              end
          | None => (sv, processed loc)
          end
      | None =>
          match (iso <-- lift (toISOString (LogParser.timestamp parsed)) ;;;
                 storage_createLogEntry randomUUID
                   (spread_parsed_iso parsed fileId iso)) sv with
          | (sv1, Throw _) => (sv1, caught loc)
          | (sv1, Ok created) =>
              let loc' := with_lastEntry created loc in
              match broadcast fileId created sv1 with
              | (sv2, Ok _) => (sv2, processed loc')
              | (sv2, Throw _) => (sv2, caught loc')
              end
          end
      end
  end.

Fixpoint process_lines (fileId : jsstring) (lines : list jsstring)
    (loc : Locals) (sv : Server) : Server * Locals :=
  match lines with
  | [] => (sv, loc)
  | line :: rest =>
      match trim line with
      | _ :: _ =>
          let '(sv', loc') := process_line fileId line loc sv in
          process_lines fileId rest loc' sv'
      | [] => process_lines fileId rest loc sv
      end
  end.

Definition initial_locals : Locals :=
  {| lineNumber := 1; processedCount := 0; errorCount := 0; lastEntry := None |}.

(** The body of the outer [try] of the handler. *)
Definition upload_body (file : UploadedFile) : M Response :=
  logFile <-- storage_createLogFile randomUUID
    {| InsertLogFile.fileName := originalname file;
       InsertLogFile.fileSize := size file;
       InsertLogFile.status := Some (str "processing") |} ;;;
  fileContent <-- lift (decoded file) ;;;
  let lines := split_lines fileContent in
  loc <-- (fun sv =>
             let '(sv', loc) :=
               process_lines (LogFile.id logFile) lines initial_locals sv in
             (sv', Ok loc)) ;;;
  storage_updateLogFileStatus (LogFile.id logFile) (str "active") ;;;
  unlinkSync file ;;;
  ret (Uploaded (LogFile.id logFile) (LogFile.fileName logFile)
         (processedCount loc) (errorCount loc)).

Definition upload (file : option UploadedFile) (sv : Server) : Server * Response :=
  match file with
  | None => (sv, Status400 (str "No file uploaded"))
  | Some f =>
      match upload_body f sv with
      | (sv', Ok response) => (sv', response)
      | (sv', Throw _) => (sv', Status500 (str "Failed to process file"))
      end
  end.

End WithEngine.

End Index.

(** ** Which capture groups a match is sure to fill *)
Module Groups.

(** [sets i r]: every match of [r] goes through the [i]-th parentheses. *)
Fixpoint sets (i : nat) (r : regex) : bool :=
  match r with
  | RChar _ | REps | RStar _ => false
  | RSeq r1 r2 => sets i r1 || sets i r2
  | RAlt r1 r2 => sets i r1 && sets i r2
  | RGroup j r1 => (i =? j)%nat || sets i r1
  end.

(** The parentheses that occur in [r]. *)
Fixpoint groups_in (r : regex) : list nat :=
  match r with
  | RChar _ | REps => []
  | RSeq r1 r2 | RAlt r1 r2 => groups_in r1 ++ groups_in r2
  | RStar r1 => groups_in r1
  | RGroup j r1 => j :: groups_in r1
  end.

(** The words [(ERROR|WARN|INFO|DEBUG)] accepts. *)
Definition level_words : list jsstring :=
  [str "ERROR"; str "WARN"; str "INFO"; str "DEBUG"].

(** [n] capture slots, the [i]-th of them holding a string. *)
Definition defined (n i : nat) (c : captures) : Prop :=
  length c = n /\ exists v, c !! pred i = Some (Some v).

End Groups.
Import Groups.

(** ** The line shapes the specification names *)
Module SpecShapes.

(** Shape (c) of the specification, "a bare-time form lacking a date", at
    its weakest: the trimmed line opens with the two digits of the hour and
    a colon. *)
Definition spec_bare_time (line : jsstring) : bool :=
  match line with
  | h1 :: h2 :: c :: _ => is_digit h1 && is_digit h2 && (c =? 58)
  | _ => false
  end.

End SpecShapes.
Import SpecShapes.

(** ** The states of the store *)
Module StoreStates.

(** The stores the program can build: [new MemStorage()], the methods of
    the class, and the assignment to [lastEntry.stackTrace] of index.ts. *)
Inductive reachable : MemStorage -> Prop :=
| reach_new : reachable empty_storage
| reach_createLogEntry uuid st insertEntry :
    reachable st -> reachable (fst (createLogEntry uuid st insertEntry))
| reach_clearLogEntries st fileName :
    reachable st -> reachable (clearLogEntries st fileName)
| reach_deleteLogFile st fileId :
    reachable st -> reachable (deleteLogFile st fileId)
| reach_createLogFile uuid st insertFile :
    reachable st -> reachable (fst (createLogFile uuid st insertFile))
| reach_updateLogFileStatus st id status :
    reachable st -> reachable (updateLogFileStatus st id status)
| reach_append_trace st fileId trace :
    reachable st ->
    reachable (Index.alter_last fileId (Index.append_trace trace) st).

(** No stored record has the empty string as [logger] or [stackTrace]. *)
Definition no_empty_strings (st : MemStorage) : Prop :=
  forall fileId es e,
    logEntries st !! fileId = Some es -> e ∈ es ->
    LogEntry.logger e <> Some [] /\ LogEntry.stackTrace e <> Some [].

End StoreStates.
Import StoreStates.

(** ** What an upload leaves in the store and on the connections *)
Module UploadTrace.

(** No connection subscribed to [fileId] has a [send] that throws. *)
Definition no_throwing_subscriber (fileId : jsstring) (cs : list Client) : bool :=
  forallb (fun c => negb (bool_decide (subscribedFile c = Some (JString fileId))
                          && sendThrows c)) cs.

(** [msg] handed to the connections subscribed to [fileId]. *)
Definition deliver_to (fileId : jsstring) (msg : Message) (c : Client) : Client :=
  if bool_decide (subscribedFile c = Some (JString fileId)) then deliver msg c
  else c.

Definition non_blank (line : jsstring) : bool :=
  match trim line with
  | [] => false
  | _ :: _ => true
  end.

Section WithUUID.

Variable randomUUID : nat -> jsstring.

(** The records routes.ts stores for [lines], the first non-blank line
    being numbered [ln] and receiving the [u]-th UUID. *)
Fixpoint stored_records (fileId : jsstring) (lines : list jsstring) (ln u : nat)
    : list LogEntry.t :=
  match lines with
  | [] => []
  | line :: rest =>
      if non_blank line then
        match parseLogLine line ln with
        | Ok parsed =>
            new_entry (randomUUID u) (spread_parsed parsed fileId)
            :: stored_records fileId rest (S ln) (S u)
        | Throw _ =>
            new_entry (randomUUID u) (catch_entry line ln fileId)
            :: stored_records fileId rest (S ln) (S u)
        end
      else stored_records fileId rest ln u
  end.

End WithUUID.

(** The [status] of a file of the store, if the store has the file. *)
Definition status_of (sv : Server) (fileId : jsstring) : option jsstring :=
  LogFile.status <$> getLogFile (storage sv) fileId.

End UploadTrace.
Import UploadTrace.

(** ** What the upload of index.ts leaves in the store *)
Module IndexTrace.

Section WithEngine.

Variable randomUUID : nat -> jsstring.
Variable date_iso : jsstring -> result jsstring.
Variable now_iso : jsstring.

(** The records index.ts stores for [lines] when the branch on
    [parsed.stackTrace] is not taken; a line whose timestamp the engine
    refuses is counted as an error and stores nothing. *)
Fixpoint index_records (fileId : jsstring) (lines : list jsstring) (ln u : nat)
    : list LogEntry.t :=
  match lines with
  | [] => []
  | line :: rest =>
      if non_blank line then
        match parseLogLine line ln with
        | Ok parsed =>
            match Index.toISOString date_iso now_iso (LogParser.timestamp parsed) with
            | Ok iso =>
                new_entry (randomUUID u) (Index.spread_parsed_iso parsed fileId iso)
                :: index_records fileId rest (S ln) (S u)
            | Throw _ => index_records fileId rest (S ln) u
            end
        | Throw _ => index_records fileId rest (S ln) u
        end
      else index_records fileId rest ln u
  end.

End WithEngine.

End IndexTrace.
Import IndexTrace.

(** ** Sample inputs *)
Module Samples.

(** A generator of identifiers to run the handlers with. *)
Definition sample_uuid (n : nat) : jsstring := str "uuid-" ++ [48 + N.of_nat n].

(** A server that has just started: empty store, no connection. *)
Definition fresh_server : Server :=
  {| storage := empty_storage; clients := []; uuids := 0 |}.

(** The file of the specification's continuation example. *)
Definition stack_trace_text : jsstring :=
  str "2024-01-01 10:00:00.000 ERROR [svc] boom" ++ newline
  ++ str "  at foo.bar(Baz.java:10)" ++ newline
  ++ str "  at qux.quux(Quux.java:20)".

(** The same frames under a first line the registered ISO pattern accepts. *)
Definition stack_trace_text_main : jsstring :=
  str "2024-01-01 10:00:00,000 main ERROR boom" ++ newline
  ++ str "  at foo.bar(Baz.java:10)" ++ newline
  ++ str "  at qux.quux(Quux.java:20)".

(** A line the ISO pattern accepts whose date no calendar has: its
    timestamp is an Invalid Date. *)
Definition invalid_date_text : jsstring :=
  str "2024-13-45 10:00:00,000 main ERROR boom".

Definition upload_of (text : jsstring) : UploadedFile :=
  {| originalname := str "app.log"; size := Z.of_nat (length text);
     decoded := Ok text; unlinkThrows := false |}.

End Samples.
Import Samples.

(** ** Patterns without choice *)
Module FixedShape.

(** The classes a pattern goes through when it is a plain sequence of
    single code units; [None] when it has a choice, a repetition or
    parentheses. *)
Fixpoint chars_of (r : regex) : option (list (N -> bool)) :=
  match r with
  | RChar p => Some [p]
  | REps => Some []
  | RSeq r1 r2 =>
      match chars_of r1, chars_of r2 with
      | Some ps1, Some ps2 => Some (ps1 ++ ps2)
      | _, _ => None
      end
  | RAlt _ _ | RStar _ | RGroup _ _ => None
  end.

(** The classes [ps] accept the code units of [s], one each. *)
Definition accepts (ps : list (N -> bool)) (s : jsstring) : Prop :=
  Forall2 (fun p x => p x = true) ps s.

End FixedShape.
Import FixedShape.

(** ** storage.ts: the filter settings

    The third map of [MemStorage], [filterSettings], is read and written by
    two methods that touch nothing else; it is modelled on its own. *)
Module FilterStore.

Module InsertFilterSettings.
Record t : Type := {
  userId : option jsstring;
  logLevels : option (list jsstring);
  keywords : option (list jsstring);
  timeRange : option jsstring;
  autoScroll : option bool
}.
End InsertFilterSettings.

(** A stored settings object; [None] is [null]. *)
Module FilterSettings.
Record t : Type := {
  id : jsstring;
  userId : option jsstring;
  logLevels : option (list jsstring);
  keywords : option (list jsstring);
  timeRange : option jsstring;
  autoScroll : option bool
}.
End FilterSettings.

(** [x || null] on an optional boolean: [false] gives [null] as well. *)
Definition true_or_null (x : option bool) : option bool :=
  match x with
  | Some true => Some true
  | Some false | None => None
  end.

(** [getFilterSettings(userId = "default")]: the default stands in for a
    missing argument only. *)
Definition getFilterSettings (fs : gmap jsstring FilterSettings.t)
    (userId : option jsstring) : option FilterSettings.t :=
  fs !! default (str "default") userId.

(** [createOrUpdateFilterSettings]; [uuid] is what [randomUUID()] returns in
    this call.  An array is truthy even when empty, so [logLevels] and
    [keywords] are copied whenever they are present. *)
Definition createOrUpdateFilterSettings (uuid : jsstring)
    (fs : gmap jsstring FilterSettings.t) (insertSettings : InsertFilterSettings.t)
    : gmap jsstring FilterSettings.t * FilterSettings.t :=
  let userId :=
    default (str "default") (or_null (InsertFilterSettings.userId insertSettings)) in
  let settings :=
    {| FilterSettings.id := uuid;
       FilterSettings.userId := or_null (InsertFilterSettings.userId insertSettings);
       FilterSettings.logLevels := InsertFilterSettings.logLevels insertSettings;
       FilterSettings.keywords := InsertFilterSettings.keywords insertSettings;
       FilterSettings.timeRange := or_null (InsertFilterSettings.timeRange insertSettings);
       FilterSettings.autoScroll :=
         true_or_null (InsertFilterSettings.autoScroll insertSettings) |} in
  (<[userId := settings]> fs, settings).

(** What [GET /api/filters] answers: the stored settings of the default
    user, or the built-in ones. *)
Inductive FiltersResponse : Type :=
| StoredSettings (settings : FilterSettings.t)
| DefaultSettings (logLevels keywords : list jsstring) (timeRange : jsstring)
    (autoScroll : bool).

Definition get_filters (fs : gmap jsstring FilterSettings.t) : FiltersResponse :=
  match getFilterSettings fs None with
  | Some settings => StoredSettings settings
  | None =>
      DefaultSettings [str "ERROR"; str "WARN"; str "INFO"; str "DEBUG"] []
        (str "all") true
  end.

(** The filter stores the program can build. *)
Inductive reachable_filters : gmap jsstring FilterSettings.t -> Prop :=
| reach_no_filters : reachable_filters ∅
| reach_createOrUpdate uuid fs insertSettings :
    reachable_filters fs ->
    reachable_filters (fst (createOrUpdateFilterSettings uuid fs insertSettings)).

End FilterStore.
Import FilterStore.

(** ** src/server/routes.ts: the WebSocket handlers *)
Module Sockets.

(** What the message handler reads of the value [JSON.parse] returns: the
    properties [type] and [fileName], each a JSON value or missing.  A
    parsed number, string, boolean or array has neither property; [null]
    makes the read of [type] throw, like text that is not JSON. *)
Module ClientMessage.
Record t : Type := {
  type : option JsValue;
  fileName : option JsValue
}.
End ClientMessage.

(** [ws.send(JSON.stringify(msg))] *)
Definition ws_send (msg : Message) (c : Client) : Client * result unit :=
  if sendThrows c then (c, Throw (str "WebSocket is not open"))
  else (deliver msg c, Ok tt).

(** The body of [wss.on("connection", ...)] once the listeners are set. *)
Definition on_connection (c : Client) : Client * result unit :=
  ws_send (MsgStatus (str "connected")) c.

(** [ws.subscribedFile = data.fileName] *)
Definition set_subscribedFile (fileName : JsValue) (c : Client) : Client :=
  {| subscribedFile := Some fileName;
     sendThrows := sendThrows c;
     sent := sent c |}.

(** [ws.on("message", ...)].  [data] is the parsed message, or the exception
    of [JSON.parse] (or of reading [type] off [null]), which the handler
    of routes.ts does not catch.  [data.type === "subscribe"] holds of the
    string only; [data.fileName] is tested for truthiness and stored as it
    is. *)
Definition on_message (data : result ClientMessage.t) (c : Client)
    : Client * result unit :=
  match data with
  | Throw msg => (c, Throw msg)
  | Ok d =>
      if bool_decide (ClientMessage.type d = Some (JString (str "subscribe"))) then
        match ClientMessage.fileName d with
        | Some fileName =>
            if truthy fileName then
              ws_send (MsgSubscribed fileName) (set_subscribedFile fileName c)
            else (c, Ok tt)
        | None => (c, Ok tt)
        end
      else (c, Ok tt)
  end.

(** A message event on the [i]-th connection of the server. *)
Definition ws_message (i : nat) (data : result ClientMessage.t) (sv : Server)
    : Server * result unit :=
  match clients sv !! i with
  | Some c =>
      let '(c', r) := on_message data c in
      ({| storage := storage sv; clients := <[i := c']> (clients sv);
          uuids := uuids sv |}, r)
  | None => (sv, Ok tt)
  end.

(** The message events of one connection, one after the other.  The
    listener has no [try]: an exception leaves it uncaught and the messages
    after it are not handled. *)
Fixpoint receive_all (msgs : list (result ClientMessage.t)) (c : Client)
    : Client * result unit :=
  match msgs with
  | [] => (c, Ok tt)
  | data :: rest =>
      match on_message data c with
      | (c', Ok _) => receive_all rest c'
      | (c', Throw msg) => (c', Throw msg)
      end
  end.

(** The value a message asks to subscribe to, if it is a subscription. *)
Definition subscription_of (data : result ClientMessage.t) : option JsValue :=
  match data with
  | Ok d =>
      if bool_decide (ClientMessage.type d = Some (JString (str "subscribe")))
      then match ClientMessage.fileName d with
           | Some fileName => if truthy fileName then Some fileName else None
           | None => None
           end
      else None
  | Throw _ => None
  end.

(** [{ type: "subscribe", fileName }] for any value of [fileName]. *)
Definition subscribe_value (fileName : JsValue) : result ClientMessage.t :=
  Ok {| ClientMessage.type := Some (JString (str "subscribe"));
        ClientMessage.fileName := Some fileName |}.

(** [{ type: "subscribe", fileName }] with a string. *)
Definition subscribe_to (fileName : jsstring) : result ClientMessage.t :=
  subscribe_value (JString fileName).

End Sockets.
Import Sockets.

(** ** What an upload pushes to the connections *)
Module UploadPush.

(** The records [records] broadcast one after the other for [fileId], as
    seen by one connection. *)
Definition deliver_records (fileId : jsstring) (records : list LogEntry.t)
    (c : Client) : Client :=
  fold_left (fun c e => deliver_to fileId (MsgLogEntry e) c) records c.

(** A line [line.trim()] finds empty. *)
Definition blank (line : jsstring) : Prop := trim line = [].

End UploadPush.
Import UploadPush.

(** ** routes.ts: reading and exporting the stored records *)
Module Queries.

(** A JavaScript number as far as these routes use one: [NaN] or an
    integer ([-0] is [Int 0]; both are falsy). *)
Inductive Number : Type :=
| NaN
| Int (z : Z).

(** The value of a code unit as a digit of the radix, 10 or 16. *)
Definition digit_value (radix : Z) (c : N) : option Z :=
  if is_digit c then Some (Z.of_N c - 48)%Z
  else if (radix =? 16)%Z && (97 <=? c)%N && (c <=? 102)%N then Some (Z.of_N c - 87)%Z
  else if (radix =? 16)%Z && (65 <=? c)%N && (c <=? 70)%N then Some (Z.of_N c - 55)%Z
  else None.

(** The digits up to the first code unit that is not one. *)
Fixpoint digits_prefix (radix : Z) (s : jsstring) : list Z :=
  match s with
  | c :: s' =>
      match digit_value radix c with
      | Some d => d :: digits_prefix radix s'
      | None => []
      end
  | [] => []
  end.

Definition math_int (radix : Z) (ds : list Z) : Z :=
  fold_left (fun acc d => acc * radix + d)%Z ds 0%Z.

(** [parseInt(string)] with no radix.  The engine returns the double
    nearest to the integer read; the model answers for at most 15 digits
    (13 after [0x]), which every double holds exactly, and is [None]
    beyond. *)
Definition parseInt (input : jsstring) : option Number :=
  let s := trimStart input in
  let '(sign, s) :=
    match s with
    | c :: s' =>
        if (c =? 45)%N then ((-1)%Z, s')
        else if (c =? 43)%N then (1%Z, s')
        else (1%Z, s)
    | [] => (1%Z, s)
    end in
  let '(radix, s, most) :=
    match s with
    | a :: b :: s' =>
        if (a =? 48)%N && ((b =? 120)%N || (b =? 88)%N) then (16%Z, s', 13%nat)
        else (10%Z, s, 15%nat)
    | _ => (10%Z, s, 15%nat)
    end in
  match digits_prefix radix s with
  | [] => Some NaN
  | ds =>
      if (length ds <=? most)%nat then Some (Int (sign * math_int radix ds))
      else None
  end.

(** [parseInt(q as string) || dflt] for a query parameter that is absent
    (the destructuring default, the number [dflt] itself, is parsed) or a
    string.  A repeated or bracketed parameter, which express hands over
    as an array or object, is outside the model. *)
Definition query_number (q : option jsstring) (dflt : Z) : option Z :=
  match q with
  | None => Some dflt
  | Some s =>
      match parseInt s with
      | Some NaN => Some dflt
      | Some (Int z) => Some (if (z =? 0)%Z then dflt else z)
      | None => None
      end
  end.

(** GET /api/logs/:fileId: the array sent by [res.json]. *)
Definition get_logs (st : MemStorage) (fileId : jsstring)
    (limit offset : option jsstring) : option (list LogEntry.t) :=
  match query_number limit 1000, query_number offset 0 with
  | Some parsedLimit, Some parsedOffset =>
      Some (getLogEntries st fileId parsedLimit parsedOffset)
  | _, _ => None
  end.

Section ExportRoute.

(** [Date.prototype.toString], which a template literal applies to a
    [Date]; it does not throw. *)
Variable date_toString : Timestamp -> jsstring.

Definition time_text (t : TimeValue) : jsstring :=
  match t with
  | TDate d => date_toString d
  | TString s => s
  end.

(** What one pass of the [forEach] callback appends to [content]. *)
Definition export_entry (entry : LogEntry.t) : jsstring :=
  (time_text (LogEntry.timestamp entry) ++ str " " ++ LogEntry.level entry
   ++ str " " ++ default [] (LogEntry.logger entry) ++ str " "
   ++ LogEntry.message entry ++ newline)
  ++ match LogEntry.stackTrace entry with
     | Some (c :: trace) => (c :: trace) ++ newline
     | _ => []
     end.

Definition export_content (entries : list LogEntry.t) : jsstring :=
  fold_left (fun content entry => content ++ export_entry entry) entries [].

(** [logFile?.fileName || "export.log"] *)
Definition export_name (st : MemStorage) (fileId : jsstring) : jsstring :=
  match getLogFile st fileId with
  | Some logFile =>
      match LogFile.fileName logFile with
      | [] => str "export.log"
      | name => name
      end
  | None => str "export.log"
  end.

(** Whether [res.setHeader] takes a value: Node refuses, with a
    [TypeError], a value holding a code unit other than a tab, 0x20 to 0x7e
    and 0x80 to 0xff. *)
Definition header_char_ok (c : N) : bool :=
  (c =? 9) || ((32 <=? c) && (c <=? 126)) || ((128 <=? c) && (c <=? 255)).

Definition header_value_ok (value : jsstring) : bool :=
  forallb header_char_ok value.

(** The value given for [Content-Disposition]: the file name between two
    quotation marks (code unit 34). *)
Definition content_disposition (fileName : jsstring) : jsstring :=
  str "attachment; filename=" ++ [34] ++ fileName ++ [34].

(** What the route answers: the attachment, or the 500 of its [catch]. *)
Inductive ExportResponse : Type :=
| Attachment (fileName content : jsstring)
| ExportFailed (error : jsstring).

(** The two [res.setHeader] calls and [res.send(content)]. *)
Definition send_export (fileName content : jsstring) : ExportResponse :=
  if header_value_ok (content_disposition fileName)
  then Attachment fileName content
  else ExportFailed (str "Failed to export logs").

(** GET /api/export/:fileId.  [getLogEntries(fileId, 10000)] leaves the
    offset to its default, 0. *)
Definition export (st : MemStorage) (fileId : jsstring) : ExportResponse :=
  let entries := getLogEntries st fileId 10000 0 in
  send_export (export_name st fileId) (export_content entries).

(** The same handler over the compiled store, whose read renders every
    record and can throw; the handler's [catch] answers 500 then. *)
Definition export_js (toUpperCase : jsstring -> jsstring)
    (toISOString : Timestamp -> result jsstring)
    (st : MemStorage) (fileId : jsstring) : ExportResponse :=
  match getLogEntries_js toUpperCase toISOString st fileId 10000 0 with
  | Ok entries => send_export (export_name st fileId) (export_content entries)
  | Throw _ => ExportFailed (str "Failed to export logs")
  end.

End ExportRoute.

End Queries.
Import Queries.

(** * Properties *)

(** ** Trimming *)
Section Trim.

Lemma trimStart_head c t s : trimStart s = c :: t -> is_space c = false.
Proof.
  induction s as [|x s IH]; simpl; [discriminate|].
  destruct (is_space x) eqn:Hx; [exact IH|].
  intros [= -> _]. exact Hx.
Qed.

Lemma trimStart_suffix s : exists w, s = w ++ trimStart s.
Proof.
  induction s as [|x s [w IH]]; simpl.
  - exists []. reflexivity.
  - destruct (is_space x).
    + exists (x :: w). simpl. congruence.
    + exists []. reflexivity.
Qed.

Lemma trimEnd_prefix s : exists w, s = trimEnd s ++ w.
Proof.
  unfold trimEnd. destruct (trimStart_suffix (rev s)) as [w Hw].
  exists (rev w). rewrite <- rev_app_distr, <- Hw, rev_involutive. reflexivity.
Qed.

(** A trimmed line does not begin with white space. *)
Lemma trim_head c t s : trim s = c :: t -> is_space c = false.
Proof.
  unfold trim. intros H.
  destruct (trimEnd_prefix (trimStart s)) as [w Hw].
  rewrite H in Hw. simpl in Hw.
  exact (trimStart_head _ _ _ Hw).
Qed.

End Trim.

(** ** The matcher and its captures *)
Section Matcher.

(** Whatever holds of the captures before a match and survives
    [set_capture] on the parentheses of the pattern holds of the captures
    the continuation receives. *)
Lemma rmatch_inv_groups (P : captures -> Prop) (res : captures) (Q : Prop) :
  forall r,
    (forall j v c, j ∈ groups_in r -> P c -> P (set_capture j v c)) ->
    forall s c k,
      P c ->
      (forall s' c', P c' -> k s' c' = Some res -> Q) ->
      rmatch r s c k = Some res -> Q.
Proof.
  induction r as [p| |r1 IH1 r2 IH2|r1 IH1 r2 IH2|r1 IH1|i r1 IH1];
    intros Hset s c k HP Hk; simpl in Hset; simpl.
  - destruct s as [|x s']; [discriminate|].
    destruct (p x); [|discriminate]. apply Hk, HP.
  - apply Hk, HP.
  - apply IH1; [intros; apply Hset; [set_solver|assumption]|exact HP|].
    intros s' c' HP'.
    apply IH2; [intros; apply Hset; [set_solver|assumption]|exact HP'|exact Hk].
  - destruct (rmatch r1 s c k) eqn:E1.
    + intros [= ->]. revert E1.
      apply IH1; [intros; apply Hset; [set_solver|assumption]|exact HP|exact Hk].
    + apply IH2; [intros; apply Hset; [set_solver|assumption]|exact HP|exact Hk].
  - generalize (length s) as fuel. intros fuel. revert s c HP.
    induction fuel as [|fuel IHf]; intros s c HP.
    + apply Hk, HP.
    + match goal with |- context [rmatch r1 s c ?k'] =>
        destruct (rmatch r1 s c k') eqn:E1 end.
      * intros [= ->]. revert E1. apply IH1; [exact Hset|exact HP|].
        intros s' c' HP'. destruct (length s' <? length s)%nat; [|discriminate].
        apply IHf, HP'.
      * apply Hk, HP.
  - apply IH1; [intros; apply Hset; [set_solver|assumption]|exact HP|].
    intros s' c' HP'. apply Hk, Hset; [set_solver|exact HP'].
Qed.

Lemma rmatch_inv (P : captures -> Prop) (res : captures) (Q : Prop) :
  (forall j v c, P c -> P (set_capture j v c)) ->
  forall r s c k,
    P c ->
    (forall s' c', P c' -> k s' c' = Some res -> Q) ->
    rmatch r s c k = Some res -> Q.
Proof. intros Hset r. apply rmatch_inv_groups. intros; by apply Hset. Qed.

End Matcher.

Section MatcherGroups.

Lemma set_capture_length n j v (c : captures) :
  length c = n -> length (set_capture j v c) = n.
Proof. intros <-. unfold set_capture. apply length_insert. Qed.

Lemma set_capture_defined n i j v c :
  defined n i c -> defined n i (set_capture j v c).
Proof.
  intros [Hlen [w Hw]]. split; [by apply set_capture_length|].
  unfold set_capture. destruct (decide (pred j = pred i)) as [->|Hne].
  - exists v. apply list_lookup_insert_eq. by eapply lookup_lt_Some.
  - exists w. by rewrite list_lookup_insert_ne.
Qed.

(** A match of a pattern that goes through the [i]-th parentheses hands
    its continuation captures with the [i]-th slot filled. *)
Lemma rmatch_sets n i (res : captures) (Q : Prop) :
  (1 <= i <= n)%nat ->
  forall r s c k,
    sets i r = true ->
    length c = n ->
    (forall s' c', defined n i c' -> k s' c' = Some res -> Q) ->
    rmatch r s c k = Some res -> Q.
Proof.
  intros Hi. induction r as [p| |r1 IH1 r2 IH2|r1 IH1 r2 IH2|r1 IH1|j r1 IH1];
    intros s c k Hs Hlen Hk; simpl in Hs; try discriminate; simpl.
  - destruct (sets i r1) eqn:S1.
    + apply IH1; [reflexivity|exact Hlen|]. intros s' c' Hd.
      apply (rmatch_inv (defined n i) res Q); [|exact Hd|exact Hk].
      intros; by apply set_capture_defined.
    + simpl in Hs.
      apply (rmatch_inv (fun c => length c = n) res Q); [|exact Hlen|].
      * intros; by apply set_capture_length.
      * intros s' c' Hlen'. apply IH2; assumption.
  - apply andb_true_iff in Hs as [S1 S2].
    destruct (rmatch r1 s c k) eqn:E1.
    + intros [= ->]. revert E1. apply IH1; assumption.
    + apply IH2; assumption.
  - destruct (i =? j)%nat eqn:Eij.
    + apply Nat.eqb_eq in Eij as <-.
      apply (rmatch_inv (fun c => length c = n) res Q); [|exact Hlen|].
      * intros; by apply set_capture_length.
      * intros s' c' Hlen'. apply Hk. split; [by apply set_capture_length|].
        eexists. unfold set_capture. apply list_lookup_insert_eq. lia.
    + simpl in Hs. apply IH1; [exact Hs|exact Hlen|].
      intros s' c' Hd. apply Hk. by apply set_capture_defined.
Qed.

Lemma js_match_length line p m :
  js_match line p = Some m -> length m = S (ngroups p).
Proof.
  unfold js_match.
  destruct (rmatch (body p) line (replicate (ngroups p) None) at_end) as [c|] eqn:E;
    [|discriminate].
  intros [= <-]. simpl. f_equal. revert E.
  apply (rmatch_inv (fun c => length c = ngroups p) c).
  - intros; by apply set_capture_length.
  - apply length_replicate.
  - intros s' c' Hlen. unfold at_end. destruct s'; [|discriminate]. congruence.
Qed.

Lemma js_match_group line p m i :
  js_match line p = Some m ->
  sets i (body p) = true ->
  (1 <= i <= ngroups p)%nat ->
  exists v, m !! i = Some (Some v).
Proof.
  unfold js_match.
  destruct (rmatch (body p) line (replicate (ngroups p) None) at_end) as [c|] eqn:E;
    [|discriminate].
  intros [= <-] Hs Hi. revert E.
  apply (rmatch_sets (ngroups p) i c); [exact Hi|exact Hs|apply length_replicate|].
  intros s' c' [_ [v Hv]]. unfold at_end. destruct s'; [|discriminate].
  intros [= ->]. exists v. destruct i as [|i]; [lia|]. exact Hv.
Qed.

(** A literal consumes exactly its own code units. *)
Lemma rmatch_literal (w : jsstring) s c k (res : captures) :
  rmatch (fold_right (fun a r => RSeq (RChar (N.eqb a)) r) REps w) s c k = Some res ->
  exists s', s = w ++ s' /\ k s' c = Some res.
Proof.
  revert s. induction w as [|a w IH]; intros s; cbn [fold_right rmatch].
  - intros H. exists s. split; [reflexivity|exact H].
  - destruct s as [|x s]; [discriminate|].
    destruct (N.eqb_spec a x) as [->|_]; [|discriminate].
    intros H. destruct (IH _ H) as [s' [-> Hk]]. exists s'. split; [reflexivity|exact Hk].
Qed.

Lemma rmatch_level_alt s c k (res : captures) :
  rmatch level_alt s c k = Some res ->
  exists w s', w ∈ level_words /\ s = w ++ s' /\ k s' c = Some res.
Proof.
  unfold level_alt, level_words. cbn [alt rmatch]. unfold lit.
  repeat match goal with
  | |- context [rmatch (fold_right ?f REps ?w) s c k] =>
      let E := fresh "E" in
      destruct (rmatch (fold_right f REps w) s c k) eqn:E;
        [intros [= ->]; destruct (rmatch_literal _ _ _ _ _ E) as [s' [-> Hk]];
         exists w, s'; split; [set_solver|split; [reflexivity|exact Hk]]|]
  end.
  discriminate.
Qed.

(** In a pattern [/^ pre (ERROR|WARN|INFO|DEBUG) post $/] whose second
    parentheses are the ones around the level and do not come back in
    [post], the second slot of a match holds one of the four words. *)
Lemma rmatch_level_group n (res : captures) post :
  (2 <= n)%nat ->
  2%nat ∉ groups_in (seq post) ->
  forall pre s c,
    length c = n ->
    rmatch (seq (pre ++ RGroup 2 level_alt :: post)) s c at_end = Some res ->
    exists w, w ∈ level_words /\ res !! 1%nat = Some (Some w).
Proof.
  intros Hn Hpost. induction pre as [|r pre IH]; intros s c Hlen.
  - cbn [app seq rmatch]. intros H.
    destruct (rmatch_level_alt _ _ _ _ H) as (w & s' & Hw & -> & Hk).
    replace (take (length (w ++ s') - length s') (w ++ s')) with w in Hk
      by (rewrite length_app, Nat.add_sub; symmetry; apply take_app_length).
    exists w. split; [exact Hw|]. revert Hk.
    apply (rmatch_inv_groups (fun c => c !! 1%nat = Some (Some w)) res).
    + intros j v c' Hj Hc'. unfold set_capture.
      rewrite list_lookup_insert_ne; [exact Hc'|].
      intros Hpred. destruct j as [|[|[|j]]]; cbn in Hpred; try lia.
      * contradict Hpost. exact Hj.
    + unfold set_capture. apply list_lookup_insert_eq. cbn. lia.
    + intros s'' c'' Hc''. unfold at_end. destruct s''; [|discriminate]. congruence.
  - cbn [app seq rmatch].
    apply (rmatch_inv (fun c => length c = n) res); [|exact Hlen|].
    + intros; by apply set_capture_length.
    + intros s' c' Hlen'. by apply IH.
Qed.

End MatcherGroups.

(** ** parseLogLine *)
Section Parser.

(** The stack trace pattern begins with [\s+]: it refuses every line whose
    first code unit is not white space. *)
Lemma stack_trace_pattern_needs_space c t :
  is_space c = false -> js_match (c :: t) stack_trace_pattern = None.
Proof.
  intros Hc. unfold js_match, stack_trace_pattern.
  cbn [body ngroups seq plus sp rmatch]. rewrite Hc. reflexivity.
Qed.

Lemma group_ok m i v : m !! i = Some (Some v) -> group m i = Ok v.
Proof. unfold group. intros ->. reflexivity. Qed.

(** The loop over the patterns never throws: the groups it calls methods
    on are filled by every match. *)
Lemma try_patterns_ok line n :
  exists r, try_patterns TOMCAT_PATTERNS line n = Ok r.
Proof.
  unfold TOMCAT_PATTERNS. cbn [try_patterns].
  destruct (js_match line iso_main_pattern) as [m|] eqn:E0.
  { rewrite (js_match_length _ _ _ E0). cbn [ngroups iso_main_pattern Nat.eqb].
    destruct (js_match_group _ _ _ 1 E0) as [v1 H1]; [reflexivity|simpl; lia|].
    destruct (js_match_group _ _ _ 2 E0) as [v2 H2]; [reflexivity|simpl; lia|].
    rewrite (group_ok _ _ _ H1), (group_ok _ _ _ H2). cbn [LogParser.bind].
    eexists; reflexivity. }
  destruct (js_match line locale_pattern) as [m|] eqn:E1.
  { rewrite (js_match_length _ _ _ E1). cbn [ngroups locale_pattern Nat.eqb].
    destruct (js_match_group _ _ _ 1 E1) as [v1 H1]; [reflexivity|simpl; lia|].
    destruct (js_match_group _ _ _ 2 E1) as [v2 H2]; [reflexivity|simpl; lia|].
    rewrite (group_ok _ _ _ H1), (group_ok _ _ _ H2). cbn [LogParser.bind].
    eexists; reflexivity. }
  destruct (js_match line stack_trace_pattern) as [m|] eqn:E2.
  { rewrite (js_match_length _ _ _ E2). cbn [ngroups stack_trace_pattern Nat.eqb].
    eexists; reflexivity. }
  eexists; reflexivity.
Qed.

(** The level a structural pattern captures is one of the four words, in
    capitals already: [toUpperCase] leaves it as it is. *)
Lemma structural_level line p m :
  p = iso_main_pattern \/ p = locale_pattern ->
  js_match line p = Some m ->
  exists w, w ∈ level_words /\ group m 2 = Ok w /\ toUpperCase w = w.
Proof.
  intros Hp. unfold js_match.
  destruct (rmatch (body p) line (replicate (ngroups p) None) at_end) as [c|] eqn:E;
    [|discriminate].
  intros [= <-].
  assert (Hw : exists w, w ∈ level_words /\ c !! 1%nat = Some (Some w)).
  { destruct Hp as [-> | ->]; revert E.
    - apply (rmatch_level_group 3 c [plus sp; RGroup 3 (plus dot)])
        with (pre := [RGroup 1 _; plus sp; lit "main"; plus sp]);
        [lia|cbn; rewrite !elem_of_cons, elem_of_nil; intuition discriminate|reflexivity].
    - apply (rmatch_level_group 4 c
               [RStar sp; chr "-"; RStar sp; RGroup 3 (plus (RChar logger_char));
                RStar sp; chr "-"; RStar sp; RGroup 4 (plus dot)])
        with (pre := [RGroup 1 _; RStar sp; chr "-"; RStar sp]);
        [lia|cbn; rewrite !elem_of_cons, elem_of_nil; intuition discriminate|reflexivity]. }
  destruct Hw as (w & Hw & Hc). exists w. split; [exact Hw|].
  split.
  { unfold group. change ((Some line :: c) !! 2%nat) with (c !! 1%nat).
    rewrite Hc. reflexivity. }
  unfold level_words in Hw.
  repeat (apply elem_of_cons in Hw as [->|Hw]; [vm_compute; reflexivity|]).
  by apply elem_of_nil in Hw.
Qed.

(** The fields read from the match without a method call are filled as
    well: the record never holds [undefined] as its message. *)
Lemma structural_fields_defined line m :
  (js_match line iso_main_pattern = Some m -> exists v, group_raw m 3 = Some v)
  /\ (js_match line locale_pattern = Some m ->
      (exists v, group_raw m 3 = Some v) /\ (exists v, group_raw m 4 = Some v)).
Proof.
  unfold group_raw. split; [intros E|intros E; split].
  - destruct (js_match_group _ _ _ 3 E) as [v ->]; [reflexivity|simpl; lia|]. eauto.
  - destruct (js_match_group _ _ _ 3 E) as [v ->]; [reflexivity|simpl; lia|]. eauto.
  - destruct (js_match_group _ _ _ 4 E) as [v ->]; [reflexivity|simpl; lia|]. eauto.
Qed.

(** An entry returned from inside the loop carries no stack trace. *)
Lemma try_patterns_stackTrace pats line n e :
  try_patterns pats line n = Ok (Some e) -> LogParser.stackTrace e = None.
Proof.
  induction pats as [|p pats IH]; cbn [try_patterns]; [discriminate|].
  destruct (js_match line p) as [m|]; [|exact IH].
  destruct (length m =? 4)%nat.
  { destruct (group m 1); [|discriminate]. destruct (group m 2); [|discriminate].
    cbn [LogParser.bind]. intros [= <-]. reflexivity. }
  destruct (length m =? 5)%nat; [|exact IH].
  destruct (group m 1); [|discriminate]. destruct (group m 2); [|discriminate].
  cbn [LogParser.bind]. intros [= <-]. reflexivity.
Qed.

(** On a non-blank line the parser returns, from the loop or from the
    fallback; the stack trace return is out of reach, because the line was
    trimmed before the pattern that asks for leading white space sees it. *)
Lemma parseLogLine_tagged_cases line n :
  trim line <> [] ->
  (exists e, try_patterns TOMCAT_PATTERNS (trim line) n = Ok (Some e)
             /\ parseLogLine_tagged line n = Ok (Structural, e))
  \/ (try_patterns TOMCAT_PATTERNS (trim line) n = Ok None
      /\ parseLogLine_tagged line n =
         Ok (Fallback,
             {| LogParser.lineNumber := n; timestamp := NewDateNow;
                level := str "INFO"; logger := None; message := trim line;
                stackTrace := None |})).
Proof.
  intros Hne. unfold parseLogLine_tagged.
  destruct (trim line) as [|c t] eqn:Et; [congruence|].
  destruct (try_patterns_ok (c :: t) n) as [[e|] Hr]; rewrite Hr; cbn [LogParser.bind].
  - left. eauto.
  - right. split; [reflexivity|].
    rewrite stack_trace_pattern_needs_space; [reflexivity|].
    exact (trim_head _ _ _ Et).
Qed.

Lemma parseLogLine_no_stackTrace line n e :
  parseLogLine line n = Ok e -> LogParser.stackTrace e = None.
Proof.
  unfold parseLogLine.
  destruct (trim line) as [|c t] eqn:Et.
  { unfold parseLogLine_tagged. rewrite Et. discriminate. }
  destruct (parseLogLine_tagged_cases line n) as [[e' [Hp ->]]|[_ ->]];
    [congruence| |]; cbn [LogParser.bind snd]; intros [= <-].
  - exact (try_patterns_stackTrace _ _ _ _ Hp).
  - reflexivity.
Qed.

Lemma parseLogLine_empty line n :
  trim line = [] -> parseLogLine line n = Throw (str "Empty line").
Proof.
  intros Ht. unfold parseLogLine, parseLogLine_tagged. rewrite Ht. reflexivity.
Qed.

Lemma parseLogLine_ok line n :
  trim line <> [] -> exists e, parseLogLine line n = Ok e.
Proof.
  intros Hne. unfold parseLogLine.
  destruct (parseLogLine_tagged_cases line n Hne) as [[e [_ ->]]|[_ ->]];
    eexists; reflexivity.
Qed.

End Parser.

(** C2. For every non-blank line [parseLogLine] returns normally, with
    exactly one outcome: the entry comes from one of its three returns (a
    structural record, a stack trace result or a fallback record), it is
    the only value the call has, and no exception leaves the call. *)
Theorem parseLogLine_one_outcome (line : jsstring) (n : nat) :
  trim line <> [] ->
  exists (o : Outcome) (e : ParsedLogEntry),
    parseLogLine_tagged line n = Ok (o, e)
    /\ parseLogLine line n = Ok e
    /\ (forall msg, parseLogLine line n <> Throw msg)
    /\ (forall o' e', parseLogLine_tagged line n = Ok (o', e') -> o' = o /\ e' = e).
Proof.
  intros Hne. unfold parseLogLine.
  destruct (parseLogLine_tagged_cases line n Hne) as [[e [_ H]]|[_ H]]; rewrite H;
    do 2 eexists; (split; [reflexivity|]); cbn [LogParser.bind snd];
    (split; [reflexivity|]); (split; [discriminate|]);
    intros o' e' [= <- <-]; split; reflexivity.
Qed.

Lemma parseLogLine_one_outcome_witness :
  exists (o : Outcome) (e : ParsedLogEntry),
    parseLogLine_tagged (str "some random text") 1 = Ok (o, e)
    /\ parseLogLine (str "some random text") 1 = Ok e
    /\ (forall msg, parseLogLine (str "some random text") 1 <> Throw msg)
    /\ (forall o' e', parseLogLine_tagged (str "some random text") 1 = Ok (o', e')
                      -> o' = o /\ e' = e).
Proof. apply (parseLogLine_one_outcome (str "some random text") 1). vm_compute. discriminate. Defined.

(** ** The registered patterns *)
Section Patterns.

(** Neither structural pattern accepts a line that opens with [HH:]. *)
Lemma bare_time_no_structural_match line :
  spec_bare_time line = true ->
  js_match line iso_main_pattern = None /\ js_match line locale_pattern = None.
Proof.
  destruct line as [|h1 [|h2 [|c rest]]]; try discriminate.
  cbn [spec_bare_time]. intros H.
  apply andb_true_iff in H as [H Hc]. apply andb_true_iff in H as [H1 H2].
  apply N.eqb_eq in Hc as ->.
  unfold js_match, iso_main_pattern, locale_pattern.
  cbn [body ngroups seq times d chr rmatch]. rewrite H1, H2.
  split; reflexivity.
Qed.

Lemma bare_time_falls_back line n :
  spec_bare_time (trim line) = true ->
  parseLogLine_tagged line n =
    Ok (Fallback,
        {| LogParser.lineNumber := n; timestamp := NewDateNow;
           level := str "INFO"; logger := None; message := trim line;
           stackTrace := None |}).
Proof.
  intros Hs. assert (Hne : trim line <> []).
  { intros E. rewrite E in Hs. discriminate. }
  destruct (parseLogLine_tagged_cases line n Hne) as [[e [Hp _]]|[_ H]]; [|exact H].
  exfalso. destruct (bare_time_no_structural_match _ Hs) as [E0 E1].
  revert Hp. unfold TOMCAT_PATTERNS. cbn [try_patterns]. rewrite E0, E1.
  destruct (js_match (trim line) stack_trace_pattern) as [m|] eqn:E2; [|discriminate].
  rewrite (js_match_length _ _ _ E2). discriminate.
Qed.

End Patterns.

(** C3, as the specification has it, fails: no line of shape (c), a bare
    time without a date, is parsed into a structural record. *)
Lemma bare_time_never_structural :
  ~ exists (line : jsstring) (n : nat) (e : ParsedLogEntry),
      spec_bare_time (trim line) = true
      /\ parseLogLine_tagged line n = Ok (Structural, e).
Proof.
  intros (line & n & e & Hs & Hp).
  rewrite (bare_time_falls_back line n Hs) in Hp. discriminate.
Qed.

(** C3, amended. The registered structural patterns cover (a) the ISO-like
    format [YYYY-MM-DD HH:mm:ss,SSS main LEVEL message], with a comma before
    the milliseconds and the token [main] before the level, which becomes
    the logger, and (b) the locale format
    [DD.MM.YY HH:mm:ss:SSS - LEVEL - logger - message] with the two-digit
    year read as 2000+YY: a line of each shape is parsed into a structural
    record carrying the extracted fields.  A line that opens with a bare
    time is parsed into the fallback record, as is the ISO-like line with a
    dot before the milliseconds and a bracketed logger. *)
Theorem registered_patterns_cover (n : nat) :
  parseLogLine_tagged (str "2024-01-01 10:00:00,000 main ERROR boom") n =
    Ok (Structural,
        {| LogParser.lineNumber := n;
           timestamp := NewDate (str "2024-01-01 10:00:00.000");
           level := str "ERROR"; logger := Some (str "main");
           message := str "boom"; stackTrace := None |})
  /\ parseLogLine_tagged (str "31.12.23 23:59:59:999 - INFO - app.Main - started") n =
    Ok (Structural,
        {| LogParser.lineNumber := n;
           timestamp := NewDate (str "2023-12-31 23:59:59:999");
           level := str "INFO"; logger := Some (str "app.Main");
           message := str "started"; stackTrace := None |})
  /\ (forall line : jsstring,
        spec_bare_time (trim line) = true ->
        parseLogLine_tagged line n =
          Ok (Fallback,
              {| LogParser.lineNumber := n; timestamp := NewDateNow;
                 level := str "INFO"; logger := None; message := trim line;
                 stackTrace := None |}))
  /\ parseLogLine_tagged (str "2024-01-01 10:00:00.000 ERROR [svc] boom") n =
    Ok (Fallback,
        {| LogParser.lineNumber := n; timestamp := NewDateNow;
           level := str "INFO"; logger := None;
           message := str "2024-01-01 10:00:00.000 ERROR [svc] boom";
           stackTrace := None |}).
Proof.
  split; [vm_compute; reflexivity|].
  split; [vm_compute; reflexivity|].
  split; [intros line; apply bare_time_falls_back|].
  vm_compute; reflexivity.
Qed.

Lemma registered_patterns_cover_witness :
  spec_bare_time (trim (str "10:00:00.000 INFO hello")) = true
  /\ parseLogLine_tagged (str "10:00:00.000 INFO hello") 7 =
       Ok (Fallback,
           {| LogParser.lineNumber := 7; timestamp := NewDateNow;
              level := str "INFO"; logger := None;
              message := trim (str "10:00:00.000 INFO hello");
              stackTrace := None |}).
Proof.
  split; [vm_compute; reflexivity|].
  apply (proj1 (proj2 (proj2 (registered_patterns_cover 7)))).
  vm_compute; reflexivity.
Defined.

(** The bare-time line of the specification's shape (c), run through the
    parser. *)
Example bare_time_example :
  spec_bare_time (trim (str "10:00:00.000 INFO hello")) = true
  /\ parseLogLine_tagged (str "10:00:00.000 INFO hello") 1 =
       Ok (Fallback,
           {| LogParser.lineNumber := 1; timestamp := NewDateNow;
              level := str "INFO"; logger := None;
              message := str "10:00:00.000 INFO hello"; stackTrace := None |}).
Proof. split; vm_compute; reflexivity. Qed.

(** C4. The locale line [01.02.24 10:00:00:000 - WARN - svcA - disk low]
    is parsed into a structural record with level WARN, logger [svcA],
    message [disk low] and a timestamp built from the string
    [2024-02-01 10:00:00:000]: its year is [20] followed by the two digits
    of the line. *)
Theorem locale_line_parsed (n : nat) :
  let line := str "01.02.24 10:00:00:000 - WARN - svcA - disk low" in
  parseLogLine_tagged line n =
    Ok (Structural,
        {| LogParser.lineNumber := n;
           timestamp := NewDate (str "2024-02-01 10:00:00:000");
           level := str "WARN"; logger := Some (str "svcA");
           message := str "disk low"; stackTrace := None |})
  /\ parseLogLine line n =
    Ok {| LogParser.lineNumber := n;
          timestamp := NewDate (str "2024-02-01 10:00:00:000");
          level := str "WARN"; logger := Some (str "svcA");
          message := str "disk low"; stackTrace := None |}
  /\ slice (str "2024-02-01 10:00:00:000") 0 4 = str "20" ++ slice line 6 8.
Proof. repeat split; vm_compute; reflexivity. Qed.

(** ** The store *)
Section Store.

Lemma array_slice_nat {A} (l : list A) (a b : nat) :
  array_slice l (Z.of_nat a) (Z.of_nat a + Z.of_nat b) = take b (drop a l).
Proof.
  unfold array_slice.
  destruct (Z.ltb_spec (Z.of_nat a) 0) as [?|_]; [lia|].
  destruct (Z.ltb_spec (Z.of_nat a + Z.of_nat b) 0) as [?|_]; [lia|].
  destruct (Nat.le_gt_cases a (length l)) as [Hle|Hgt].
  - replace (Z.to_nat (Z.min (Z.of_nat a) (Z.of_nat (length l)))) with a by lia.
    destruct (Nat.le_gt_cases b (length l - a)) as [Hb|Hb].
    + f_equal. lia.
    + rewrite !take_ge; [reflexivity| |]; rewrite length_drop; lia.
  - rewrite (drop_ge l a) by lia. rewrite take_nil.
    replace (Z.to_nat _) with 0%nat by lia. reflexivity.
Qed.

Lemma getLogEntries_nat st fileId (limit offset : nat) :
  getLogEntries st fileId (Z.of_nat limit) (Z.of_nat offset)
  = take limit (drop offset (entries_of st fileId)).
Proof. unfold getLogEntries. apply array_slice_nat. Qed.

Lemma entries_of_createLogEntry uuid st insertEntry :
  entries_of (fst (createLogEntry uuid st insertEntry))
             (InsertLogEntry.fileName insertEntry)
  = entries_of st (InsertLogEntry.fileName insertEntry)
    ++ [new_entry uuid insertEntry].
Proof.
  unfold createLogEntry, entries_of. cbn [fst logEntries new_entry LogEntry.fileName].
  rewrite lookup_insert_eq. reflexivity.
Qed.

Lemma or_null_not_empty x : or_null x <> Some [].
Proof. destruct x as [[|c s]|]; discriminate. Qed.

Lemma new_entry_no_empty uuid insertEntry :
  LogEntry.logger (new_entry uuid insertEntry) <> Some []
  /\ LogEntry.stackTrace (new_entry uuid insertEntry) <> Some [].
Proof. split; apply or_null_not_empty. Qed.

Lemma append_trace_no_empty trace e :
  LogEntry.logger e <> Some [] ->
  LogEntry.logger (Index.append_trace trace e) <> Some []
  /\ LogEntry.stackTrace (Index.append_trace trace e) <> Some [].
Proof.
  intros Hl. split; [exact Hl|]. cbn.
  intros [= H]. apply (f_equal (@length N)) in H.
  rewrite !length_app in H. cbn in H. lia.
Qed.

Lemma reachable_no_empty_strings st : reachable st -> no_empty_strings st.
Proof.
  induction 1 as [|uuid st ins _ IH|st f _ IH|st f _ IH|uuid st ins _ IH
                  |st id status _ IH|st f trace _ IH];
    intros fileId es e Hes He.
  - cbn in Hes. by rewrite lookup_empty in Hes.
  - cbn in Hes.
    destruct (decide (InsertLogEntry.fileName ins = fileId)) as [<-|Hne].
    + rewrite lookup_insert_eq in Hes. injection Hes as <-.
      apply elem_of_app in He as [He|He].
      * unfold entries_of in He.
        destruct (logEntries st !! InsertLogEntry.fileName ins) as [es0|] eqn:E0.
        -- exact (IH _ _ _ E0 He).
        -- by apply elem_of_nil in He.
      * apply list_elem_of_singleton in He as ->. apply new_entry_no_empty.
    + rewrite lookup_insert_ne in Hes by exact Hne. exact (IH _ _ _ Hes He).
  - cbn in Hes. destruct (decide (f = fileId)) as [->|Hne].
    + rewrite lookup_insert_eq in Hes. injection Hes as <-.
      by apply elem_of_nil in He.
    + rewrite lookup_insert_ne in Hes by exact Hne. exact (IH _ _ _ Hes He).
  - cbn in Hes. apply lookup_delete_Some in Hes as [_ Hes]. exact (IH _ _ _ Hes He).
  - cbn in Hes. exact (IH _ _ _ Hes He).
  - unfold updateLogFileStatus in Hes.
    destruct (logFiles st !! id); cbn in Hes; exact (IH _ _ _ Hes He).
  - unfold Index.alter_last in Hes.
    destruct (logEntries st !! f) as [es0|] eqn:E0; [|exact (IH _ _ _ Hes He)].
    cbn in Hes. destruct (decide (f = fileId)) as [->|Hne].
    + rewrite lookup_insert_eq in Hes. injection Hes as <-.
      apply list_elem_of_lookup in He as [i Hi].
      rewrite list_lookup_alter in Hi. case_decide as Hd.
      * subst i.
        destruct (es0 !! pred (length es0)) as [e0|] eqn:Ei; [|discriminate].
        injection Hi as <-.
        apply append_trace_no_empty.
        apply (IH _ _ e0 E0). apply list_elem_of_lookup. eauto.
      * apply (IH _ _ e E0). apply list_elem_of_lookup. eauto.
    + rewrite lookup_insert_ne in Hes by exact Hne. exact (IH _ _ _ Hes He).
Qed.

End Store.

Section StoreJs.

Lemma array_map_app {A B} (f : A -> result B) (l1 l2 : list A) :
  array_map f (l1 ++ l2) = concat_results (array_map f l1) (array_map f l2).
Proof.
  induction l1 as [|x l1 IH]; cbn.
  - destruct (array_map f l2); reflexivity.
  - destruct (f x); [|reflexivity]. rewrite IH.
    destruct (array_map f l1), (array_map f l2); reflexivity.
Qed.

Lemma take_drop_pages {A} (l : list A) (n m : nat) :
  take n l ++ take m (drop n l) = take (n + m) l.
Proof.
  revert l. induction n as [|n IH]; intros l; cbn.
  - by rewrite drop_0.
  - destruct l as [|x l]; cbn.
    + by rewrite take_nil.
    + f_equal. apply IH.
Qed.

End StoreJs.

(** X29. Reading [N] records from the start and then [M] records from
    offset [N] gives, end to end, what reading [N + M] records from the
    start gives; a read returns the records at the positions
    [offset .. offset + limit - 1] of the stored sequence, which
    [createLogEntry] extends at its end; an offset at or past the end gives
    the empty list, and so does a file the store does not know.  The read
    of the compiled store takes the same page and renders each record of
    it, the first exception ending the read: it obeys the same page
    equation, and past the end it returns the empty list without
    rendering anything. *)
Theorem getLogEntries_pages (st : MemStorage) (fileId : jsstring) (N M : nat) :
  getLogEntries st fileId (Z.of_nat N) 0
    ++ getLogEntries st fileId (Z.of_nat M) (Z.of_nat N)
  = getLogEntries st fileId (Z.of_nat (N + M)) 0
  /\ (forall limit offset : nat,
        getLogEntries st fileId (Z.of_nat limit) (Z.of_nat offset)
        = take limit (drop offset (entries_of st fileId)))
  /\ (forall uuid insertEntry,
        entries_of (fst (createLogEntry uuid st insertEntry))
                   (InsertLogEntry.fileName insertEntry)
        = entries_of st (InsertLogEntry.fileName insertEntry)
          ++ [new_entry uuid insertEntry])
  /\ (forall limit offset : nat,
        (length (entries_of st fileId) <= offset)%nat ->
        getLogEntries st fileId (Z.of_nat limit) (Z.of_nat offset) = [])
  /\ (logEntries st !! fileId = None ->
      forall limit offset : Z, getLogEntries st fileId limit offset = [])
  /\ (forall toUpperCase toISOString,
        concat_results
          (getLogEntries_js toUpperCase toISOString st fileId (Z.of_nat N) 0)
          (getLogEntries_js toUpperCase toISOString st fileId (Z.of_nat M)
             (Z.of_nat N))
        = getLogEntries_js toUpperCase toISOString st fileId (Z.of_nat (N + M)) 0
        /\ (forall limit offset : nat,
              getLogEntries_js toUpperCase toISOString st fileId
                (Z.of_nat limit) (Z.of_nat offset)
              = array_map (render_entry toUpperCase toISOString)
                  (take limit (drop offset (entries_of st fileId))))
        /\ (forall limit offset : nat,
              (length (entries_of st fileId) <= offset)%nat ->
              getLogEntries_js toUpperCase toISOString st fileId
                (Z.of_nat limit) (Z.of_nat offset) = Ok [])).
Proof.
  split.
  { rewrite !(getLogEntries_nat st fileId _ 0), getLogEntries_nat, drop_0.
    apply take_drop_pages. }
  split; [intros; apply getLogEntries_nat|].
  split; [intros; apply entries_of_createLogEntry|].
  split.
  { intros limit offset Hge. rewrite getLogEntries_nat, drop_ge by exact Hge.
    apply take_nil. }
  split.
  { intros Hnone limit offset. unfold getLogEntries, entries_of.
    rewrite Hnone. cbn. unfold array_slice. cbn.
    by rewrite drop_nil, take_nil. }
  intros toUpperCase toISOString. unfold getLogEntries_js. split.
  { change 0%Z with (Z.of_nat 0).
    rewrite !array_slice_nat, drop_0, <- array_map_app, take_drop_pages.
    reflexivity. }
  split.
  { intros limit offset. by rewrite array_slice_nat. }
  intros limit offset Hge. rewrite array_slice_nat, drop_ge by exact Hge.
  by rewrite take_nil.
Qed.

(** Outside the natural numbers the indices keep the meaning
    [Array.prototype.slice] gives them: a negative offset counts from the
    end of the sequence. *)
Remark array_slice_negative_offset :
  array_slice [1; 2; 3]%nat (-2) (-2 + 1) = [2]%nat.
Proof. reflexivity. Qed.

Lemma getLogEntries_pages_witness :
  let record (n : nat) (text : jsstring) :=
    {| InsertLogEntry.id := None; InsertLogEntry.lineNumber := n;
       InsertLogEntry.timestamp := TDate NewDateNow;
       InsertLogEntry.level := str "INFO"; InsertLogEntry.logger := None;
       InsertLogEntry.message := text; InsertLogEntry.stackTrace := None;
       InsertLogEntry.fileName := str "f" |} in
  let st := fst (createLogEntry (str "id-2")
                   (fst (createLogEntry (str "id-1") empty_storage
                           (record 1%nat (str "first"))))
                   (record 2%nat (str "second"))) in
  (length (entries_of st (str "f")) <= 2)%nat
  /\ getLogEntries st (str "f") (Z.of_nat 1) (Z.of_nat 2) = []
  /\ getLogEntries st (str "f") (Z.of_nat 1) 0
       ++ getLogEntries st (str "f") (Z.of_nat 1) (Z.of_nat 1)
     = getLogEntries st (str "f") (Z.of_nat (1 + 1)) 0.
Proof.
  cbn zeta. split; [vm_compute; lia|]. split.
  - refine (proj1 (proj2 (proj2 (proj2 (getLogEntries_pages _ (str "f") 1 1))))
              1%nat 2%nat _).
    vm_compute; lia.
  - exact (proj1 (getLogEntries_pages _ (str "f") 1 1)).
Defined.

(** C7. [clearLogEntries] leaves the file with no record and leaves the
    map of files as it was, so the file keeps its status and its name;
    the statistics read right after are all zero. *)
Theorem clearLogEntries_keeps_file (st : MemStorage) (fileId : jsstring) :
  let st' := clearLogEntries st fileId in
  entries_of st' fileId = []
  /\ logFiles st' = logFiles st
  /\ getLogFile st' fileId = getLogFile st fileId
  /\ getLogStatistics st' fileId =
       {| LogStatistics.total := 0; LogStatistics.errors := 0;
          LogStatistics.warnings := 0 |}
  /\ getLogStatistics_js st' fileId =
       {| LogStatistics.total := 0; LogStatistics.errors := 0;
          LogStatistics.warnings := 0 |}.
Proof.
  assert (H : entries_of (clearLogEntries st fileId) fileId = []).
  { unfold entries_of, clearLogEntries. cbn. by rewrite lookup_insert_eq. }
  cbn zeta. split; [exact H|]. split; [reflexivity|]. split; [reflexivity|].
  unfold getLogStatistics, getLogStatistics_js. rewrite H. split; reflexivity.
Qed.

(** C10. The record [createLogEntry] stores and returns has the identifier
    generated in the call, whatever [id] the caller's object carried; its
    [logger] and [stackTrace] are [null] when the caller gave none or gave
    the empty string, and the caller's string otherwise; and in every store
    the program can build no record has the empty string in either field. *)
Theorem createLogEntry_id_and_nulls :
  (forall (uuid : jsstring) (st : MemStorage) (insertEntry : InsertLogEntry.t),
     let entry := snd (createLogEntry uuid st insertEntry) in
     LogEntry.id entry = uuid
     /\ last (entries_of (fst (createLogEntry uuid st insertEntry))
                         (InsertLogEntry.fileName insertEntry)) = Some entry
     /\ LogEntry.logger entry =
          match InsertLogEntry.logger insertEntry with
          | None | Some [] => None
          | Some (c :: s) => Some (c :: s)
          end
     /\ LogEntry.stackTrace entry =
          match InsertLogEntry.stackTrace insertEntry with
          | None | Some [] => None
          | Some (c :: s) => Some (c :: s)
          end)
  /\ (forall st : MemStorage, reachable st -> no_empty_strings st).
Proof.
  split.
  - intros uuid st ins. cbn zeta. split; [reflexivity|]. split.
    + rewrite entries_of_createLogEntry. apply last_snoc.
    + split; cbn; [destruct (InsertLogEntry.logger ins) as [[|c s]|]
                  |destruct (InsertLogEntry.stackTrace ins) as [[|c s]|]];
        reflexivity.
  - apply reachable_no_empty_strings.
Qed.

Lemma createLogEntry_id_and_nulls_witness :
  let insertEntry :=
    {| InsertLogEntry.id := Some (str "chosen-by-caller");
       InsertLogEntry.lineNumber := 1;
       InsertLogEntry.timestamp := TDate NewDateNow;
       InsertLogEntry.level := str "INFO";
       InsertLogEntry.logger := Some [];
       InsertLogEntry.message := str "hello";
       InsertLogEntry.stackTrace := None;
       InsertLogEntry.fileName := str "file-1" |} in
  reachable (fst (createLogEntry (str "id-1") empty_storage insertEntry))
  /\ no_empty_strings (fst (createLogEntry (str "id-1") empty_storage insertEntry)).
Proof.
  cbn zeta. split; [apply reach_createLogEntry, reach_new|].
  apply (proj2 createLogEntry_id_and_nulls).
  apply reach_createLogEntry, reach_new.
Defined.

(** ** broadcast *)
Section Broadcast.

Lemma send_each_quiet fileId msg cs :
  no_throwing_subscriber fileId cs = true ->
  send_each fileId msg cs = (map (deliver_to fileId msg) cs, Ok tt).
Proof.
  induction cs as [|c cs IH]; cbn [send_each no_throwing_subscriber forallb map];
    [reflexivity|].
  intros H. apply andb_true_iff in H as [Hc Hcs].
  fold (no_throwing_subscriber fileId cs) in Hcs. rewrite (IH Hcs).
  change (deliver_to fileId msg c)
    with (if bool_decide (subscribedFile c = Some (JString fileId))
          then deliver msg c else c).
  destruct (bool_decide (subscribedFile c = Some (JString fileId))); [|reflexivity].
  destruct (sendThrows c); [discriminate|reflexivity].
Qed.

Lemma deliver_to_quiet fileId msg cs :
  no_throwing_subscriber fileId (map (deliver_to fileId msg) cs)
  = no_throwing_subscriber fileId cs.
Proof.
  induction cs as [|c cs IH]; [reflexivity|].
  cbn [no_throwing_subscriber forallb map].
  fold (no_throwing_subscriber fileId (map (deliver_to fileId msg) cs)).
  fold (no_throwing_subscriber fileId cs). rewrite IH. f_equal.
  unfold deliver_to.
  destruct (bool_decide (subscribedFile c = Some (JString fileId))) eqn:E;
    cbn; rewrite E; reflexivity.
Qed.

(** The iteration stops at the first subscribed connection whose [send]
    throws: the connections before it are served, the ones after it are
    left as they were, and the exception leaves [forEach]. *)
Lemma send_each_stops fileId msg pre bad post :
  no_throwing_subscriber fileId pre = true ->
  subscribedFile bad = Some (JString fileId) ->
  sendThrows bad = true ->
  send_each fileId msg (pre ++ bad :: post)
  = (map (deliver_to fileId msg) pre ++ bad :: post,
     Throw (str "WebSocket is not open")).
Proof.
  intros Hpre Hsub Hthrow.
  induction pre as [|c pre IH]; cbn [send_each app map].
  - rewrite Hsub, bool_decide_eq_true_2, Hthrow by reflexivity. reflexivity.
  - cbn [no_throwing_subscriber forallb] in Hpre.
    apply andb_true_iff in Hpre as [Hc Hpre]. rewrite (IH Hpre).
    change (deliver_to fileId msg c)
      with (if bool_decide (subscribedFile c = Some (JString fileId))
            then deliver msg c else c).
    destruct (bool_decide (subscribedFile c = Some (JString fileId))); [|reflexivity].
    destruct (sendThrows c); [discriminate|reflexivity].
Qed.



End Broadcast.



(** ** The upload loop of routes.ts *)
Section UploadLoop.

Variable randomUUID : nat -> jsstring.

Lemma non_blank_true line : non_blank line = true <-> trim line <> [].
Proof. unfold non_blank. destruct (trim line); split; congruence. Qed.

(** A blank line is skipped: no call of the parser, no change of the
    counters or of the server. *)
Lemma process_lines_skip_blank fileId line rest ln ec :
  trim line = [] ->
  Routes.process_lines randomUUID fileId (line :: rest) ln ec
  = Routes.process_lines randomUUID fileId rest ln ec.
Proof. intros Ht. cbn [Routes.process_lines]. rewrite Ht. reflexivity. Qed.

(** One non-blank line, when no subscriber of the file has a throwing
    [send]: the parser returns, its entry is stored and broadcast, and the
    [catch] block does not run. *)
Lemma process_line_quiet fileId line ln ec sv :
  trim line <> [] ->
  no_throwing_subscriber fileId (clients sv) = true ->
  exists parsed,
    parseLogLine line ln = Ok parsed
    /\ Routes.process_line randomUUID fileId line ln ec sv
       = (let entry := new_entry (randomUUID (uuids sv)) (spread_parsed parsed fileId) in
          {| storage := fst (createLogEntry (randomUUID (uuids sv)) (storage sv)
                               (spread_parsed parsed fileId));
             clients := map (deliver_to fileId (MsgLogEntry entry)) (clients sv);
             uuids := S (uuids sv) |},
          Ok ec).
Proof.
  intros Hne Hq. destruct (parseLogLine_ok line ln Hne) as [parsed Hp].
  exists parsed. split; [exact Hp|].
  unfold Routes.process_line, try_catch, bindM, lift, storage_createLogEntry.
  rewrite Hp. cbn [createLogEntry fst snd].
  unfold broadcast. cbn [clients storage uuids].
  rewrite (send_each_quiet _ _ _ Hq). reflexivity.
Qed.

Lemma process_lines_quiet fileId lines : forall ln ec sv,
  no_throwing_subscriber fileId (clients sv) = true ->
  exists sv',
    Routes.process_lines randomUUID fileId lines ln ec sv
    = (sv', Ok ((ln + length (List.filter non_blank lines))%nat, ec))
    /\ logFiles (storage sv') = logFiles (storage sv)
    /\ entries_of (storage sv') fileId
       = entries_of (storage sv) fileId
         ++ stored_records randomUUID fileId lines ln (uuids sv)
    /\ (forall other, other <> fileId ->
          logEntries (storage sv') !! other = logEntries (storage sv) !! other)
    /\ no_throwing_subscriber fileId (clients sv') = true.
Proof.
  induction lines as [|line rest IH]; intros ln ec sv Hq.
  - exists sv. cbn. rewrite Nat.add_0_r, app_nil_r. auto.
  - cbn [Routes.process_lines stored_records].
    cbn [List.filter].
    destruct (trim line) as [|c t] eqn:Et.
    + replace (non_blank line) with false by (unfold non_blank; by rewrite Et).
      apply IH, Hq.
    + replace (non_blank line) with true by (unfold non_blank; by rewrite Et).
      destruct (process_line_quiet fileId line ln ec sv) as [parsed [Hp Hstep]];
        [congruence|exact Hq|].
      unfold bindM at 1. rewrite Hstep, Hp. cbn zeta.
      match goal with |- context [Routes.process_lines _ _ _ _ _ ?s] =>
        destruct (IH (S ln) ec s) as [sv' (Hrun & Hfiles & Hes & Hother & Hq')] end.
      { cbn [clients]. rewrite deliver_to_quiet. exact Hq. }
      exists sv'. rewrite Hrun. cbn [length].
      split; [do 3 f_equal; lia|]. split; [rewrite Hfiles; reflexivity|].
      split.
      { rewrite Hes. cbn [storage uuids].
        change fileId with (InsertLogEntry.fileName (spread_parsed parsed fileId)) at 2 4.
        rewrite entries_of_createLogEntry. cbn [spread_parsed InsertLogEntry.fileName].
        rewrite <- app_assoc. reflexivity. }
      split; [|exact Hq'].
      intros other Hne. rewrite (Hother other Hne). cbn.
      apply lookup_insert_ne. congruence.
Qed.

End UploadLoop.

(** ** The upload handler of routes.ts *)
Section UploadHandler.

Variable randomUUID : nat -> jsstring.


(** The handler when the text was read and no subscriber of the new file
    has a throwing [send]: the loop runs over every line, the file is
    marked [active], and only then is the uploaded file unlinked. *)
Lemma upload_run file sv text :
  decoded file = Ok text ->
  no_throwing_subscriber (randomUUID (uuids sv)) (clients sv) = true ->
  let fileId := randomUUID (uuids sv) in
  exists sv',
    upload randomUUID (Some file) sv
    = (sv',
       if unlinkThrows file then Status500 (str "Failed to process file")
       else Uploaded fileId (originalname file)
              (length (List.filter non_blank (split_lines text))) 0)
    /\ status_of sv' fileId = Some (str "active")
    /\ entries_of (storage sv') fileId
       = entries_of (storage sv) fileId
         ++ stored_records randomUUID fileId (split_lines text) 1 (S (uuids sv)).
Proof.
  intros Hd Hq fileId.
  set (created := {| LogFile.id := fileId;
                     LogFile.fileName := originalname file;
                     LogFile.fileSize := size file;
                     LogFile.status := str "processing";
                     LogFile.uploadedAt := NewDateNow |}).
  set (sv0 := {| storage := {| logEntries := logEntries (storage sv);
                               logFiles := <[fileId := created]> (logFiles (storage sv)) |};
                 clients := clients sv; uuids := S (uuids sv) |}).
  destruct (process_lines_quiet randomUUID fileId (split_lines text) 1 0 sv0)
    as [sv1 (Hrun & Hfiles & Hes & _ & _)]; [exact Hq|].
  assert (Hfile : logFiles (storage sv1) !! fileId = Some created).
  { rewrite Hfiles. cbn. apply lookup_insert_eq. }
  assert (Hcreate : storage_createLogFile randomUUID
            {| InsertLogFile.fileName := originalname file;
               InsertLogFile.fileSize := size file;
               InsertLogFile.status := Some (str "processing") |} sv
          = (sv0, Ok created)) by reflexivity.
  unfold upload, Routes.upload_body.
  unfold bindM at 1. rewrite Hcreate.
  unfold bindM at 1, lift at 1. rewrite Hd.
  unfold bindM at 1. change (LogFile.id created) with fileId. rewrite Hrun.
  unfold bindM at 1, storage_updateLogFileStatus at 1, updateLogFileStatus.
  rewrite Hfile.
  unfold bindM, unlinkSync, ret, throw.
  eexists. split.
  { destruct (unlinkThrows file); [reflexivity|]. cbn [fst snd]. do 2 f_equal. lia. }
  split.
  - unfold status_of, getLogFile.
    destruct (unlinkThrows file); cbn; rewrite lookup_insert_eq; reflexivity.
  - destruct (unlinkThrows file); exact Hes.
Qed.

End UploadHandler.


(** ** The upload loop of index.ts *)
Section IndexLoop.

Variable randomUUID : nat -> jsstring.
Variable date_iso : jsstring -> result jsstring.
Variable now_iso : jsstring.
Variable updateLogEntry : LogEntry.t -> M unit.

Lemma index_process_lines_skip_blank fileId line rest loc sv :
  trim line = [] ->
  Index.process_lines randomUUID date_iso now_iso updateLogEntry fileId
    (line :: rest) loc sv
  = Index.process_lines randomUUID date_iso now_iso updateLogEntry fileId
      rest loc sv.
Proof. intros Ht. cbn [Index.process_lines]. rewrite Ht. reflexivity. Qed.

Lemma send_each_storage fileId logEntry sv :
  storage (fst (broadcast fileId logEntry sv)) = storage sv
  /\ uuids (fst (broadcast fileId logEntry sv)) = uuids sv.
Proof.
  unfold broadcast.
  destruct (send_each fileId (MsgLogEntry logEntry) (clients sv)). split; reflexivity.
Qed.

(** The parser never reports a stack trace, so the merging branch of the
    loop is never entered: a turn of the loop either stores one new record
    or stores nothing. *)
Lemma index_process_line_store fileId line loc sv :
  let r := Index.process_line randomUUID date_iso now_iso updateLogEntry
             fileId line loc sv in
  Index.lineNumber (snd r) = S (Index.lineNumber loc)
  /\ match parseLogLine line (Index.lineNumber loc) with
     | Ok parsed =>
         match Index.toISOString date_iso now_iso (LogParser.timestamp parsed) with
         | Ok iso =>
             storage (fst r)
             = fst (createLogEntry (randomUUID (uuids sv)) (storage sv)
                      (Index.spread_parsed_iso parsed fileId iso))
             /\ uuids (fst r) = S (uuids sv)
         | Throw _ => storage (fst r) = storage sv /\ uuids (fst r) = uuids sv
         end
     | Throw _ => storage (fst r) = storage sv /\ uuids (fst r) = uuids sv
     end.
Proof.
  cbn zeta. unfold Index.process_line.
  destruct (parseLogLine line (Index.lineNumber loc)) as [parsed|msg] eqn:Hp;
    [|split; [reflexivity|split; reflexivity]].
  rewrite (parseLogLine_no_stackTrace _ _ _ Hp). cbn [or_null].
  unfold bindM, lift, storage_createLogEntry.
  destruct (Index.toISOString date_iso now_iso (LogParser.timestamp parsed))
    as [iso|msg]; [|split; [reflexivity|split; reflexivity]].
  cbn [createLogEntry fst snd].
  match goal with |- context [broadcast fileId ?e ?s] =>
    destruct (send_each_storage fileId e s) as [Hst Hu];
    destruct (broadcast fileId e s) as [sv2 [[]|msg]] end;
    cbn [fst snd] in *; rewrite Hst, Hu; (split; [reflexivity|split; reflexivity]).
Qed.

Lemma index_process_lines_entries fileId lines : forall loc sv,
  let r := Index.process_lines randomUUID date_iso now_iso updateLogEntry
             fileId lines loc sv in
  logFiles (storage (fst r)) = logFiles (storage sv)
  /\ entries_of (storage (fst r)) fileId
     = entries_of (storage sv) fileId
       ++ index_records randomUUID date_iso now_iso fileId lines
            (Index.lineNumber loc) (uuids sv).
Proof.
  induction lines as [|line rest IH]; intros loc sv; cbn zeta.
  - cbn. rewrite app_nil_r. split; reflexivity.
  - cbn [Index.process_lines index_records].
    destruct (trim line) as [|c t] eqn:Et.
    + replace (non_blank line) with false by (unfold non_blank; by rewrite Et).
      apply IH.
    + replace (non_blank line) with true by (unfold non_blank; by rewrite Et).
      pose proof (index_process_line_store fileId line loc sv) as Hstep.
      cbn zeta in Hstep.
      destruct (Index.process_line randomUUID date_iso now_iso updateLogEntry
                  fileId line loc sv) as [sv1 loc1].
      cbn [fst snd] in Hstep. destruct Hstep as [Hln Hstore].
      specialize (IH loc1 sv1). cbn zeta in IH. destruct IH as [IHf IHe].
      rewrite IHf, IHe, Hln.
      destruct (parseLogLine line (Index.lineNumber loc)) as [parsed|msg];
        [destruct (Index.toISOString date_iso now_iso (LogParser.timestamp parsed))
           as [iso|msg]|];
        destruct Hstore as [Hst Hu]; rewrite Hst, Hu; try (split; reflexivity).
      split; [reflexivity|].
      change fileId
        with (InsertLogEntry.fileName (Index.spread_parsed_iso parsed fileId iso))
        at 1 3.
      rewrite entries_of_createLogEntry.
      cbn [Index.spread_parsed_iso InsertLogEntry.fileName].
      rewrite <- app_assoc. reflexivity.
Qed.

Lemma index_upload_entries file sv text :
  decoded file = Ok text ->
  let fileId := randomUUID (uuids sv) in
  entries_of
    (storage (fst (Index.upload randomUUID date_iso now_iso updateLogEntry
                     (Some file) sv))) fileId
  = entries_of (storage sv) fileId
    ++ index_records randomUUID date_iso now_iso fileId (split_lines text) 1
         (S (uuids sv)).
Proof.
  intros Hd fileId.
  set (created := {| LogFile.id := fileId;
                     LogFile.fileName := originalname file;
                     LogFile.fileSize := size file;
                     LogFile.status := str "processing";
                     LogFile.uploadedAt := NewDateNow |}).
  set (sv0 := {| storage := {| logEntries := logEntries (storage sv);
                               logFiles := <[fileId := created]> (logFiles (storage sv)) |};
                 clients := clients sv; uuids := S (uuids sv) |}).
  assert (Hcreate : storage_createLogFile randomUUID
            {| InsertLogFile.fileName := originalname file;
               InsertLogFile.fileSize := size file;
               InsertLogFile.status := Some (str "processing") |} sv
          = (sv0, Ok created)) by reflexivity.
  destruct (index_process_lines_entries fileId (split_lines text)
              Index.initial_locals sv0) as [_ Hes].
  unfold Index.upload, Index.upload_body.
  unfold bindM at 1. rewrite Hcreate.
  unfold bindM at 1, lift at 1. rewrite Hd.
  unfold bindM at 1. change (LogFile.id created) with fileId.
  destruct (Index.process_lines randomUUID date_iso now_iso updateLogEntry
              fileId (split_lines text) Index.initial_locals sv0) as [sv1 loc1].
  cbn [fst] in Hes.
  unfold bindM, storage_updateLogFileStatus, updateLogFileStatus, unlinkSync,
    ret, throw.
  assert (Hgoal : forall st,
            (st = storage sv1 \/
             exists f, st = {| logEntries := logEntries (storage sv1);
                               logFiles := f |}) ->
            entries_of st fileId
            = entries_of (storage sv) fileId
              ++ index_records randomUUID date_iso now_iso fileId
                   (split_lines text) 1 (S (uuids sv))).
  { intros st [->|[f ->]]; exact Hes. }
  destruct (logFiles (storage sv1) !! fileId); destruct (unlinkThrows file);
    cbn [fst storage]; apply Hgoal; eauto.
Qed.

End IndexLoop.

(** ** Stack frames in an upload *)
Section Frames.

Variable randomUUID : nat -> jsstring.
Variable date_iso : jsstring -> result jsstring.
Variable now_iso : jsstring.

(** routes.ts stores one record for every non-blank line, *)
Lemma stored_records_length fileId lines : forall ln u,
  length (stored_records randomUUID fileId lines ln u)
  = length (List.filter non_blank lines).
Proof.
  induction lines as [|line rest IH]; intros ln u; [reflexivity|].
  cbn [stored_records List.filter]. destruct (non_blank line); [|apply IH].
  destruct (parseLogLine line ln); cbn [length]; f_equal; apply IH.
Qed.

(** and none of them has a stack trace. *)
Lemma stored_records_no_stackTrace fileId lines : forall ln u e,
  e ∈ stored_records randomUUID fileId lines ln u ->
  LogEntry.stackTrace e = None.
Proof.
  induction lines as [|line rest IH]; intros ln u e He.
  - by apply elem_of_nil in He.
  - cbn [stored_records] in He. destruct (non_blank line); [|exact (IH _ _ _ He)].
    destruct (parseLogLine line ln) as [parsed|msg] eqn:Hp;
      apply elem_of_cons in He as [->|He]; try exact (IH _ _ _ He).
    + cbn. by rewrite (parseLogLine_no_stackTrace _ _ _ Hp).
    + reflexivity.
Qed.

(** Neither has any record index.ts stores. *)
Lemma index_records_no_stackTrace fileId lines : forall ln u e,
  e ∈ index_records randomUUID date_iso now_iso fileId lines ln u ->
  LogEntry.stackTrace e = None.
Proof.
  induction lines as [|line rest IH]; intros ln u e He.
  - by apply elem_of_nil in He.
  - cbn [index_records] in He. destruct (non_blank line); [|exact (IH _ _ _ He)].
    destruct (parseLogLine line ln) as [parsed|msg] eqn:Hp; [|exact (IH _ _ _ He)].
    destruct (Index.toISOString date_iso now_iso (LogParser.timestamp parsed));
      [|exact (IH _ _ _ He)].
    apply elem_of_cons in He as [->|He]; [|exact (IH _ _ _ He)].
    cbn. by rewrite (parseLogLine_no_stackTrace _ _ _ Hp).
Qed.

End Frames.



(** C5. An uploaded line the ISO pattern accepts whose date no calendar
    has: the parser builds an Invalid Date from it and routes.ts stores the
    record.  The read of storage.ts returns the record, as the page it
    is on.  The read of the compiled store renders every record of the
    page: [toISOString] throws a [RangeError] on this one, and the read of
    every page that holds it throws instead of returning the page. *)
Theorem getLogEntries_js_throws_on_invalid_date
    (randomUUID : nat -> jsstring) (toUpperCase : jsstring -> jsstring)
    (toISOString : Timestamp -> result jsstring) (msg : jsstring) :
  toISOString (NewDate (str "2024-13-45 10:00:00.000")) = Throw msg ->
  let fileId := randomUUID 0%nat in
  let st := storage (fst (upload randomUUID (Some (upload_of invalid_date_text))
                            fresh_server)) in
  let stored :=
    {| LogEntry.id := randomUUID 1%nat; LogEntry.lineNumber := 1;
       LogEntry.timestamp := TDate (NewDate (str "2024-13-45 10:00:00.000"));
       LogEntry.level := str "ERROR"; LogEntry.logger := Some (str "main");
       LogEntry.message := str "boom"; LogEntry.stackTrace := None;
       LogEntry.fileName := fileId; LogEntry.createdAt := NewDateNow |} in
  entries_of st fileId = [stored]
  /\ getLogEntries st fileId 1 0 = [stored]
  /\ getLogEntries st fileId 1000 0 = [stored]
  /\ getLogEntries_js toUpperCase toISOString st fileId 1 0 = Throw msg
  /\ getLogEntries_js toUpperCase toISOString st fileId 1000 0 = Throw msg.
Proof.
  intros Hiso. cbn zeta.
  destruct (upload_run randomUUID (upload_of invalid_date_text) fresh_server
              invalid_date_text eq_refl eq_refl) as [sv' (Hup & _ & Hes)].
  rewrite Hup. cbn [fst]. cbn [fresh_server uuids] in Hes.
  unfold entries_of at 2 in Hes.
  cbn [storage fresh_server logEntries empty_storage] in Hes.
  rewrite lookup_empty in Hes.
  assert (Hstored : entries_of (storage sv') (randomUUID 0%nat)
            = [ {| LogEntry.id := randomUUID 1%nat; LogEntry.lineNumber := 1;
                   LogEntry.timestamp :=
                     TDate (NewDate (str "2024-13-45 10:00:00.000"));
                   LogEntry.level := str "ERROR";
                   LogEntry.logger := Some (str "main");
                   LogEntry.message := str "boom"; LogEntry.stackTrace := None;
                   LogEntry.fileName := randomUUID 0%nat;
                   LogEntry.createdAt := NewDateNow |} ]).
  { rewrite Hes. vm_compute. reflexivity. }
  split; [exact Hstored|].
  unfold getLogEntries_js, getLogEntries. rewrite Hstored.
  change (array_slice [?e] 0 (0 + 1)) with [e].
  change (array_slice [?e] 0 (0 + 1000)) with [e].
  split; [reflexivity|]. split; [reflexivity|].
  cbn [array_map render_entry LogEntry.timestamp]. rewrite Hiso.
  split; reflexivity.
Qed.

Lemma getLogEntries_js_throws_on_invalid_date_witness :
  getLogEntries_js toUpperCase (fun _ => Throw (str "Invalid time value"))
    (storage (fst (upload sample_uuid (Some (upload_of invalid_date_text))
                     fresh_server)))
    (sample_uuid 0) 1000 0
  = Throw (str "Invalid time value").
Proof.
  exact (proj2 (proj2 (proj2 (proj2
           (getLogEntries_js_throws_on_invalid_date sample_uuid toUpperCase
              (fun _ => Throw (str "Invalid time value"))
              (str "Invalid time value") eq_refl))))).
Defined.

(** C1. The continuation example of the specification, uploaded to a
    server that has just started: routes.ts and index.ts both store three
    records, one per line, each at level INFO with the trimmed line as its
    message and no stack trace.  The lines are trimmed before the stack
    trace pattern, which asks for leading white space, is tried, so the
    merging branch of index.ts is never entered. *)
Theorem upload_stack_frames_become_records
    (randomUUID : nat -> jsstring) (date_iso : jsstring -> result jsstring)
    (now_iso : jsstring) (updateLogEntry : LogEntry.t -> M unit) :
  let fileId := randomUUID 0%nat in
  let record (n : nat) (ts : TimeValue) (text : jsstring) :=
    {| LogEntry.id := randomUUID n; LogEntry.lineNumber := n;
       LogEntry.timestamp := ts; LogEntry.level := str "INFO";
       LogEntry.logger := None; LogEntry.message := text;
       LogEntry.stackTrace := None; LogEntry.fileName := fileId;
       LogEntry.createdAt := NewDateNow |} in
  entries_of
    (storage (fst (upload randomUUID (Some (upload_of stack_trace_text))
                     fresh_server))) fileId
  = [ record 1%nat (TDate NewDateNow) (str "2024-01-01 10:00:00.000 ERROR [svc] boom");
      record 2%nat (TDate NewDateNow) (str "at foo.bar(Baz.java:10)");
      record 3%nat (TDate NewDateNow) (str "at qux.quux(Quux.java:20)") ]
  /\ entries_of
       (storage (fst (Index.upload randomUUID date_iso now_iso updateLogEntry
                        (Some (upload_of stack_trace_text)) fresh_server))) fileId
  = [ record 1%nat (TString now_iso) (str "2024-01-01 10:00:00.000 ERROR [svc] boom");
      record 2%nat (TString now_iso) (str "at foo.bar(Baz.java:10)");
      record 3%nat (TString now_iso) (str "at qux.quux(Quux.java:20)") ].
Proof.
  cbn zeta. split.
  - destruct (upload_run randomUUID (upload_of stack_trace_text) fresh_server
                stack_trace_text eq_refl eq_refl) as [sv' (Hup & _ & Hes)].
    rewrite Hup. cbn [fst]. cbn [fresh_server uuids] in Hes. rewrite Hes.
    unfold entries_of at 1. cbn [storage fresh_server logEntries empty_storage].
    rewrite lookup_empty. vm_compute. reflexivity.
  - pose proof (index_upload_entries randomUUID date_iso now_iso updateLogEntry
                  (upload_of stack_trace_text) fresh_server stack_trace_text eq_refl)
      as Hes.
    cbn zeta in Hes. cbn [fresh_server uuids] in Hes. rewrite Hes.
    unfold entries_of at 1. cbn [storage fresh_server logEntries empty_storage].
    rewrite lookup_empty. vm_compute. reflexivity.
Qed.

(** The same frames after a line the ISO pattern accepts: the ERROR record
    is stored without a stack trace and each frame becomes an INFO record
    of its own. *)
Lemma upload_stack_frames_after_structural (randomUUID : nat -> jsstring) :
  let fileId := randomUUID 0%nat in
  entries_of
    (storage (fst (upload randomUUID (Some (upload_of stack_trace_text_main))
                     fresh_server))) fileId
  = [ {| LogEntry.id := randomUUID 1%nat; LogEntry.lineNumber := 1;
         LogEntry.timestamp := TDate (NewDate (str "2024-01-01 10:00:00.000"));
         LogEntry.level := str "ERROR"; LogEntry.logger := Some (str "main");
         LogEntry.message := str "boom"; LogEntry.stackTrace := None;
         LogEntry.fileName := fileId; LogEntry.createdAt := NewDateNow |};
      {| LogEntry.id := randomUUID 2%nat; LogEntry.lineNumber := 2;
         LogEntry.timestamp := TDate NewDateNow;
         LogEntry.level := str "INFO"; LogEntry.logger := None;
         LogEntry.message := str "at foo.bar(Baz.java:10)";
         LogEntry.stackTrace := None;
         LogEntry.fileName := fileId; LogEntry.createdAt := NewDateNow |};
      {| LogEntry.id := randomUUID 3%nat; LogEntry.lineNumber := 3;
         LogEntry.timestamp := TDate NewDateNow;
         LogEntry.level := str "INFO"; LogEntry.logger := None;
         LogEntry.message := str "at qux.quux(Quux.java:20)";
         LogEntry.stackTrace := None;
         LogEntry.fileName := fileId; LogEntry.createdAt := NewDateNow |} ].
Proof.
  cbn zeta.
  destruct (upload_run randomUUID (upload_of stack_trace_text_main) fresh_server
              stack_trace_text_main eq_refl eq_refl) as [sv' (Hup & _ & Hes)].
  rewrite Hup. cbn [fst]. cbn [fresh_server uuids] in Hes. rewrite Hes.
  unfold entries_of at 1. cbn [storage fresh_server logEntries empty_storage].
  rewrite lookup_empty. vm_compute. reflexivity.
Qed.

(** C9. [parseLogLine] throws ['Empty line'] exactly when its argument
    trims to the empty string, and it throws nothing else; the loops of
    routes.ts and index.ts test [line.trim()] first and pass over such a
    line without calling the parser or touching a counter. *)
Theorem parseLogLine_throws_on_blank_only (line : jsstring) (n : nat) :
  (parseLogLine line n = Throw (str "Empty line") <-> trim line = [])
  /\ (forall msg, parseLogLine line n = Throw msg -> trim line = [])
  /\ (trim line = [] ->
      forall randomUUID fileId rest ln ec,
        Routes.process_lines randomUUID fileId (line :: rest) ln ec
        = Routes.process_lines randomUUID fileId rest ln ec)
  /\ (trim line = [] ->
      forall randomUUID date_iso now_iso updateLogEntry fileId rest loc sv,
        Index.process_lines randomUUID date_iso now_iso updateLogEntry fileId
          (line :: rest) loc sv
        = Index.process_lines randomUUID date_iso now_iso updateLogEntry fileId
            rest loc sv).
Proof.
  assert (Hthrow : forall msg, parseLogLine line n = Throw msg -> trim line = []).
  { intros msg Hp. destruct (trim line) as [|c t] eqn:Et; [reflexivity|].
    destruct (parseLogLine_ok line n) as [e He]; [congruence|]. congruence. }
  split; [split; [apply Hthrow|apply parseLogLine_empty]|].
  split; [exact Hthrow|].
  split; intros Ht; intros.
  - by apply process_lines_skip_blank.
  - by apply index_process_lines_skip_blank.
Qed.

Lemma parseLogLine_throws_on_blank_only_witness :
  trim (str "   ") = []
  /\ forall randomUUID fileId rest ln ec,
       Routes.process_lines randomUUID fileId (str "   " :: rest) ln ec
       = Routes.process_lines randomUUID fileId rest ln ec.
Proof.
  split; [reflexivity|].
  apply (proj1 (proj2 (proj2 (parseLogLine_throws_on_blank_only (str "   ") 1)))).
  reflexivity.
Defined.

(** * Further properties *)

(** ** The parser on every line *)
Section ParserFacts.

Lemma trimStart_idem s : trimStart (trimStart s) = trimStart s.
Proof.
  induction s as [|x s IH]; [reflexivity|]. cbn [trimStart].
  destruct (is_space x) eqn:Hx; [exact IH|]. cbn [trimStart]. by rewrite Hx.
Qed.

Lemma trimStart_no_space c t : is_space c = false -> trimStart (c :: t) = c :: t.
Proof. intros H. cbn. by rewrite H. Qed.

Lemma trim_idem s : trim (trim s) = trim s.
Proof.
  destruct (trim s) as [|c t] eqn:Et; [reflexivity|].
  rewrite <- Et. unfold trim at 1.
  rewrite Et, (trimStart_no_space c t (trim_head _ _ _ Et)), <- Et.
  unfold trim, trimEnd. rewrite rev_involutive, trimStart_idem. reflexivity.
Qed.

(** A pattern that is a plain sequence of classes consumes one code unit
    per class and leaves the captures alone. *)
Lemma rmatch_chars (res : captures) : forall r ps,
  chars_of r = Some ps ->
  forall s c k,
    rmatch r s c k = Some res ->
    exists pre s', s = pre ++ s' /\ accepts ps pre /\ k s' c = Some res.
Proof.
  induction r as [p| |r1 IH1 r2 IH2|r1 _ r2 _|r1 _|i r1 _];
    intros ps Hps s c k; cbn in Hps; try discriminate; cbn [rmatch].
  - injection Hps as <-. destruct s as [|x s]; [discriminate|].
    destruct (p x) eqn:Hp; [|discriminate]. intros Hk.
    exists [x], s. split; [reflexivity|]. split; [|exact Hk].
    repeat constructor. exact Hp.
  - injection Hps as <-. intros Hk. exists [], s. repeat split; [constructor|exact Hk].
  - destruct (chars_of r1) as [ps1|]; [|discriminate].
    destruct (chars_of r2) as [ps2|]; [|discriminate]. injection Hps as <-.
    intros H. destruct (IH1 _ eq_refl _ _ _ H) as (pre1 & s1 & -> & Ha1 & H1).
    destruct (IH2 _ eq_refl _ _ _ H1) as (pre2 & s2 & -> & Ha2 & H2).
    exists (pre1 ++ pre2), s2. split; [by rewrite app_assoc|].
    split; [by apply Forall2_app|exact H2].
Qed.

(** What the first parentheses of a pattern [/^(stamp) rest $/] hold after a
    match, when [stamp] is a plain sequence of classes and [rest] has no
    parentheses numbered 1. *)
Lemma js_match_stamp line stamp rest n ps m :
  chars_of stamp = Some ps ->
  0%nat ∉ groups_in rest ->
  1%nat ∉ groups_in rest ->
  (1 <= n)%nat ->
  js_match line {| body := RSeq (RGroup 1 stamp) rest; ngroups := n |} = Some m ->
  exists pre s', line = pre ++ s' /\ accepts ps pre /\ m !! 1%nat = Some (Some pre).
Proof.
  intros Hps Hzero Hrest Hn. unfold js_match. cbn [body ngroups rmatch].
  match goal with |- context [rmatch stamp line ?c0 ?k0] =>
    destruct (rmatch stamp line c0 k0) as [c|] eqn:E end; [|discriminate].
  intros [= <-].
  destruct (rmatch_chars c stamp ps Hps _ _ _ E) as (pre & s' & -> & Ha & Hk).
  exists pre, s'. split; [reflexivity|]. split; [exact Ha|].
  change ((Some (pre ++ s') :: c) !! 1%nat) with (c !! 0%nat).
  replace (take (length (pre ++ s') - length s') (pre ++ s')) with pre in Hk
    by (rewrite length_app, Nat.add_sub; symmetry; apply take_app_length).
  revert Hk.
  apply (rmatch_inv_groups (fun c => c !! 0%nat = Some (Some pre)) c).
  - intros j v c' Hj Hc'. unfold set_capture.
    rewrite list_lookup_insert_ne; [exact Hc'|].
    destruct j as [|[|j]]; cbn; try lia.
    + intros _. contradict Hzero. exact Hj.
    + intros _. contradict Hrest. exact Hj.
  - unfold set_capture. apply list_lookup_insert_eq.
    rewrite length_replicate. lia.
  - intros s'' c'' Hc''. unfold at_end. destruct s''; [|discriminate]. congruence.
Qed.

End ParserFacts.

Section ParserPadding.

Lemma trimStart_spaces w :
  Forall (fun c => is_space c = true) w -> trimStart w = [].
Proof. induction 1 as [|c w Hc _ IH]; [reflexivity|]. cbn. by rewrite Hc. Qed.

Lemma trimStart_app_spaces w s :
  Forall (fun c => is_space c = true) w -> trimStart (w ++ s) = trimStart s.
Proof. induction 1 as [|c w Hc _ IH]; [reflexivity|]. cbn. by rewrite Hc. Qed.

Lemma trimStart_app s w :
  trimStart s <> [] -> trimStart (s ++ w) = trimStart s ++ w.
Proof.
  induction s as [|x s IH]; cbn; [congruence|].
  destruct (is_space x); [exact IH|reflexivity].
Qed.

Lemma trimEnd_app_spaces s w :
  Forall (fun c => is_space c = true) w -> trimEnd (s ++ w) = trimEnd s.
Proof.
  intros Hw. unfold trimEnd. rewrite rev_app_distr, trimStart_app_spaces; [reflexivity|].
  by apply Forall_rev.
Qed.

Lemma trim_pad w1 w2 line :
  Forall (fun c => is_space c = true) w1 ->
  Forall (fun c => is_space c = true) w2 ->
  trim (w1 ++ line ++ w2) = trim line.
Proof.
  intros H1 H2. unfold trim. rewrite (trimStart_app_spaces _ _ H1).
  destruct (trimStart line) as [|c t] eqn:Et.
  - assert (Hall : trimStart (line ++ w2) = []).
    { clear H1. induction line as [|x line IH]; cbn in *; [by apply trimStart_spaces|].
      destruct (is_space x); [by apply IH|discriminate]. }
    by rewrite Hall.
  - rewrite trimStart_app by congruence. rewrite Et.
    by apply trimEnd_app_spaces.
Qed.

End ParserPadding.

(** X1. White space around a line is invisible to the parser: padding a
    line on either side with units of the class [\s], indentation
    included, leaves the outcome and the entry as they are. *)
Theorem parseLogLine_ignores_padding (w1 w2 line : jsstring) (n : nat) :
  Forall (fun c => is_space c = true) w1 ->
  Forall (fun c => is_space c = true) w2 ->
  parseLogLine_tagged (w1 ++ line ++ w2) n = parseLogLine_tagged line n
  /\ parseLogLine (w1 ++ line ++ w2) n = parseLogLine line n.
Proof.
  intros H1 H2. unfold parseLogLine, parseLogLine_tagged.
  rewrite (trim_pad _ _ _ H1 H2). split; reflexivity.
Qed.

Lemma parseLogLine_ignores_padding_witness :
  parseLogLine (str "    " ++ str "some random text" ++ [13]) 4
  = parseLogLine (str "some random text") 4.
Proof.
  apply (parseLogLine_ignores_padding (str "    ") [13] (str "some random text") 4);
    repeat constructor.
Defined.

Section ParserEntries.

Lemma rmatch_seq_eq r1 r2 s c k :
  rmatch (RSeq r1 r2) s c k = rmatch r1 s c (fun s' c' => rmatch r2 s' c' k).
Proof. reflexivity. Qed.

Lemma rmatch_group_eq i r s c k :
  rmatch (RGroup i r) s c k
  = rmatch r s c (fun s' c' =>
      k s' (set_capture i (take (length s - length s') s) c')).
Proof. reflexivity. Qed.

Lemma rmatch_char_step p r s c k (res : captures) :
  rmatch (RSeq (RChar p) r) s c k = Some res ->
  exists x s0, s = x :: s0 /\ p x = true /\ rmatch r s0 c k = Some res.
Proof.
  rewrite rmatch_seq_eq. cbn [rmatch]. destruct s as [|x s0]; [discriminate|].
  destruct (p x) eqn:Hp; [|discriminate]. eauto.
Qed.

(** In a pattern [/^ pre (r+) $/] the last parentheses hold a string that
    is not empty. *)
Lemma rmatch_last_group n i p (res : captures) :
  (1 <= i <= n)%nat ->
  forall pre s c,
    length c = n ->
    rmatch (seq (pre ++ [RGroup i (plus (RChar p))])) s c at_end = Some res ->
    exists v, v <> [] /\ res !! pred i = Some (Some v).
Proof.
  intros Hi. induction pre as [|r pre IH]; intros s c Hlen.
  - cbn [app seq]. rewrite rmatch_seq_eq, rmatch_group_eq. unfold plus.
    intros H. apply rmatch_char_step in H as (x & s0 & -> & _ & H). revert H.
    apply (rmatch_inv (fun c => length c = n) res); [|exact Hlen|].
    { intros; by apply set_capture_length. }
    intros s' c' Hlen'. cbn [rmatch]. unfold at_end.
    destruct s' as [|y s']; [|discriminate]. intros [= <-].
    eexists. split; [|unfold set_capture; apply list_lookup_insert_eq; lia].
    cbn. discriminate.
  - cbn [app seq]. rewrite rmatch_seq_eq.
    apply (rmatch_inv (fun c => length c = n) res); [|exact Hlen|].
    + intros; by apply set_capture_length.
    + intros s' c' Hlen'. by apply IH.
Qed.

(** What the loop over the patterns returns: the number of the line, one of
    the four level words, a message that is not empty. *)
Lemma try_patterns_entry line n e :
  try_patterns TOMCAT_PATTERNS line n = Ok (Some e) ->
  LogParser.lineNumber e = n
  /\ LogParser.level e ∈ level_words
  /\ LogParser.message e <> [].
Proof.
  unfold TOMCAT_PATTERNS. cbn [try_patterns].
  destruct (js_match line iso_main_pattern) as [m|] eqn:E0.
  { rewrite (js_match_length _ _ _ E0). cbn [ngroups iso_main_pattern Nat.eqb].
    destruct (js_match_group _ _ _ 1 E0) as [v1 H1]; [reflexivity|simpl; lia|].
    destruct (structural_level _ _ _ (or_introl eq_refl) E0) as (w & Hw & H2 & Hup).
    rewrite (group_ok _ _ _ H1), H2. cbn [LogParser.bind]. intros [= <-].
    cbn. rewrite Hup. split; [reflexivity|]. split; [exact Hw|].
    revert E0. unfold js_match.
    destruct (rmatch (body iso_main_pattern) line
                (replicate (ngroups iso_main_pattern) None) at_end) as [c|] eqn:E;
      [|discriminate].
    intros [= <-].
    assert (Hlast : exists v, v <> [] /\ c !! 2%nat = Some (Some v)).
    { revert E.
      apply (rmatch_last_group 3 3 _ c)
        with (pre := [RGroup 1 _; plus sp; lit "main"; plus sp;
                      RGroup 2 level_alt; plus sp]);
        [lia|reflexivity]. }
    destruct Hlast as (v & Hv & Hc).
    unfold group_raw. change ((Some line :: c) !! 3%nat) with (c !! 2%nat).
    rewrite Hc. exact Hv. }
  destruct (js_match line locale_pattern) as [m|] eqn:E1.
  { rewrite (js_match_length _ _ _ E1). cbn [ngroups locale_pattern Nat.eqb].
    destruct (js_match_group _ _ _ 1 E1) as [v1 H1]; [reflexivity|simpl; lia|].
    destruct (structural_level _ _ _ (or_intror eq_refl) E1) as (w & Hw & H2 & Hup).
    rewrite (group_ok _ _ _ H1), H2. cbn [LogParser.bind]. intros [= <-].
    cbn. rewrite Hup. split; [reflexivity|]. split; [exact Hw|].
    revert E1. unfold js_match.
    destruct (rmatch (body locale_pattern) line
                (replicate (ngroups locale_pattern) None) at_end) as [c|] eqn:E;
      [|discriminate].
    intros [= <-].
    assert (Hlast : exists v, v <> [] /\ c !! 3%nat = Some (Some v)).
    { revert E.
      apply (rmatch_last_group 4 4 _ c)
        with (pre := [RGroup 1 _; RStar sp; chr "-"; RStar sp; RGroup 2 level_alt;
                      RStar sp; chr "-"; RStar sp;
                      RGroup 3 (plus (RChar logger_char));
                      RStar sp; chr "-"; RStar sp]);
        [lia|reflexivity]. }
    destruct Hlast as (v & Hv & Hc).
    unfold group_raw. change ((Some line :: c) !! 4%nat) with (c !! 3%nat).
    rewrite Hc. exact Hv. }
  destruct (js_match line stack_trace_pattern) as [m|] eqn:E2; [|discriminate].
  rewrite (js_match_length _ _ _ E2). discriminate.
Qed.

End ParserEntries.

(** X2. Every entry [parseLogLine] returns carries the line number it was
    given, one of the four levels ERROR, WARN, INFO and DEBUG, a message
    that is not empty, and no stack trace. *)
Theorem parseLogLine_entry_invariants (line : jsstring) (n : nat) (e : ParsedLogEntry) :
  parseLogLine line n = Ok e ->
  LogParser.lineNumber e = n
  /\ LogParser.level e ∈ level_words
  /\ LogParser.message e <> []
  /\ LogParser.stackTrace e = None.
Proof.
  intros Hp. pose proof (parseLogLine_no_stackTrace _ _ _ Hp) as Hst.
  revert Hp. unfold parseLogLine.
  destruct (trim line) as [|c t] eqn:Et.
  { unfold parseLogLine_tagged. rewrite Et. discriminate. }
  destruct (parseLogLine_tagged_cases line n) as [[e' [Hp ->]]|[_ ->]];
    [congruence| |]; cbn [LogParser.bind snd]; intros [= <-].
  - destruct (try_patterns_entry _ _ _ Hp) as (Hn & Hl & Hm). auto.
  - cbn. rewrite Et. repeat split; [|discriminate].
    unfold level_words. set_solver.
Qed.

Lemma parseLogLine_entry_invariants_witness :
  exists e, parseLogLine (str "31.12.23 23:59:59:999 - INFO - app.Main - started") 9 = Ok e
            /\ LogParser.lineNumber e = 9%nat
            /\ LogParser.message e <> [].
Proof.
  eexists. split; [vm_compute; reflexivity|].
  split; eapply (parseLogLine_entry_invariants
                   (str "31.12.23 23:59:59:999 - INFO - app.Main - started") 9);
    vm_compute; reflexivity.
Defined.

Section ParserShapes.

Lemma first_not_digit_no_structural c t :
  is_digit c = false ->
  js_match (c :: t) iso_main_pattern = None
  /\ js_match (c :: t) locale_pattern = None.
Proof.
  intros Hc. unfold js_match, iso_main_pattern, locale_pattern.
  cbn [body ngroups seq times d chr rmatch]. rewrite Hc. split; reflexivity.
Qed.

Lemma third_not_digit_no_iso a b c t :
  is_digit c = false -> js_match (a :: b :: c :: t) iso_main_pattern = None.
Proof.
  intros Hc. unfold js_match, iso_main_pattern.
  cbn [body ngroups seq times d chr rmatch].
  destruct (is_digit a); [|reflexivity]. destruct (is_digit b); [|reflexivity].
  rewrite Hc. reflexivity.
Qed.

Lemma digit_not_comma x : is_digit x = true -> (x =? 44) = false.
Proof.
  intros H. destruct (N.eqb_spec x 44) as [->|]; [discriminate|reflexivity].
Qed.

Lemma space_not_comma x : is_space x = true -> (x =? 44) = false.
Proof.
  intros H. destruct (N.eqb_spec x 44) as [->|]; [discriminate|reflexivity].
Qed.

End ParserShapes.

(** X3. A line whose first code unit after trimming is not a digit matches
    no registered pattern: it is stored through the fallback, at level INFO
    with the whole trimmed line as its message. *)
Theorem parseLogLine_non_digit_falls_back (line : jsstring) (n : nat) (c : N)
    (t : jsstring) :
  trim line = c :: t ->
  is_digit c = false ->
  parseLogLine_tagged line n =
    Ok (Fallback,
        {| LogParser.lineNumber := n; timestamp := NewDateNow;
           level := str "INFO"; logger := None; message := trim line;
           stackTrace := None |}).
Proof.
  intros Et Hc.
  destruct (parseLogLine_tagged_cases line n) as [[e [Hp _]]|[_ H]];
    [congruence| |exact H].
  exfalso. revert Hp. rewrite Et.
  destruct (first_not_digit_no_structural c t Hc) as [E0 E1].
  unfold TOMCAT_PATTERNS. cbn [try_patterns]. rewrite E0, E1.
  destruct (js_match (c :: t) stack_trace_pattern) as [m|] eqn:E2; [|discriminate].
  rewrite (js_match_length _ _ _ E2). discriminate.
Qed.

Lemma parseLogLine_non_digit_falls_back_witness :
  parseLogLine_tagged (str "  ERROR [svc] boom") 3 =
    Ok (Fallback,
        {| LogParser.lineNumber := 3; timestamp := NewDateNow;
           level := str "INFO"; logger := None;
           message := trim (str "  ERROR [svc] boom");
           stackTrace := None |}).
Proof.
  apply (parseLogLine_non_digit_falls_back (str "  ERROR [svc] boom") 3
           69 (str "RROR [svc] boom")); vm_compute; reflexivity.
Defined.

(** X4. Whenever the locale pattern accepts the trimmed line, the line
    opens with [DD.MM.YY], a white space and twelve more code units, and the
    record is structural with its timestamp built from the string
    [20YY-MM-DD] followed by a blank and those twelve units: the two-digit
    year is always placed in the century 2000. *)
Theorem locale_timestamp_century (line : jsstring) (n : nat) (m : captures) :
  js_match (trim line) locale_pattern = Some m ->
  exists d1 d2 m1 m2 y1 y2 ws time rest e,
    trim line = [d1; d2; 46; m1; m2; 46; y1; y2; ws] ++ time ++ rest
    /\ length time = 12%nat
    /\ Forall (fun x => is_digit x = true) [d1; d2; m1; m2; y1; y2]
    /\ parseLogLine_tagged line n = Ok (Structural, e)
    /\ LogParser.timestamp e
       = NewDate (str "20" ++ [y1; y2] ++ str "-" ++ [m1; m2] ++ str "-"
                  ++ [d1; d2] ++ str " " ++ time).
Proof.
  intros Hm.
  assert (Hm' : js_match (trim line)
            {| body := RSeq
                 (RGroup 1 (seq [ times 2 d; chr "."; times 2 d; chr "."; times 2 d; sp;
                                  times 2 d; chr ":"; times 2 d; chr ":"; times 2 d;
                                  chr ":"; times 3 d ]))
                 (seq [ RStar sp; chr "-"; RStar sp; RGroup 2 level_alt;
                        RStar sp; chr "-"; RStar sp;
                        RGroup 3 (plus (RChar logger_char));
                        RStar sp; chr "-"; RStar sp; RGroup 4 (plus dot) ]);
               ngroups := 4 |} = Some m) by exact Hm.
  eapply js_match_stamp in Hm' as (pre & s' & Hline & Ha & Hg1);
    [|cbn; reflexivity
     |cbn; rewrite !elem_of_cons, elem_of_nil; intuition discriminate
     |cbn; rewrite !elem_of_cons, elem_of_nil; intuition discriminate
     |lia].
  unfold accepts in Ha.
  repeat match goal with
  | H : Forall2 _ (_ :: _) _ |- _ =>
      let x := fresh "x" in let Hx := fresh "Hx" in
      apply Forall2_cons_inv_l in H as (x & ? & Hx & H & ->)
  | H : Forall2 _ [] _ |- _ => apply Forall2_nil_inv_l in H as ->
  end.
  repeat match goal with
  | H : (?a =? ?x) = true |- _ =>
      apply N.eqb_eq in H;
      let v := eval vm_compute in a in (change a with v in H); subst x
  end.
  destruct (structural_level _ _ _ (or_intror eq_refl) Hm) as (w & Hw & H2 & Hup).
  pose proof (js_match_length _ _ _ Hm) as Hlen.
  assert (Hiso : js_match (trim line) iso_main_pattern = None).
  { rewrite Hline. apply third_not_digit_no_iso. reflexivity. }
  match type of Hline with
  | _ = [?a; ?b; _; ?c; ?e; _; ?f; ?g; ?h; ?t1; ?t2; ?t3; ?t4; ?t5; ?t6; ?t7;
         ?t8; ?t9; ?t10; ?t11; ?t12] ++ ?r =>
      exists a, b, c, e, f, g, h,
        [t1; t2; t3; t4; t5; t6; t7; t8; t9; t10; t11; t12], r
  end.
  eexists. split; [exact Hline|]. split; [reflexivity|].
  split; [repeat constructor; assumption|].
  unfold parseLogLine_tagged.
  destruct (trim line) as [|c0 t0] eqn:Et; [discriminate|].
  unfold TOMCAT_PATTERNS. cbn [try_patterns]. rewrite Hiso, Hm, Hlen.
  cbn [ngroups locale_pattern Nat.eqb]. rewrite (group_ok _ _ _ Hg1), H2.
  cbn [LogParser.bind]. split; reflexivity.
Qed.

Lemma locale_timestamp_century_witness :
  exists d1 d2 m1 m2 y1 y2 ws time rest e,
    trim (str "05.11.99 08:30:00:125 - ERROR - db - down")
      = [d1; d2; 46; m1; m2; 46; y1; y2; ws] ++ time ++ rest
    /\ length time = 12%nat
    /\ Forall (fun x => is_digit x = true) [d1; d2; m1; m2; y1; y2]
    /\ parseLogLine_tagged (str "05.11.99 08:30:00:125 - ERROR - db - down") 1
       = Ok (Structural, e)
    /\ LogParser.timestamp e
       = NewDate (str "20" ++ [y1; y2] ++ str "-" ++ [m1; m2] ++ str "-"
                  ++ [d1; d2] ++ str " " ++ time).
Proof.
  eapply (locale_timestamp_century (str "05.11.99 08:30:00:125 - ERROR - db - down") 1).
  vm_compute. reflexivity.
Defined.

(** X5. Whenever the ISO pattern accepts the trimmed line, the line opens
    with ten units of date, a white space, eight units of time, a comma and
    three digits, and the record is structural, has the logger [main], and
    has its timestamp built from those 23 units with the comma turned into
    a dot. *)
Theorem iso_timestamp_dot (line : jsstring) (n : nat) (m : captures) :
  js_match (trim line) iso_main_pattern = Some m ->
  exists date ws time ms rest e,
    trim line = date ++ [ws] ++ time ++ [44] ++ ms ++ rest
    /\ length date = 10%nat /\ length time = 8%nat /\ length ms = 3%nat
    /\ is_space ws = true
    /\ parseLogLine_tagged line n = Ok (Structural, e)
    /\ LogParser.timestamp e = NewDate (date ++ [ws] ++ time ++ [46] ++ ms)
    /\ LogParser.logger e = Some (str "main").
Proof.
  intros Hm.
  assert (Hm' : js_match (trim line)
            {| body := RSeq
                 (RGroup 1 (seq [ times 4 d; chr "-"; times 2 d; chr "-"; times 2 d; sp;
                                  times 2 d; chr ":"; times 2 d; chr ":"; times 2 d;
                                  chr ","; times 3 d ]))
                 (seq [ plus sp; lit "main"; plus sp; RGroup 2 level_alt;
                        plus sp; RGroup 3 (plus dot) ]);
               ngroups := 3 |} = Some m) by exact Hm.
  eapply js_match_stamp in Hm' as (pre & s' & Hline & Ha & Hg1);
    [|cbn; reflexivity
     |cbn; rewrite !elem_of_cons, elem_of_nil; intuition discriminate
     |cbn; rewrite !elem_of_cons, elem_of_nil; intuition discriminate
     |lia].
  unfold accepts in Ha.
  repeat match goal with
  | H : Forall2 _ (_ :: _) _ |- _ =>
      let x := fresh "x" in let Hx := fresh "Hx" in
      apply Forall2_cons_inv_l in H as (x & ? & Hx & H & ->)
  | H : Forall2 _ [] _ |- _ => apply Forall2_nil_inv_l in H as ->
  end.
  repeat match goal with
  | H : (?a =? ?x) = true |- _ =>
      apply N.eqb_eq in H;
      let v := eval vm_compute in a in (change a with v in H); subst x
  end.
  destruct (structural_level _ _ _ (or_introl eq_refl) Hm) as (w & Hw & H2 & Hup).
  pose proof (js_match_length _ _ _ Hm) as Hlen.
  match type of Hline with
  | _ = [?a1; ?a2; ?a3; ?a4; ?a5; ?a6; ?a7; ?a8; ?a9; ?a10; ?b;
         ?t1; ?t2; ?t3; ?t4; ?t5; ?t6; ?t7; ?t8; _; ?u1; ?u2; ?u3] ++ ?r =>
      exists [a1; a2; a3; a4; a5; a6; a7; a8; a9; a10], b,
        [t1; t2; t3; t4; t5; t6; t7; t8], [u1; u2; u3], r
  end.
  eexists. split; [exact Hline|]. do 3 (split; [reflexivity|]).
  split; [assumption|].
  unfold parseLogLine_tagged.
  destruct (trim line) as [|c0 t0] eqn:Et; [discriminate|].
  unfold TOMCAT_PATTERNS. cbn [try_patterns]. rewrite Hm, Hlen.
  cbn [ngroups iso_main_pattern Nat.eqb]. rewrite (group_ok _ _ _ Hg1), H2.
  cbn [LogParser.bind]. split; [reflexivity|]. split; [|reflexivity].
  cbn [LogParser.timestamp replace_first].
  repeat first [ rewrite digit_not_comma by assumption
               | rewrite space_not_comma by assumption
               | progress cbn [N.eqb Pos.eqb replace_first] ].
  reflexivity.
Qed.

Lemma iso_timestamp_dot_witness :
  exists date ws time ms rest e,
    trim (str "2024-01-01 10:00:00,000 main ERROR boom")
      = date ++ [ws] ++ time ++ [44] ++ ms ++ rest
    /\ length date = 10%nat /\ length time = 8%nat /\ length ms = 3%nat
    /\ is_space ws = true
    /\ parseLogLine_tagged (str "2024-01-01 10:00:00,000 main ERROR boom") 1
       = Ok (Structural, e)
    /\ LogParser.timestamp e = NewDate (date ++ [ws] ++ time ++ [46] ++ ms)
    /\ LogParser.logger e = Some (str "main").
Proof.
  eapply (iso_timestamp_dot (str "2024-01-01 10:00:00,000 main ERROR boom") 1).
  vm_compute. reflexivity.
Defined.

(** ** The store, method by method *)
Section StoreFacts.

Lemma filter_two_bound {A} (P Q : A -> Prop) `{forall x, Decision (P x)}
    `{forall x, Decision (Q x)} (l : list A) :
  (forall x, P x -> Q x -> False) ->
  (length (filter P l) + length (filter Q l) <= length l)%nat.
Proof.
  intros Hex. induction l as [|x l IH]; [reflexivity|].
  rewrite !filter_cons.
  destruct (decide (P x)) as [HP|_], (decide (Q x)) as [HQ|_]; cbn [length];
    [destruct (Hex x HP HQ)|lia..].
Qed.

Lemma entries_of_other_createLogEntry uuid st insertEntry other :
  other <> InsertLogEntry.fileName insertEntry ->
  entries_of (fst (createLogEntry uuid st insertEntry)) other = entries_of st other.
Proof.
  intros Hne. unfold createLogEntry, entries_of. cbn [fst logEntries new_entry LogEntry.fileName].
  by rewrite lookup_insert_ne.
Qed.

Lemma count_level_snoc lvl es e :
  count_level lvl (es ++ [e])
  = (count_level lvl es + if bool_decide (LogEntry.level e = lvl) then 1 else 0)%nat.
Proof.
  unfold count_level. rewrite filter_app, length_app, filter_cons, filter_nil.
  case_bool_decide as Hd; [rewrite decide_True by exact Hd|rewrite decide_False by exact Hd];
    reflexivity.
Qed.

End StoreFacts.

(** X6. The statistics of a file never count more errors and warnings than
    it has records, in the source store and in the compiled one. *)
Theorem getLogStatistics_bounds (st : MemStorage) (fileId : jsstring) :
  (LogStatistics.errors (getLogStatistics st fileId)
   + LogStatistics.warnings (getLogStatistics st fileId)
   <= LogStatistics.total (getLogStatistics st fileId))%nat
  /\ (LogStatistics.errors (getLogStatistics_js st fileId)
      + LogStatistics.warnings (getLogStatistics_js st fileId)
      <= LogStatistics.total (getLogStatistics_js st fileId))%nat.
Proof.
  unfold getLogStatistics, getLogStatistics_js, count_level. cbn. split.
  - apply filter_two_bound. intros e He Hw. rewrite He in Hw. discriminate.
  - apply filter_two_bound. intros e He Hw. rewrite He in Hw. discriminate.
Qed.

(** X7. Storing a record adds one to the total of its file, one to its
    errors exactly when the level is ERROR, one to its warnings exactly when
    the level is WARN; the records and statistics of every other file and
    the map of files stay as they were. *)
Theorem createLogEntry_statistics (uuid : jsstring) (st : MemStorage)
    (insertEntry : InsertLogEntry.t) :
  let st' := fst (createLogEntry uuid st insertEntry) in
  let fileId := InsertLogEntry.fileName insertEntry in
  let lvl := InsertLogEntry.level insertEntry in
  getLogStatistics st' fileId
  = {| LogStatistics.total := S (LogStatistics.total (getLogStatistics st fileId));
       LogStatistics.errors :=
         (LogStatistics.errors (getLogStatistics st fileId)
          + if bool_decide (lvl = str "ERROR") then 1 else 0)%nat;
       LogStatistics.warnings :=
         (LogStatistics.warnings (getLogStatistics st fileId)
          + if bool_decide (lvl = str "WARN") then 1 else 0)%nat |}
  /\ (forall other, other <> fileId ->
        entries_of st' other = entries_of st other
        /\ getLogStatistics st' other = getLogStatistics st other)
  /\ logFiles st' = logFiles st.
Proof.
  cbn zeta. split; [|split; [|reflexivity]].
  - unfold getLogStatistics. rewrite entries_of_createLogEntry, !count_level_snoc.
    rewrite length_app. cbn [length new_entry LogEntry.level].
    rewrite Nat.add_1_r. reflexivity.
  - intros other Hne. unfold getLogStatistics.
    rewrite (entries_of_other_createLogEntry _ _ _ _ Hne). split; reflexivity.
Qed.

Lemma createLogEntry_statistics_witness :
  let insertEntry :=
    {| InsertLogEntry.id := None; InsertLogEntry.lineNumber := 1;
       InsertLogEntry.timestamp := TDate NewDateNow;
       InsertLogEntry.level := str "ERROR"; InsertLogEntry.logger := None;
       InsertLogEntry.message := str "boom"; InsertLogEntry.stackTrace := None;
       InsertLogEntry.fileName := str "file-1" |} in
  str "file-2" <> str "file-1"
  /\ getLogStatistics (fst (createLogEntry (str "id-1") empty_storage insertEntry))
       (str "file-2")
     = getLogStatistics empty_storage (str "file-2").
Proof.
  cbn zeta. split; [discriminate|].
  eapply (proj1 (proj2 (createLogEntry_statistics (str "id-1") empty_storage _))).
  discriminate.
Defined.

(** X8. [deleteLogFile] removes the file and its records: afterwards the
    file is unknown, every read of it is empty (the read of the compiled
    store, which has the method, does not throw) and its statistics are
    zero, while every other file keeps its entry, its records and its
    statistics. *)
Theorem deleteLogFile_removes (st : MemStorage) (fileId : jsstring) :
  let st' := deleteLogFile st fileId in
  getLogFile st' fileId = None
  /\ (forall (toUpperCase : jsstring -> jsstring)
             (toISOString : Timestamp -> result jsstring) (limit offset : Z),
        getLogEntries_js toUpperCase toISOString st' fileId limit offset = Ok []
        /\ getLogEntries st' fileId limit offset = [])
  /\ getLogStatistics_js st' fileId
     = {| LogStatistics.total := 0; LogStatistics.errors := 0;
          LogStatistics.warnings := 0 |}
  /\ (forall other, other <> fileId ->
        getLogFile st' other = getLogFile st other
        /\ entries_of st' other = entries_of st other
        /\ getLogStatistics_js st' other = getLogStatistics_js st other).
Proof.
  cbn zeta.
  assert (Hes : entries_of (deleteLogFile st fileId) fileId = []).
  { unfold entries_of, deleteLogFile. cbn. by rewrite lookup_delete_eq. }
  split; [unfold getLogFile, deleteLogFile; cbn; apply lookup_delete_eq|].
  split.
  { intros toUpperCase toISOString limit offset.
    unfold getLogEntries_js, getLogEntries.
    rewrite Hes. unfold array_slice. cbn. rewrite drop_nil, take_nil.
    split; reflexivity. }
  split; [unfold getLogStatistics_js; rewrite Hes; reflexivity|].
  intros other Hne.
  assert (Ho : entries_of (deleteLogFile st fileId) other = entries_of st other).
  { unfold entries_of, deleteLogFile. cbn. by rewrite lookup_delete_ne. }
  split; [unfold getLogFile, deleteLogFile; cbn; by apply lookup_delete_ne|].
  split; [exact Ho|]. unfold getLogStatistics_js. rewrite Ho. reflexivity.
Qed.

Lemma deleteLogFile_removes_witness :
  str "file-2" <> str "file-1"
  /\ getLogFile (deleteLogFile empty_storage (str "file-1")) (str "file-2")
     = getLogFile empty_storage (str "file-2").
Proof.
  split; [discriminate|].
  eapply (proj2 (proj2 (proj2 (deleteLogFile_removes empty_storage (str "file-1"))))).
  discriminate.
Defined.

(** X9. [createLogFile] followed by [getLogFile] returns the file just
    made, under the generated identifier, with the status the caller gave
    or [active] when the caller gave none or the empty string; the records
    of every file and the entries of the other files are not touched. *)
Theorem createLogFile_getLogFile (uuid : jsstring) (st : MemStorage)
    (insertFile : InsertLogFile.t) :
  let st' := fst (createLogFile uuid st insertFile) in
  let file := snd (createLogFile uuid st insertFile) in
  getLogFile st' uuid = Some file
  /\ LogFile.id file = uuid
  /\ LogFile.fileName file = InsertLogFile.fileName insertFile
  /\ LogFile.status file =
       match InsertLogFile.status insertFile with
       | None | Some [] => str "active"
       | Some (c :: s) => c :: s
       end
  /\ logEntries st' = logEntries st
  /\ (forall other, other <> uuid -> getLogFile st' other = getLogFile st other).
Proof.
  cbn zeta. unfold getLogFile, createLogFile. cbn [fst snd logFiles logEntries].
  split; [apply lookup_insert_eq|]. split; [reflexivity|]. split; [reflexivity|].
  split; [destruct (InsertLogFile.status insertFile) as [[|c s]|]; reflexivity|].
  split; [reflexivity|]. intros other Hne. apply lookup_insert_ne. congruence.
Qed.

Lemma createLogFile_getLogFile_witness :
  str "file-2" <> str "file-1"
  /\ getLogFile (fst (createLogFile (str "file-1") empty_storage
                        {| InsertLogFile.fileName := str "app.log";
                           InsertLogFile.fileSize := 10;
                           InsertLogFile.status := None |})) (str "file-2")
     = getLogFile empty_storage (str "file-2").
Proof.
  split; [discriminate|].
  eapply (proj2 (proj2 (proj2 (proj2 (proj2
            (createLogFile_getLogFile (str "file-1") empty_storage _)))))).
  discriminate.
Defined.

(** X10. [updateLogFileStatus] never creates a file: on an unknown
    identifier it leaves the store as it is.  On a known one it changes the
    status and nothing else of that file, leaves the other files and all
    records alone, and a second update overrides the first. *)
Theorem updateLogFileStatus_effect (st : MemStorage) (id status : jsstring) :
  (getLogFile st id = None -> updateLogFileStatus st id status = st)
  /\ (forall file, getLogFile st id = Some file ->
        getLogFile (updateLogFileStatus st id status) id
        = Some {| LogFile.id := LogFile.id file;
                  LogFile.fileName := LogFile.fileName file;
                  LogFile.fileSize := LogFile.fileSize file;
                  LogFile.status := status;
                  LogFile.uploadedAt := LogFile.uploadedAt file |})
  /\ logEntries (updateLogFileStatus st id status) = logEntries st
  /\ (forall other, other <> id ->
        getLogFile (updateLogFileStatus st id status) other = getLogFile st other)
  /\ (forall status',
        updateLogFileStatus (updateLogFileStatus st id status) id status'
        = updateLogFileStatus st id status').
Proof.
  unfold getLogFile, updateLogFileStatus.
  split; [intros ->; reflexivity|].
  split; [intros file ->; cbn; apply lookup_insert_eq|].
  split; [destruct (logFiles st !! id); reflexivity|].
  split.
  { intros other Hne. destruct (logFiles st !! id); [|reflexivity].
    cbn. apply lookup_insert_ne. congruence. }
  intros status'. destruct (logFiles st !! id) as [file|] eqn:E.
  - cbn. rewrite lookup_insert_eq, insert_insert_eq. reflexivity.
  - rewrite E. reflexivity.
Qed.

Lemma updateLogFileStatus_effect_witness :
  getLogFile empty_storage (str "nobody") = None
  /\ updateLogFileStatus empty_storage (str "nobody") (str "active") = empty_storage.
Proof.
  split; [reflexivity|].
  apply (proj1 (updateLogFileStatus_effect empty_storage (str "nobody") (str "active"))).
  reflexivity.
Defined.

Section StoreJsFacts.

Lemma array_map_Forall2 {A B} (f : A -> result B) (l : list A) (l' : list B) :
  array_map f l = Ok l' -> Forall2 (fun x y => f x = Ok y) l l'.
Proof.
  revert l'. induction l as [|x l IH]; intros l'; cbn.
  - intros [= <-]. constructor.
  - destruct (f x) as [y|] eqn:Ef; [|discriminate].
    destruct (array_map f l) as [ys|]; [|discriminate].
    intros [= <-]. constructor; [exact Ef|by apply IH].
Qed.

Lemma array_map_all_ok {A B} (f : A -> result B) (l : list A) :
  Forall (fun x => exists y, f x = Ok y) l -> exists l', array_map f l = Ok l'.
Proof.
  induction 1 as [|x l [y Hy] _ [l' IH]]; cbn; [eauto|].
  rewrite Hy, IH. eauto.
Qed.

Lemma array_map_throw {A B} (f : A -> result B) (l : list A) msg :
  array_map f l = Throw msg -> exists x, x ∈ l /\ f x = Throw msg.
Proof.
  induction l as [|x l IH]; cbn; [discriminate|].
  destruct (f x) as [y|msg'] eqn:Ef.
  - destruct (array_map f l) as [ys|msg'']; [discriminate|].
    intros [= ->]. destruct (IH eq_refl) as (x' & Hin & Hx').
    exists x'. split; [by apply elem_of_cons; right|exact Hx'].
  - intros [= ->]. exists x. split; [by apply elem_of_cons; left|exact Ef].
Qed.

End StoreJsFacts.

(** X11. The read of the compiled store returns the records of the page
    the source store returns, one for one: each with the upper case the
    engine gives its level and its timestamp as a string, the string it
    already was or the ISO rendering of its date, and every other field as
    stored.  It returns whenever the engine renders every date of the
    page, and throws only what the engine throws on a date of the page. *)
Theorem getLogEntries_js_same_page (toUpperCase : jsstring -> jsstring)
    (toISOString : Timestamp -> result jsstring)
    (st : MemStorage) (fileId : jsstring) (limit offset : Z) :
  (forall l, getLogEntries_js toUpperCase toISOString st fileId limit offset = Ok l ->
     Forall2
       (fun e r =>
          exists ts,
            r = with_level_timestamp (toUpperCase (LogEntry.level e)) ts e
            /\ (LogEntry.timestamp e = TString ts
                \/ exists t, LogEntry.timestamp e = TDate t /\ toISOString t = Ok ts))
       (getLogEntries st fileId limit offset) l)
  /\ (Forall (fun e => forall t, LogEntry.timestamp e = TDate t ->
                         exists ts, toISOString t = Ok ts)
        (getLogEntries st fileId limit offset) ->
      exists l, getLogEntries_js toUpperCase toISOString st fileId limit offset = Ok l)
  /\ (forall msg,
        getLogEntries_js toUpperCase toISOString st fileId limit offset = Throw msg ->
        exists e t,
          e ∈ getLogEntries st fileId limit offset
          /\ LogEntry.timestamp e = TDate t /\ toISOString t = Throw msg).
Proof.
  unfold getLogEntries_js, getLogEntries. split.
  - intros l Hl. apply array_map_Forall2 in Hl.
    eapply Forall2_impl; [exact Hl|]. intros e r. unfold render_entry.
    destruct (LogEntry.timestamp e) as [t|s] eqn:Et.
    + destruct (toISOString t) as [iso|] eqn:Ei; [|discriminate].
      intros [= <-]. exists iso. split; [reflexivity|]. right. eauto.
    + intros [= <-]. exists s. split; [reflexivity|]. by left.
  - split.
    + intros Hall. apply array_map_all_ok.
      eapply Forall_impl; [exact Hall|]. intros e He. unfold render_entry.
      cbn beta in He.
      destruct (LogEntry.timestamp e) as [t|s] eqn:Et; [|eauto].
      destruct (He t eq_refl) as [ts ->]. eauto.
    + intros msg Hthrow. apply array_map_throw in Hthrow as (e & Hin & He).
      unfold render_entry in He.
      destruct (LogEntry.timestamp e) as [t|s] eqn:Et; [|discriminate].
      destruct (toISOString t) as [iso|msg'] eqn:Ei; [discriminate|].
      injection He as ->. exists e, t. done.
Qed.

Lemma getLogEntries_js_same_page_witness :
  let st := fst (createLogEntry (str "id-1") empty_storage
    {| InsertLogEntry.id := None; InsertLogEntry.lineNumber := 1;
       InsertLogEntry.timestamp := TString (str "2024-01-01T10:00:00.000Z");
       InsertLogEntry.level := str "warn"; InsertLogEntry.logger := None;
       InsertLogEntry.message := str "disk low"; InsertLogEntry.stackTrace := None;
       InsertLogEntry.fileName := str "file-1" |}) in
  exists l,
    getLogEntries_js toUpperCase
      (fun _ => Throw (str "RangeError: Invalid time value"))
      st (str "file-1") 1000 0 = Ok l.
Proof.
  cbn zeta.
  eapply (proj1 (proj2 (getLogEntries_js_same_page _ _ _ (str "file-1") 1000 0))).
  vm_compute. repeat constructor. intros t [=].
Defined.

(** ** The filter settings *)
Section FilterFacts.

Lemma settings_key_not_empty (x : option jsstring) :
  default (str "default") (or_null x) <> [].
Proof. destruct x as [[|c s]|]; discriminate. Qed.

End FilterFacts.

(** X12. Saving filter settings and reading them back returns what was
    saved, under the key of the user or [default] when the user is missing
    or empty; a caller that names no user reads the same object through
    [getFilterSettings()] and through [GET /api/filters]; the settings of
    the other users stay; and saving again for the same user replaces the
    earlier object. *)
Theorem createOrUpdateFilterSettings_read_back (uuid : jsstring)
    (fs : gmap jsstring FilterSettings.t) (insertSettings : InsertFilterSettings.t) :
  let key :=
    default (str "default") (or_null (InsertFilterSettings.userId insertSettings)) in
  let fs' := fst (createOrUpdateFilterSettings uuid fs insertSettings) in
  let settings := snd (createOrUpdateFilterSettings uuid fs insertSettings) in
  getFilterSettings fs' (Some key) = Some settings
  /\ (or_null (InsertFilterSettings.userId insertSettings) = None ->
      getFilterSettings fs' None = Some settings
      /\ get_filters fs' = StoredSettings settings)
  /\ (forall other, other <> key -> fs' !! other = fs !! other)
  /\ (forall uuid' insertSettings',
        or_null (InsertFilterSettings.userId insertSettings')
        = or_null (InsertFilterSettings.userId insertSettings) ->
        fst (createOrUpdateFilterSettings uuid' fs' insertSettings')
        = fst (createOrUpdateFilterSettings uuid' fs insertSettings')).
Proof.
  cbn zeta. unfold getFilterSettings, get_filters, getFilterSettings,
    createOrUpdateFilterSettings. cbn [fst snd default].
  split; [apply lookup_insert_eq|]. split.
  { intros ->. cbn [default]. rewrite lookup_insert_eq. split; reflexivity. }
  split; [intros other Hne; apply lookup_insert_ne; congruence|].
  intros uuid' ins' ->. apply insert_insert_eq.
Qed.

Lemma createOrUpdateFilterSettings_read_back_witness :
  let insertSettings :=
    {| InsertFilterSettings.userId := Some [];
       InsertFilterSettings.logLevels := Some [str "ERROR"];
       InsertFilterSettings.keywords := Some [];
       InsertFilterSettings.timeRange := Some (str "all");
       InsertFilterSettings.autoScroll := Some false |} in
  get_filters (fst (createOrUpdateFilterSettings (str "id-1") ∅ insertSettings))
  = StoredSettings (snd (createOrUpdateFilterSettings (str "id-1") ∅ insertSettings)).
Proof.
  cbn zeta.
  eapply (proj1 (proj2 (createOrUpdateFilterSettings_read_back (str "id-1") ∅ _))).
  reflexivity.
Defined.

(** X13. Whatever is saved, a stored settings object never holds
    [autoScroll = false], an empty [timeRange] or an empty [userId]: the
    three are stored as [null].  It sits under the key of its user, or under
    [default] when it has none, and no object is ever stored under the empty
    key. *)
Theorem stored_filter_settings_normalised (fs : gmap jsstring FilterSettings.t) :
  reachable_filters fs ->
  forall key settings,
    fs !! key = Some settings ->
    FilterSettings.autoScroll settings <> Some false
    /\ FilterSettings.timeRange settings <> Some []
    /\ FilterSettings.userId settings <> Some []
    /\ key = default (str "default") (FilterSettings.userId settings)
    /\ key <> [].
Proof.
  induction 1 as [|uuid fs ins _ IH]; intros key settings Hk.
  - by rewrite lookup_empty in Hk.
  - unfold createOrUpdateFilterSettings in Hk. cbn [fst] in Hk.
    destruct (decide (key = default (str "default")
                              (or_null (InsertFilterSettings.userId ins)))) as [->|Hne].
    + rewrite lookup_insert_eq in Hk. injection Hk as <-. cbn.
      split; [destruct (InsertFilterSettings.autoScroll ins) as [[]|]; discriminate|].
      split; [apply or_null_not_empty|]. split; [apply or_null_not_empty|].
      split; [reflexivity|apply settings_key_not_empty].
    + rewrite lookup_insert_ne in Hk by congruence. by apply IH.
Qed.

Lemma stored_filter_settings_normalised_witness :
  FilterSettings.autoScroll
    (snd (createOrUpdateFilterSettings (str "id-1") ∅
            {| InsertFilterSettings.userId := None;
               InsertFilterSettings.logLevels := None;
               InsertFilterSettings.keywords := None;
               InsertFilterSettings.timeRange := Some [];
               InsertFilterSettings.autoScroll := Some false |}))
  <> Some false.
Proof.
  refine (proj1 (stored_filter_settings_normalised _
            (reach_createOrUpdate (str "id-1") ∅
               {| InsertFilterSettings.userId := None;
                  InsertFilterSettings.logLevels := None;
                  InsertFilterSettings.keywords := None;
                  InsertFilterSettings.timeRange := Some [];
                  InsertFilterSettings.autoScroll := Some false |}
               reach_no_filters)
            (str "default") _ _)).
  unfold createOrUpdateFilterSettings. cbn [fst snd]. apply lookup_insert_eq.
Defined.

(** ** Subscriptions *)
Section SocketFacts.

Lemma on_message_subscription data c :
  subscribedFile (fst (on_message data c))
  = match subscription_of data with
    | Some v => Some v
    | None => subscribedFile c
    end
  /\ sendThrows (fst (on_message data c)) = sendThrows c.
Proof.
  unfold on_message, subscription_of. destruct data as [d|msg]; [|split; reflexivity].
  destruct (bool_decide (ClientMessage.type d = Some (JString (str "subscribe"))));
    [|split; reflexivity].
  destruct (ClientMessage.fileName d) as [v|]; [|split; reflexivity].
  destruct (truthy v); [|split; reflexivity].
  unfold ws_send. cbn [sendThrows set_subscribedFile].
  destruct (sendThrows c) eqn:Hs; cbn; rewrite ?Hs; split; reflexivity.
Qed.

Lemma on_message_other d c :
  subscription_of (Ok d) = None -> on_message (Ok d) c = (c, Ok tt).
Proof.
  unfold on_message, subscription_of.
  destruct (bool_decide (ClientMessage.type d = Some (JString (str "subscribe"))));
    [|reflexivity].
  destruct (ClientMessage.fileName d) as [v|]; [|reflexivity].
  destruct (truthy v); [discriminate|reflexivity].
Qed.

Lemma receive_all_app pre post c :
  snd (receive_all pre c) = Ok tt ->
  receive_all (pre ++ post) c = receive_all post (fst (receive_all pre c)).
Proof.
  revert c. induction pre as [|data pre IH]; intros c Hok; [reflexivity|].
  cbn [receive_all app] in Hok |- *.
  destruct (on_message data c) as [c' [[]|msg]]; [by apply IH|discriminate].
Qed.

Lemma receive_all_fields msgs : forall c,
  (is_Some (subscribedFile c) -> is_Some (subscribedFile (fst (receive_all msgs c))))
  /\ sendThrows (fst (receive_all msgs c)) = sendThrows c.
Proof.
  induction msgs as [|data msgs IH]; intros c; [split; [tauto|reflexivity]|].
  cbn [receive_all].
  destruct (on_message_subscription data c) as [Hsub Hthrows].
  destruct (on_message data c) as [c' [[]|msg]]; cbn [fst] in Hsub, Hthrows |- *.
  - destruct (IH c') as [IH1 IH2]. split.
    + intros Hsome. apply IH1. rewrite Hsub.
      destruct (subscription_of data); [eauto|exact Hsome].
    + by rewrite IH2.
  - split; [|exact Hthrows]. intros Hsome. rewrite Hsub.
    destruct (subscription_of data); [eauto|exact Hsome].
Qed.

Lemma quiet_insert fileId (cs : list Client) i c' :
  no_throwing_subscriber fileId cs = true ->
  sendThrows c' = false ->
  no_throwing_subscriber fileId (<[i := c']> cs) = true.
Proof.
  intros Hq Hc'. revert i. induction cs as [|c cs IH]; intros i; [exact Hq|].
  cbn [no_throwing_subscriber forallb] in Hq. apply andb_true_iff in Hq as [Hc Hcs].
  destruct i as [|i]; cbn [no_throwing_subscriber forallb]; apply andb_true_iff; split.
  - rewrite Hc'. by rewrite andb_false_r.
  - exact Hcs.
  - exact Hc.
  - apply (IH Hcs).
Qed.

End SocketFacts.

(** X14. The handler stores whatever truthy [fileName] a subscription
    carries: after messages that were all handled, the [subscribedFile] of
    a connection is the value of the last subscription, whatever it held
    before.  Parsed messages that are not subscriptions (another [type], a
    missing or falsy [fileName]) change nothing and send nothing.  The
    first exception (text that is not JSON, [null]) ends the handling: no
    later message is looked at.  The property is never cleared; but a
    subscription whose [fileName] is not a string leaves the connection
    subscribed to no file at all, so that no broadcast reaches it. *)
Theorem subscription_last_write_wins (c : Client)
    (msgs : list (result ClientMessage.t)) :
  (forall v, truthy v = true ->
     snd (receive_all msgs c) = Ok tt ->
     subscribedFile (fst (receive_all (msgs ++ [subscribe_value v]) c)) = Some v)
  /\ (Forall (fun data => exists d, data = Ok d /\ subscription_of data = None) msgs ->
      receive_all msgs c = (c, Ok tt))
  /\ (forall pre msg post,
        msgs = pre ++ Throw msg :: post ->
        snd (receive_all pre c) = Ok tt ->
        receive_all msgs c = (fst (receive_all pre c), Throw msg))
  /\ (is_Some (subscribedFile c) ->
      is_Some (subscribedFile (fst (receive_all msgs c))))
  /\ (forall v, truthy v = true -> (forall s, v <> JString s) ->
        snd (receive_all msgs c) = Ok tt ->
        forall fileId msg,
          deliver_to fileId msg (fst (receive_all (msgs ++ [subscribe_value v]) c))
          = fst (receive_all (msgs ++ [subscribe_value v]) c))
  /\ sendThrows (fst (receive_all msgs c)) = sendThrows c.
Proof.
  assert (Hlast : forall v, truthy v = true ->
            snd (receive_all msgs c) = Ok tt ->
            subscribedFile (fst (receive_all (msgs ++ [subscribe_value v]) c)) = Some v).
  { intros v Hv Hok. rewrite (receive_all_app _ _ _ Hok). cbn [receive_all].
    pose proof (proj1 (on_message_subscription (subscribe_value v)
                         (fst (receive_all msgs c)))) as Hsub.
    unfold subscription_of, subscribe_value in Hsub.
    cbn [ClientMessage.type ClientMessage.fileName] in Hsub.
    rewrite bool_decide_eq_true_2, Hv in Hsub by reflexivity.
    fold (subscribe_value v) in Hsub.
    destruct (on_message (subscribe_value v) (fst (receive_all msgs c)))
      as [c' [[]|msg]]; exact Hsub. }
  split; [exact Hlast|]. split.
  { clear Hlast. revert c.
    induction msgs as [|data msgs IH]; intros c Hall; [reflexivity|].
    apply Forall_cons in Hall as [(d & -> & Hd) Hall]. cbn [receive_all].
    rewrite (on_message_other _ _ Hd). by apply IH. }
  split.
  { intros pre msg post -> Hok. rewrite (receive_all_app _ _ _ Hok). reflexivity. }
  split; [apply receive_all_fields|].
  split; [|apply receive_all_fields].
  intros v Hv Hns Hok fileId msg. unfold deliver_to.
  rewrite (Hlast v Hv Hok).
  rewrite bool_decide_eq_false_2; [reflexivity|].
  intros E. injection E as E. exact (Hns _ E).
Qed.

Lemma subscription_last_write_wins_witness :
  let c := {| subscribedFile := Some (JString (str "file-1")); sendThrows := false;
              sent := [] |} in
  subscribedFile
    (fst (receive_all ([subscribe_to (str "file-2")]
                       ++ [subscribe_value (JNumber false (str "1"))]) c))
  = Some (JNumber false (str "1")).
Proof.
  cbn zeta.
  apply (proj1 (subscription_last_write_wins _ _)); reflexivity.
Defined.

(** X15. After a connection whose [send] works subscribes to a file, a
    broadcast for that file reaches it: it has received the
    acknowledgement and then the record.  After it subscribes to another
    file instead, the broadcast passes it by. *)
Theorem subscribe_then_broadcast (sv : Server) (i : nat) (c : Client)
    (fileId other : jsstring) (logEntry : LogEntry.t) :
  clients sv !! i = Some c ->
  sendThrows c = false ->
  fileId <> [] -> other <> [] -> other <> fileId ->
  no_throwing_subscriber fileId (clients sv) = true ->
  (let sv1 := fst (ws_message i (subscribe_to fileId) sv) in
   snd (broadcast fileId logEntry sv1) = Ok tt
   /\ clients (fst (broadcast fileId logEntry sv1)) !! i
      = Some {| subscribedFile := Some (JString fileId); sendThrows := false;
                sent := sent c ++ [MsgSubscribed (JString fileId);
                                   MsgLogEntry logEntry] |})
  /\ (let sv1 := fst (ws_message i (subscribe_to other)
                        (fst (ws_message i (subscribe_to fileId) sv))) in
      snd (broadcast fileId logEntry sv1) = Ok tt
      /\ clients (fst (broadcast fileId logEntry sv1)) !! i
         = Some {| subscribedFile := Some (JString other); sendThrows := false;
                   sent := sent c ++ [MsgSubscribed (JString fileId);
                                      MsgSubscribed (JString other)] |}).
Proof.
  intros Hi Hs Hf Ho Hne Hq.
  assert (Hstep : forall f sv0 c0,
            f <> [] -> clients sv0 !! i = Some c0 -> sendThrows c0 = false ->
            fst (ws_message i (subscribe_to f) sv0)
            = {| storage := storage sv0;
                 clients := <[i := {| subscribedFile := Some (JString f);
                                      sendThrows := false;
                                      sent := sent c0 ++ [MsgSubscribed (JString f)] |}]>
                              (clients sv0);
                 uuids := uuids sv0 |}).
  { intros f sv0 c0 Hf0 Hi0 Hs0. unfold ws_message. rewrite Hi0.
    unfold on_message, subscribe_to.
    unfold subscribe_value. cbn [ClientMessage.type ClientMessage.fileName].
    rewrite bool_decide_eq_true_2 by reflexivity.
    destruct f as [|x f]; [congruence|]. cbn [truthy].
    unfold ws_send. cbn [sendThrows set_subscribedFile]. rewrite Hs0.
    cbn [fst]. unfold deliver, set_subscribedFile.
    cbn [subscribedFile sendThrows sent]. rewrite Hs0. reflexivity. }
  assert (Hlt : (i < length (clients sv))%nat) by (by eapply lookup_lt_Some).
  split; cbn zeta.
  - rewrite (Hstep _ _ _ Hf Hi Hs). unfold broadcast. cbn [clients storage uuids].
    rewrite send_each_quiet by (by apply quiet_insert).
    cbn [fst snd clients]. split; [reflexivity|].
    rewrite list_lookup_fmap, list_lookup_insert_eq by exact Hlt.
    cbn. unfold deliver_to. cbn [subscribedFile].
    rewrite bool_decide_eq_true_2 by reflexivity.
    unfold deliver. cbn. by rewrite <- app_assoc.
  - rewrite (Hstep _ _ _ Hf Hi Hs).
    erewrite Hstep; [|exact Ho|cbn [clients]; by apply list_lookup_insert_eq|reflexivity].
    unfold broadcast. cbn [clients storage uuids sent].
    rewrite send_each_quiet by (do 2 (apply quiet_insert; [|reflexivity]); exact Hq).
    cbn [fst snd clients]. split; [reflexivity|].
    rewrite list_lookup_fmap, list_lookup_insert_eq
      by (rewrite length_insert; exact Hlt).
    cbn. unfold deliver_to. cbn [subscribedFile].
    rewrite bool_decide_eq_false_2 by congruence.
    by rewrite <- app_assoc.
Qed.

Lemma subscribe_then_broadcast_witness :
  let c := {| subscribedFile := None; sendThrows := false; sent := [] |} in
  let sv := {| storage := empty_storage; clients := [c]; uuids := 0 |} in
  let entry := new_entry (str "id-1")
    {| InsertLogEntry.id := None; InsertLogEntry.lineNumber := 1;
       InsertLogEntry.timestamp := TDate NewDateNow;
       InsertLogEntry.level := str "INFO"; InsertLogEntry.logger := None;
       InsertLogEntry.message := str "hello"; InsertLogEntry.stackTrace := None;
       InsertLogEntry.fileName := str "file-1" |} in
  clients (fst (broadcast (str "file-1") entry
                  (fst (ws_message 0 (subscribe_to (str "file-1")) sv)))) !! 0%nat
  = Some {| subscribedFile := Some (JString (str "file-1")); sendThrows := false;
            sent := [MsgSubscribed (JString (str "file-1")); MsgLogEntry entry] |}.
Proof.
  cbn zeta.
  refine (proj2 (proj1 (subscribe_then_broadcast
            {| storage := empty_storage;
               clients := [ {| subscribedFile := None; sendThrows := false; sent := [] |} ];
               uuids := 0 |} 0
            {| subscribedFile := None; sendThrows := false; sent := [] |}
            (str "file-1") (str "file-2") _ _ _ _ _ _ _)));
    try reflexivity; discriminate.
Defined.

(** ** An upload through routes.ts, seen from outside *)
Section UploadFacts.

Variable randomUUID : nat -> jsstring.

Lemma deliver_records_subscribed fileId records c :
  subscribedFile c = Some (JString fileId) ->
  deliver_records fileId records c
  = {| subscribedFile := subscribedFile c; sendThrows := sendThrows c;
       sent := sent c ++ map MsgLogEntry records |}.
Proof.
  intros Hs. revert c Hs. unfold deliver_records.
  induction records as [|e records IH]; intros c Hs; cbn [fold_left map].
  - rewrite app_nil_r. by destruct c.
  - rewrite IH.
    + unfold deliver_to. rewrite bool_decide_eq_true_2 by exact Hs.
      cbn. by rewrite <- app_assoc.
    + unfold deliver_to. rewrite bool_decide_eq_true_2 by exact Hs. exact Hs.
Qed.

Lemma deliver_records_other fileId records c :
  subscribedFile c <> Some (JString fileId) -> deliver_records fileId records c = c.
Proof.
  intros Hs. unfold deliver_records.
  induction records as [|e records IH]; cbn [fold_left]; [reflexivity|].
  unfold deliver_to at 2. rewrite bool_decide_eq_false_2 by exact Hs. exact IH.
Qed.

(** The loop under quiet connections, with what it leaves on them. *)
Lemma process_lines_clients fileId lines : forall ln ec sv,
  no_throwing_subscriber fileId (clients sv) = true ->
  clients (fst (Routes.process_lines randomUUID fileId lines ln ec sv))
  = map (deliver_records fileId (stored_records randomUUID fileId lines ln (uuids sv)))
        (clients sv)
  /\ uuids (fst (Routes.process_lines randomUUID fileId lines ln ec sv))
     = (uuids sv + length (List.filter non_blank lines))%nat.
Proof.
  induction lines as [|line rest IH]; intros ln ec sv Hq.
  - cbn. split; [|lia]. symmetry. apply map_id.
  - destruct (trim line) as [|c t] eqn:Et.
    + rewrite process_lines_skip_blank by exact Et.
      cbn [stored_records List.filter].
      replace (non_blank line) with false by (unfold non_blank; by rewrite Et).
      apply IH, Hq.
    + destruct (process_line_quiet randomUUID fileId line ln ec sv)
        as [parsed [Hp Hstep]]; [congruence|exact Hq|].
      cbn zeta in Hstep.
      match type of Hstep with _ = (?s1, _) =>
        assert (Hcons : Routes.process_lines randomUUID fileId (line :: rest) ln ec sv
                        = Routes.process_lines randomUUID fileId rest (S ln) ec s1)
          by (cbn [Routes.process_lines]; rewrite Et; unfold bindM at 1;
              rewrite Hstep; reflexivity);
        destruct (IH (S ln) ec s1) as [Hc Hu];
          [cbn [clients]; rewrite deliver_to_quiet; exact Hq|]
      end.
      rewrite Hcons, Hc, Hu. cbn [stored_records List.filter].
      replace (non_blank line) with true by (unfold non_blank; by rewrite Et).
      rewrite Hp. cbn [clients uuids length]. split; [|lia].
      rewrite map_map. apply map_ext. intros c0. reflexivity.
Qed.

End UploadFacts.

Section UploadState.

Variable randomUUID : nat -> jsstring.

Lemma parseLogLine_lineNumber line n e :
  parseLogLine line n = Ok e -> LogParser.lineNumber e = n.
Proof.
  unfold parseLogLine. destruct (trim line) as [|c t] eqn:Et.
  { unfold parseLogLine_tagged. rewrite Et. discriminate. }
  destruct (parseLogLine_tagged_cases line n) as [[e' [Hp ->]]|[_ ->]];
    [congruence| |]; cbn [LogParser.bind snd]; intros [= <-].
  - apply (try_patterns_entry _ _ _ Hp).
  - reflexivity.
Qed.

Lemma stored_records_fields fileId lines : forall ln u,
  map LogEntry.lineNumber (stored_records randomUUID fileId lines ln u)
  = List.seq ln (length (List.filter non_blank lines))
  /\ map LogEntry.id (stored_records randomUUID fileId lines ln u)
     = map randomUUID (List.seq u (length (List.filter non_blank lines)))
  /\ Forall (fun e => LogEntry.fileName e = fileId)
       (stored_records randomUUID fileId lines ln u).
Proof.
  induction lines as [|line rest IH]; intros ln u; [by repeat split|].
  cbn [stored_records List.filter]. destruct (non_blank line); [|apply IH].
  destruct (IH (S ln) (S u)) as (Hn & Hi & Hf).
  destruct (parseLogLine line ln) as [parsed|msg] eqn:Hp;
    cbn [map length List.seq]; rewrite Hn, Hi; (split; [|split; [reflexivity|]]).
  - cbn. by rewrite (parseLogLine_lineNumber _ _ _ Hp).
  - by constructor.
  - reflexivity.
  - by constructor.
Qed.

(** The server after an upload that read its text, under quiet
    connections. *)
Lemma upload_run_state file sv text :
  decoded file = Ok text ->
  no_throwing_subscriber (randomUUID (uuids sv)) (clients sv) = true ->
  let fileId := randomUUID (uuids sv) in
  let records := stored_records randomUUID fileId (split_lines text) 1 (S (uuids sv)) in
  let sv' := fst (upload randomUUID (Some file) sv) in
  entries_of (storage sv') fileId = entries_of (storage sv) fileId ++ records
  /\ (forall other, other <> fileId ->
        logEntries (storage sv') !! other = logEntries (storage sv) !! other
        /\ getLogFile (storage sv') other = getLogFile (storage sv) other)
  /\ clients sv' = map (deliver_records fileId records) (clients sv)
  /\ uuids sv' = (S (uuids sv) + length records)%nat.
Proof.
  intros Hd Hq fileId records.
  set (created := {| LogFile.id := fileId;
                     LogFile.fileName := originalname file;
                     LogFile.fileSize := size file;
                     LogFile.status := str "processing";
                     LogFile.uploadedAt := NewDateNow |}).
  set (sv0 := {| storage := {| logEntries := logEntries (storage sv);
                               logFiles := <[fileId := created]> (logFiles (storage sv)) |};
                 clients := clients sv; uuids := S (uuids sv) |}).
  destruct (process_lines_quiet randomUUID fileId (split_lines text) 1 0 sv0)
    as [sv1 (Hrun & Hfiles & Hes & Hother & _)]; [exact Hq|].
  destruct (process_lines_clients randomUUID fileId (split_lines text) 1 0 sv0 Hq)
    as [Hcl Hu].
  rewrite Hrun in Hcl, Hu. cbn [fst] in Hcl, Hu.
  assert (Hfile : logFiles (storage sv1) !! fileId = Some created).
  { rewrite Hfiles. cbn. apply lookup_insert_eq. }
  assert (Hcreate : storage_createLogFile randomUUID
            {| InsertLogFile.fileName := originalname file;
               InsertLogFile.fileSize := size file;
               InsertLogFile.status := Some (str "processing") |} sv
          = (sv0, Ok created)) by reflexivity.
  assert (Hup : fst (upload randomUUID (Some file) sv)
                = {| storage :=
                       {| logEntries := logEntries (storage sv1);
                          logFiles := <[fileId := set_status (str "active") created]>
                                        (logFiles (storage sv1)) |};
                     clients := clients sv1; uuids := uuids sv1 |}).
  { unfold upload, Routes.upload_body.
    unfold bindM at 1. rewrite Hcreate.
    unfold bindM at 1, lift at 1. rewrite Hd.
    unfold bindM at 1. change (LogFile.id created) with fileId. rewrite Hrun.
    unfold bindM at 1, storage_updateLogFileStatus at 1, updateLogFileStatus.
    rewrite Hfile. unfold bindM, unlinkSync, ret, throw.
    destruct (unlinkThrows file); reflexivity. }
  cbn zeta. rewrite Hup. cbn [storage clients uuids].
  split; [exact Hes|]. split.
  { intros other Hne. cbn [logEntries]. split; [exact (Hother other Hne)|].
    unfold getLogFile. cbn [logFiles]. rewrite lookup_insert_ne by congruence.
    rewrite Hfiles. cbn. apply lookup_insert_ne. congruence. }
  split; [exact Hcl|].
  rewrite Hu. cbn [uuids]. subst records.
  rewrite (stored_records_length randomUUID). reflexivity.
Qed.

End UploadState.

(** X16. A successful upload reports what it stored: [linesProcessed] is
    the number of non-blank lines of the text, the total of the file's
    statistics grows by exactly that number, and [errors] is 0. *)
Theorem upload_reports_what_it_stored (randomUUID : nat -> jsstring)
    (file : UploadedFile) (sv : Server) (text : jsstring) :
  decoded file = Ok text ->
  unlinkThrows file = false ->
  no_throwing_subscriber (randomUUID (uuids sv)) (clients sv) = true ->
  let fileId := randomUUID (uuids sv) in
  let k := length (List.filter non_blank (split_lines text)) in
  let sv' := fst (upload randomUUID (Some file) sv) in
  snd (upload randomUUID (Some file) sv) = Uploaded fileId (originalname file) k 0
  /\ LogStatistics.total (getLogStatistics (storage sv') fileId)
     = (LogStatistics.total (getLogStatistics (storage sv) fileId) + k)%nat
  /\ (k <= length (split_lines text))%nat.
Proof.
  intros Hd Hu Hq. cbn zeta.
  destruct (upload_run randomUUID file sv text Hd Hq) as [sv' (Hup & _ & Hes)].
  rewrite Hup, Hu. cbn [fst snd]. split; [reflexivity|]. split.
  - unfold getLogStatistics. cbn [LogStatistics.total].
    rewrite Hes, length_app, (stored_records_length randomUUID). reflexivity.
  - apply List.filter_length_le.
Qed.

Lemma upload_reports_what_it_stored_witness :
  snd (upload sample_uuid (Some (upload_of stack_trace_text_main)) fresh_server)
  = Uploaded (sample_uuid 0) (str "app.log") 3 0.
Proof.
  apply (upload_reports_what_it_stored sample_uuid
           (upload_of stack_trace_text_main) fresh_server stack_trace_text_main);
    reflexivity.
Defined.

(** X17. The records an upload appends to its file are numbered 1, 2, 3,
    ... in the order of their lines, blank lines taking no number, and each
    carries the identifier of the file. *)
Theorem upload_numbers_records (randomUUID : nat -> jsstring)
    (file : UploadedFile) (sv : Server) (text : jsstring) :
  decoded file = Ok text ->
  no_throwing_subscriber (randomUUID (uuids sv)) (clients sv) = true ->
  let fileId := randomUUID (uuids sv) in
  exists records,
    entries_of (storage (fst (upload randomUUID (Some file) sv))) fileId
    = entries_of (storage sv) fileId ++ records
    /\ map LogEntry.lineNumber records
       = List.seq 1 (length (List.filter non_blank (split_lines text)))
    /\ Forall (fun e => LogEntry.fileName e = fileId) records.
Proof.
  intros Hd Hq. cbn zeta.
  destruct (upload_run_state randomUUID file sv text Hd Hq) as (Hes & _).
  destruct (stored_records_fields randomUUID (randomUUID (uuids sv))
              (split_lines text) 1 (S (uuids sv))) as (Hn & _ & Hf).
  eexists. split; [exact Hes|]. split; [exact Hn|exact Hf].
Qed.

Lemma upload_numbers_records_witness :
  exists records,
    entries_of (storage (fst (upload sample_uuid
                  (Some (upload_of (str "a" ++ newline ++ newline ++ str "b")))
                  fresh_server))) (sample_uuid 0)
    = entries_of (storage fresh_server) (sample_uuid 0) ++ records
    /\ map LogEntry.lineNumber records
       = List.seq 1 (length (List.filter non_blank
                       (split_lines (str "a" ++ newline ++ newline ++ str "b"))))
    /\ Forall (fun e => LogEntry.fileName e = sample_uuid 0) records.
Proof.
  apply (upload_numbers_records sample_uuid
           (upload_of (str "a" ++ newline ++ newline ++ str "b")) fresh_server);
    reflexivity.
Defined.

(** X18. When [randomUUID] never repeats a value, the records an upload
    stores have identifiers that differ from one another and from the
    identifier of the file. *)
Theorem upload_identifiers_distinct (randomUUID : nat -> jsstring)
    (file : UploadedFile) (sv : Server) (text : jsstring) :
  (forall i j, randomUUID i = randomUUID j -> i = j) ->
  decoded file = Ok text ->
  no_throwing_subscriber (randomUUID (uuids sv)) (clients sv) = true ->
  let fileId := randomUUID (uuids sv) in
  exists records,
    entries_of (storage (fst (upload randomUUID (Some file) sv))) fileId
    = entries_of (storage sv) fileId ++ records
    /\ NoDup (map LogEntry.id records)
    /\ fileId ∉ map LogEntry.id records.
Proof.
  intros Hinj Hd Hq. cbn zeta.
  destruct (upload_run_state randomUUID file sv text Hd Hq) as (Hes & _).
  destruct (stored_records_fields randomUUID (randomUUID (uuids sv))
              (split_lines text) 1 (S (uuids sv))) as (_ & Hi & _).
  eexists. split; [exact Hes|]. rewrite Hi. split.
  - apply NoDup_fmap_2_strong; [|apply NoDup_seq].
    intros i j _ _. apply Hinj.
  - intros Hin. apply list_elem_of_fmap in Hin as (j & Hj & Hin).
    apply Hinj in Hj. subst j. apply elem_of_seq in Hin. lia.
Qed.

Lemma upload_identifiers_distinct_witness :
  exists records,
    entries_of (storage (fst (upload (fun n => [N.of_nat n])
                  (Some (upload_of stack_trace_text)) fresh_server))) [0]
    = entries_of (storage fresh_server) [0] ++ records
    /\ NoDup (map LogEntry.id records)
    /\ [0] ∉ map LogEntry.id records.
Proof.
  apply (upload_identifiers_distinct (fun n => [N.of_nat n])
           (upload_of stack_trace_text) fresh_server stack_trace_text);
    [|reflexivity|reflexivity].
  intros i j [= H]. lia.
Defined.

(** X19. Under connections whose [send] works, an upload pushes every
    record it stores, in the order it stores them, to each connection
    subscribed to the new file, and nothing to the others. *)
Theorem upload_pushes_every_record (randomUUID : nat -> jsstring)
    (file : UploadedFile) (sv : Server) (text : jsstring) :
  decoded file = Ok text ->
  no_throwing_subscriber (randomUUID (uuids sv)) (clients sv) = true ->
  let fileId := randomUUID (uuids sv) in
  let sv' := fst (upload randomUUID (Some file) sv) in
  exists records,
    entries_of (storage sv') fileId = entries_of (storage sv) fileId ++ records
    /\ forall i c,
         clients sv !! i = Some c ->
         clients sv' !! i
         = Some (if bool_decide (subscribedFile c = Some (JString fileId))
                 then {| subscribedFile := subscribedFile c;
                         sendThrows := sendThrows c;
                         sent := sent c ++ map MsgLogEntry records |}
                 else c).
Proof.
  intros Hd Hq. cbn zeta.
  destruct (upload_run_state randomUUID file sv text Hd Hq) as (Hes & _ & Hcl & _).
  eexists. split; [exact Hes|]. intros i c Hi.
  rewrite Hcl, list_lookup_fmap, Hi. cbn [fmap option_fmap option_map]. f_equal.
  case_bool_decide as Hs.
  - by apply deliver_records_subscribed.
  - by apply deliver_records_other.
Qed.

Lemma upload_pushes_every_record_witness :
  let c := {| subscribedFile := Some (JString (sample_uuid 0));
              sendThrows := false; sent := [] |} in
  let sv := {| storage := empty_storage; clients := [c]; uuids := 0 |} in
  exists records,
    entries_of (storage (fst (upload sample_uuid (Some (upload_of stack_trace_text)) sv)))
      (sample_uuid 0)
    = entries_of (storage sv) (sample_uuid 0) ++ records
    /\ forall i c0,
         clients sv !! i = Some c0 ->
         clients (fst (upload sample_uuid (Some (upload_of stack_trace_text)) sv)) !! i
         = Some (if bool_decide (subscribedFile c0 = Some (JString (sample_uuid 0)))
                 then {| subscribedFile := subscribedFile c0;
                         sendThrows := sendThrows c0;
                         sent := sent c0 ++ map MsgLogEntry records |}
                 else c0).
Proof.
  cbn zeta.
  apply (upload_pushes_every_record sample_uuid (upload_of stack_trace_text)
           {| storage := empty_storage;
              clients := [ {| subscribedFile := Some (JString (sample_uuid 0));
                              sendThrows := false; sent := [] |} ];
              uuids := 0 |} stack_trace_text); reflexivity.
Defined.

(** X20. An upload touches its own file only: the records, the statistics
    and the entry of every other file are after it what they were
    before. *)
Theorem upload_leaves_other_files (randomUUID : nat -> jsstring)
    (file : UploadedFile) (sv : Server) (text : jsstring) (other : jsstring) :
  decoded file = Ok text ->
  no_throwing_subscriber (randomUUID (uuids sv)) (clients sv) = true ->
  other <> randomUUID (uuids sv) ->
  let sv' := fst (upload randomUUID (Some file) sv) in
  entries_of (storage sv') other = entries_of (storage sv) other
  /\ getLogStatistics (storage sv') other = getLogStatistics (storage sv) other
  /\ getLogFile (storage sv') other = getLogFile (storage sv) other.
Proof.
  intros Hd Hq Hne. cbn zeta.
  destruct (upload_run_state randomUUID file sv text Hd Hq) as (_ & Hother & _).
  destruct (Hother other Hne) as [He Hf].
  assert (Hes : entries_of (storage (fst (upload randomUUID (Some file) sv))) other
                = entries_of (storage sv) other).
  { unfold entries_of. by rewrite He. }
  split; [exact Hes|]. split; [|exact Hf].
  unfold getLogStatistics. by rewrite Hes.
Qed.

Lemma upload_leaves_other_files_witness :
  getLogFile (storage (fst (upload sample_uuid (Some (upload_of stack_trace_text))
                              fresh_server))) (str "another")
  = getLogFile (storage fresh_server) (str "another").
Proof.
  apply (upload_leaves_other_files sample_uuid (upload_of stack_trace_text)
           fresh_server stack_trace_text (str "another"));
    [reflexivity|reflexivity|discriminate].
Defined.

Section UploadFaults.

Variable randomUUID : nat -> jsstring.

(** With a subscriber whose [send] throws among the connections, the
    iteration throws, and that subscriber is still there afterwards. *)
Lemma send_each_throws fileId msg cs :
  no_throwing_subscriber fileId cs = false ->
  exists cs',
    send_each fileId msg cs = (cs', Throw (str "WebSocket is not open"))
    /\ no_throwing_subscriber fileId cs' = false.
Proof.
  induction cs as [|c cs IH]; cbn [no_throwing_subscriber forallb send_each];
    [discriminate|].
  fold (no_throwing_subscriber fileId cs).
  destruct (bool_decide (subscribedFile c = Some (JString fileId))) eqn:Hs.
  - destruct (sendThrows c) eqn:Ht.
    + intros _. eexists. split; [reflexivity|].
      cbn [no_throwing_subscriber forallb]. by rewrite Hs, Ht.
    + cbn [andb negb]. intros Hq. destruct (IH Hq) as (cs' & -> & Hq').
      eexists. split; [reflexivity|].
      cbn [no_throwing_subscriber forallb deliver subscribedFile sendThrows].
      rewrite Hs, Ht. exact Hq'.
  - cbn [andb negb]. intros Hq. destruct (IH Hq) as (cs' & -> & Hq').
    eexists. split; [reflexivity|].
    cbn [no_throwing_subscriber forallb]. rewrite Hs. exact Hq'.
Qed.

Lemma no_subscriber_quiet fileId cs :
  Forall (fun c => subscribedFile c <> Some (JString fileId)) cs ->
  no_throwing_subscriber fileId cs = true
  /\ forall records, map (deliver_records fileId records) cs = cs.
Proof.
  induction 1 as [|c cs Hc _ [IHq IHm]]; [by split|].
  cbn [no_throwing_subscriber forallb map]. split.
  - rewrite bool_decide_eq_false_2 by exact Hc. exact IHq.
  - intros records. rewrite IHm, deliver_records_other by exact Hc. reflexivity.
Qed.

(** The first non-blank line under a throwing subscriber: the [try] stores
    the parsed entry and its broadcast throws; the [catch] stores the line
    again and its broadcast throws too, out of the loop. *)
Lemma process_lines_throwing fileId lines line more : forall ln ec sv,
  no_throwing_subscriber fileId (clients sv) = false ->
  List.filter non_blank lines = line :: more ->
  exists parsed sv',
    parseLogLine line ln = Ok parsed
    /\ Routes.process_lines randomUUID fileId lines ln ec sv
       = (sv', Throw (str "WebSocket is not open"))
    /\ logFiles (storage sv') = logFiles (storage sv)
    /\ entries_of (storage sv') fileId
       = entries_of (storage sv) fileId
         ++ [ new_entry (randomUUID (uuids sv)) (spread_parsed parsed fileId);
              new_entry (randomUUID (S (uuids sv))) (catch_entry line ln fileId) ].
Proof.
  induction lines as [|l rest IH]; intros ln ec sv Hq; cbn [List.filter]; [discriminate|].
  destruct (trim l) as [|c t] eqn:Et.
  - replace (non_blank l) with false by (unfold non_blank; by rewrite Et).
    intros Hf. rewrite process_lines_skip_blank by exact Et. by apply IH.
  - replace (non_blank l) with true by (unfold non_blank; by rewrite Et).
    intros [= -> _].
    destruct (parseLogLine_ok line ln) as [parsed Hp]; [congruence|].
    exists parsed.
    destruct (send_each_throws fileId
                (MsgLogEntry (new_entry (randomUUID (uuids sv)) (spread_parsed parsed fileId)))
                (clients sv) Hq) as (cs1 & Hs1 & Hq1).
    destruct (send_each_throws fileId
                (MsgLogEntry (new_entry (randomUUID (S (uuids sv)))
                                (catch_entry line ln fileId)))
                cs1 Hq1) as (cs2 & Hs2 & _).
    eexists. split; [exact Hp|].
    cbn [Routes.process_lines]. rewrite Et.
    unfold bindM at 1, Routes.process_line, try_catch, bindM, lift,
      storage_createLogEntry, broadcast.
    rewrite Hp. cbn [createLogEntry fst snd clients storage uuids].
    rewrite Hs1. cbn [clients storage uuids]. rewrite Hs2.
    split; [reflexivity|]. cbn [storage logFiles]. split; [reflexivity|].
    change (entries_of
              (fst (createLogEntry (randomUUID (S (uuids sv)))
                      (fst (createLogEntry (randomUUID (uuids sv)) (storage sv)
                              (spread_parsed parsed fileId)))
                      (catch_entry line ln fileId)))
              (InsertLogEntry.fileName (catch_entry line ln fileId))
            = entries_of (storage sv) fileId
              ++ [ new_entry (randomUUID (uuids sv)) (spread_parsed parsed fileId);
                   new_entry (randomUUID (S (uuids sv))) (catch_entry line ln fileId) ]).
    rewrite entries_of_createLogEntry.
    change (InsertLogEntry.fileName (catch_entry line ln fileId))
      with (InsertLogEntry.fileName (spread_parsed parsed fileId)).
    rewrite entries_of_createLogEntry. cbn [spread_parsed InsertLogEntry.fileName].
    by rewrite <- app_assoc.
Qed.

End UploadFaults.

(** X21. When a connection subscribed to the new file has a [send] that
    throws, the upload of routes.ts stops at the first non-blank line: the
    broadcast in the [try] throws after the parsed entry was stored, the
    [catch] stores the line a second time (as read, at level INFO) and its
    broadcast throws out of the loop.  The answer is a 500, the file stays
    [processing], and the store holds the line twice and nothing of the
    rest of the text. *)
Theorem upload_throwing_subscriber_stores_twice (randomUUID : nat -> jsstring)
    (file : UploadedFile) (sv : Server) (text line : jsstring)
    (more : list jsstring) :
  decoded file = Ok text ->
  no_throwing_subscriber (randomUUID (uuids sv)) (clients sv) = false ->
  List.filter non_blank (split_lines text) = line :: more ->
  let fileId := randomUUID (uuids sv) in
  let sv' := fst (upload randomUUID (Some file) sv) in
  snd (upload randomUUID (Some file) sv) = Status500 (str "Failed to process file")
  /\ status_of sv' fileId = Some (str "processing")
  /\ exists parsed,
       parseLogLine line 1 = Ok parsed
       /\ entries_of (storage sv') fileId
          = entries_of (storage sv) fileId
            ++ [ new_entry (randomUUID (S (uuids sv))) (spread_parsed parsed fileId);
                 new_entry (randomUUID (S (S (uuids sv)))) (catch_entry line 1 fileId) ].
Proof.
  intros Hd Hq Hf fileId.
  set (created := {| LogFile.id := fileId;
                     LogFile.fileName := originalname file;
                     LogFile.fileSize := size file;
                     LogFile.status := str "processing";
                     LogFile.uploadedAt := NewDateNow |}).
  set (sv0 := {| storage := {| logEntries := logEntries (storage sv);
                               logFiles := <[fileId := created]> (logFiles (storage sv)) |};
                 clients := clients sv; uuids := S (uuids sv) |}).
  destruct (process_lines_throwing randomUUID fileId (split_lines text) line more
              1 0 sv0 Hq Hf) as (parsed & sv1 & Hp & Hrun & Hfiles & Hes).
  assert (Hcreate : storage_createLogFile randomUUID
            {| InsertLogFile.fileName := originalname file;
               InsertLogFile.fileSize := size file;
               InsertLogFile.status := Some (str "processing") |} sv
          = (sv0, Ok created)) by reflexivity.
  assert (Hup : upload randomUUID (Some file) sv
                = (sv1, Status500 (str "Failed to process file"))).
  { unfold upload, Routes.upload_body.
    unfold bindM at 1. rewrite Hcreate.
    unfold bindM at 1, lift at 1. rewrite Hd.
    unfold bindM at 1. change (LogFile.id created) with fileId. rewrite Hrun.
    reflexivity. }
  cbn zeta. rewrite Hup. cbn [fst snd]. split; [reflexivity|]. split.
  - unfold status_of, getLogFile. rewrite Hfiles. unfold sv0. cbn [storage logFiles].
    rewrite lookup_insert_eq. reflexivity.
  - exists parsed. split; [exact Hp|exact Hes].
Qed.

Lemma upload_throwing_subscriber_stores_twice_witness :
  let c := {| subscribedFile := Some (JString (sample_uuid 0));
              sendThrows := true; sent := [] |} in
  let sv := {| storage := empty_storage; clients := [c]; uuids := 0 |} in
  snd (upload sample_uuid (Some (upload_of (str "  hello  " ++ newline ++ str "world"))) sv)
  = Status500 (str "Failed to process file").
Proof.
  cbn zeta.
  apply (upload_throwing_subscriber_stores_twice sample_uuid
           (upload_of (str "  hello  " ++ newline ++ str "world"))
           {| storage := empty_storage;
              clients := [ {| subscribedFile := Some (JString (sample_uuid 0));
                              sendThrows := true; sent := [] |} ];
              uuids := 0 |}
           (str "  hello  " ++ newline ++ str "world") (str "  hello  ") [str "world"]);
    reflexivity.
Defined.

(** X22. The identifier every broadcast of an upload is made for is
    generated inside the handler: when no connection is subscribed to that
    identifier beforehand, the upload sends nothing, to anyone, whatever
    the connections' [send] would do. *)
Theorem upload_reaches_no_connection (randomUUID : nat -> jsstring)
    (file : UploadedFile) (sv : Server) (text : jsstring) :
  decoded file = Ok text ->
  Forall (fun c => subscribedFile c <> Some (JString (randomUUID (uuids sv))))
         (clients sv) ->
  clients (fst (upload randomUUID (Some file) sv)) = clients sv
  /\ status_of (fst (upload randomUUID (Some file) sv)) (randomUUID (uuids sv))
     = Some (str "active").
Proof.
  intros Hd Hnone. destruct (no_subscriber_quiet _ _ Hnone) as [Hq Hmap].
  destruct (upload_run_state randomUUID file sv text Hd Hq) as (_ & _ & Hcl & _).
  destruct (upload_run randomUUID file sv text Hd Hq) as [sv' (Hup & Hst & _)].
  split; [rewrite Hcl; apply Hmap|]. rewrite Hup. exact Hst.
Qed.

Lemma upload_reaches_no_connection_witness :
  let c := {| subscribedFile := Some (JString (str "app.log"));
              sendThrows := true; sent := [] |} in
  let sv := {| storage := empty_storage; clients := [c]; uuids := 0 |} in
  clients (fst (upload sample_uuid (Some (upload_of stack_trace_text)) sv)) = clients sv.
Proof.
  cbn zeta.
  apply (upload_reaches_no_connection sample_uuid (upload_of stack_trace_text)
           {| storage := empty_storage;
              clients := [ {| subscribedFile := Some (JString (str "app.log"));
                              sendThrows := true; sent := [] |} ];
              uuids := 0 |} stack_trace_text); [reflexivity|].
  repeat constructor. discriminate.
Defined.

(** ** An upload through index.ts *)
Section IndexTotals.

Variable randomUUID : nat -> jsstring.
Variable date_iso : jsstring -> result jsstring.
Variable now_iso : jsstring.
Variable updateLogEntry : LogEntry.t -> M unit.

Lemma index_process_line_counts fileId line loc sv :
  let loc' := snd (Index.process_line randomUUID date_iso now_iso updateLogEntry
                     fileId line loc sv) in
  (Index.processedCount loc' + Index.errorCount loc'
   = S (Index.processedCount loc + Index.errorCount loc))%nat.
Proof.
  cbn zeta. unfold Index.process_line.
  repeat match goal with
  | |- context [match ?x with _ => _ end] => destruct x
  end; cbn; lia.
Qed.

Lemma index_process_lines_counts fileId lines : forall loc sv,
  let loc' := snd (Index.process_lines randomUUID date_iso now_iso updateLogEntry
                     fileId lines loc sv) in
  (Index.processedCount loc' + Index.errorCount loc'
   = Index.processedCount loc + Index.errorCount loc
     + length (List.filter non_blank lines))%nat.
Proof.
  induction lines as [|line rest IH]; intros loc sv; cbn zeta.
  - cbn. lia.
  - cbn [Index.process_lines List.filter].
    destruct (trim line) as [|c t] eqn:Et.
    + replace (non_blank line) with false by (unfold non_blank; by rewrite Et).
      apply IH.
    + replace (non_blank line) with true by (unfold non_blank; by rewrite Et).
      pose proof (index_process_line_counts fileId line loc sv) as Hstep.
      cbn zeta in Hstep.
      destruct (Index.process_line randomUUID date_iso now_iso updateLogEntry
                  fileId line loc sv) as [sv1 loc1].
      cbn [snd] in Hstep. specialize (IH loc1 sv1). cbn zeta in IH.
      rewrite IH, Hstep. cbn [length]. lia.
Qed.

End IndexTotals.

(** X23. The upload of index.ts answers for every non-blank line: whatever
    the connections do, and whatever the engine makes of the timestamps,
    [linesProcessed] and [errors] add up to the number of non-blank lines,
    and when the uploaded file can be unlinked the answer is the success
    report and the file ends [active]. *)
Theorem index_upload_accounts_for_every_line (randomUUID : nat -> jsstring)
    (date_iso : jsstring -> result jsstring) (now_iso : jsstring)
    (updateLogEntry : LogEntry.t -> M unit)
    (file : UploadedFile) (sv : Server) (text : jsstring) :
  decoded file = Ok text ->
  unlinkThrows file = false ->
  let fileId := randomUUID (uuids sv) in
  let r := Index.upload randomUUID date_iso now_iso updateLogEntry (Some file) sv in
  status_of (fst r) fileId = Some (str "active")
  /\ exists processed errors,
       snd r = Uploaded fileId (originalname file) processed errors
       /\ (processed + errors = length (List.filter non_blank (split_lines text)))%nat.
Proof.
  intros Hd Hu fileId.
  set (created := {| LogFile.id := fileId;
                     LogFile.fileName := originalname file;
                     LogFile.fileSize := size file;
                     LogFile.status := str "processing";
                     LogFile.uploadedAt := NewDateNow |}).
  set (sv0 := {| storage := {| logEntries := logEntries (storage sv);
                               logFiles := <[fileId := created]> (logFiles (storage sv)) |};
                 clients := clients sv; uuids := S (uuids sv) |}).
  assert (Hcreate : storage_createLogFile randomUUID
            {| InsertLogFile.fileName := originalname file;
               InsertLogFile.fileSize := size file;
               InsertLogFile.status := Some (str "processing") |} sv
          = (sv0, Ok created)) by reflexivity.
  destruct (index_process_lines_entries randomUUID date_iso now_iso updateLogEntry
              fileId (split_lines text) Index.initial_locals sv0) as [Hfiles _].
  pose proof (index_process_lines_counts randomUUID date_iso now_iso updateLogEntry
                fileId (split_lines text) Index.initial_locals sv0) as Hcount.
  cbn zeta in Hcount.
  assert (Hup : exists sv',
            Index.upload randomUUID date_iso now_iso updateLogEntry (Some file) sv
            = (sv', Uploaded fileId (originalname file)
                      (Index.processedCount
                         (snd (Index.process_lines randomUUID date_iso now_iso
                                 updateLogEntry fileId (split_lines text)
                                 Index.initial_locals sv0)))
                      (Index.errorCount
                         (snd (Index.process_lines randomUUID date_iso now_iso
                                 updateLogEntry fileId (split_lines text)
                                 Index.initial_locals sv0))))
            /\ status_of sv' fileId = Some (str "active")).
  { unfold Index.upload, Index.upload_body.
    unfold bindM at 1. rewrite Hcreate.
    unfold bindM at 1, lift at 1. rewrite Hd.
    unfold bindM at 1. change (LogFile.id created) with fileId.
    destruct (Index.process_lines randomUUID date_iso now_iso updateLogEntry
                fileId (split_lines text) Index.initial_locals sv0) as [sv1 loc1].
    cbn [fst snd] in Hfiles |- *.
    assert (Hfile : logFiles (storage sv1) !! fileId = Some created).
    { rewrite Hfiles. cbn. apply lookup_insert_eq. }
    unfold bindM, storage_updateLogFileStatus, updateLogFileStatus, unlinkSync, ret, throw.
    rewrite Hfile, Hu. eexists. split; [reflexivity|].
    unfold status_of, getLogFile. cbn. rewrite lookup_insert_eq. reflexivity. }
  destruct Hup as [sv' [Hup Hst]].
  cbn zeta. rewrite Hup. cbn [fst snd]. split; [exact Hst|].
  do 2 eexists. split; [reflexivity|]. exact Hcount.
Qed.

Lemma index_upload_accounts_for_every_line_witness :
  let c := {| subscribedFile := Some (JString (sample_uuid 0));
              sendThrows := true; sent := [] |} in
  let sv := {| storage := empty_storage; clients := [c]; uuids := 0 |} in
  status_of (fst (Index.upload sample_uuid (fun _ => Throw (str "RangeError"))
                    (str "now") (fun _ => throw (str "TypeError"))
                    (Some (upload_of stack_trace_text_main)) sv)) (sample_uuid 0)
  = Some (str "active").
Proof.
  cbn zeta.
  apply (index_upload_accounts_for_every_line sample_uuid
           (fun _ => Throw (str "RangeError")) (str "now")
           (fun _ => throw (str "TypeError"))
           (upload_of stack_trace_text_main)
           {| storage := empty_storage;
              clients := [ {| subscribedFile := Some (JString (sample_uuid 0));
                              sendThrows := true; sent := [] |} ];
              uuids := 0 |} stack_trace_text_main); reflexivity.
Defined.

(** ** Reading a page through GET /api/logs *)

Lemma parseInt_leading_spaces w s :
  Forall (fun c => is_space c = true) w -> parseInt (w ++ s) = parseInt s.
Proof. intros Hw. unfold parseInt. by rewrite trimStart_app_spaces. Qed.

Lemma parseInt_without_number s :
  (forall c t, trimStart s = c :: t ->
     is_digit c = false /\ c <> 45%N /\ c <> 43%N) ->
  parseInt s = Some NaN.
Proof.
  intros H. unfold parseInt. destruct (trimStart s) as [|c t]; [reflexivity|].
  destruct (H c t eq_refl) as (Hd & Hm & Hp).
  destruct (N.eqb_spec c 45) as [?|_]; [done|].
  destruct (N.eqb_spec c 43) as [?|_]; [done|].
  destruct t as [|b t].
  - cbn. unfold digit_value. rewrite Hd. reflexivity.
  - destruct (N.eqb_spec c 48) as [->|_]; [discriminate Hd|].
    cbn. unfold digit_value. rewrite Hd. reflexivity.
Qed.

Lemma parseInt_zeros n :
  (1 <= n <= 15)%nat -> parseInt (repeat 48%N n) = Some (Int 0).
Proof.
  intros [H1 H15].
  do 16 (destruct n as [|n]; [first [lia|reflexivity]|]). lia.
Qed.

Lemma array_slice_drop_last {A} (l : list A) (z : Z) :
  (z < 0)%Z ->
  array_slice l 0 (0 + z) = take (length l - Z.to_nat (- z)) l.
Proof.
  intros Hz. unfold array_slice.
  destruct (Z.ltb_spec 0 0) as [?|_]; [lia|].
  destruct (Z.ltb_spec (0 + z) 0) as [_|?]; [|lia].
  replace (Z.to_nat (Z.min 0 (Z.of_nat (length l)))) with 0%nat by lia.
  rewrite drop_0. f_equal. lia.
Qed.

(** X24. A [limit] that holds no number (it is blank, or its first
    character after white space is neither a digit nor a sign) does not
    fail the request: the route falls back to 1000 and answers as if the
    parameter were absent, with the first 1000 records from the start when
    [offset] is absent too. *)
Theorem get_logs_limit_without_number (st : MemStorage) (fileId s : jsstring)
    (offset : option jsstring) :
  (forall c t, trimStart s = c :: t ->
     is_digit c = false /\ c <> 45%N /\ c <> 43%N) ->
  get_logs st fileId (Some s) offset = get_logs st fileId None offset
  /\ get_logs st fileId (Some s) None = Some (take 1000 (entries_of st fileId)).
Proof.
  intros H. unfold get_logs, query_number.
  rewrite (parseInt_without_number s H). split; [reflexivity|].
  f_equal. apply (getLogEntries_nat st fileId 1000 0).
Qed.

Lemma get_logs_limit_without_number_witness :
  get_logs empty_storage (str "f") (Some (str " all")) None = Some [].
Proof.
  refine (eq_trans (proj2 (get_logs_limit_without_number empty_storage (str "f")
                             (str " all") None _)) _); [|reflexivity].
  intros c t E. vm_compute in E. injection E as <- <-. repeat split; discriminate.
Defined.

(** X25. [limit=0] cannot ask for an empty page: zero is falsy, so the
    route replaces it by 1000 as well.  With [offset] absent a limit
    written with zeros only (white space before it allowed) returns the
    first 1000 records, all of them when the file has fewer. *)
Theorem get_logs_limit_zero_is_default (st : MemStorage) (fileId w : jsstring)
    (n : nat) :
  Forall (fun c => is_space c = true) w ->
  (1 <= n <= 15)%nat ->
  get_logs st fileId (Some (w ++ repeat 48%N n)) None
  = Some (take 1000 (entries_of st fileId)).
Proof.
  intros Hw Hn. unfold get_logs, query_number.
  rewrite (parseInt_leading_spaces w _ Hw), (parseInt_zeros n Hn).
  cbn [Z.eqb]. f_equal. apply (getLogEntries_nat st fileId 1000 0).
Qed.

Lemma get_logs_limit_zero_is_default_witness :
  get_logs empty_storage (str "f") (Some (str " 0")) None = Some [].
Proof.
  refine (eq_trans (get_logs_limit_zero_is_default empty_storage (str "f")
                      (str " ") 1 _ _) _); [|lia|reflexivity].
  repeat constructor.
Defined.

(** X26. A negative [limit] is passed on as it is, and [slice] counts a
    negative end from the end of the array: with [offset] absent,
    [limit=-k] returns every record of the file but the last [k], however
    many that are. *)
Theorem get_logs_negative_limit (st : MemStorage) (fileId s : jsstring) (z : Z) :
  parseInt s = Some (Int z) ->
  (z < 0)%Z ->
  get_logs st fileId (Some s) None
  = Some (take (length (entries_of st fileId) - Z.to_nat (- z))
               (entries_of st fileId)).
Proof.
  intros Hs Hz. unfold get_logs, query_number. rewrite Hs.
  destruct (Z.eqb_spec z 0) as [?|_]; [lia|].
  f_equal. unfold getLogEntries. by apply array_slice_drop_last.
Qed.

Lemma get_logs_negative_limit_witness :
  get_logs empty_storage (str "f") (Some (str "-2")) None = Some [].
Proof.
  refine (eq_trans (get_logs_negative_limit empty_storage (str "f") (str "-2")
                      (-2) _ _) _); [reflexivity|lia|reflexivity].
Defined.

(** ** Exporting a file *)
Section ExportFacts.

Variable date_toString : Timestamp -> jsstring.

Lemma export_content_from (entries : list LogEntry.t) : forall content,
  fold_left (fun content entry => content ++ export_entry date_toString entry)
    entries content
  = content ++ mjoin (export_entry date_toString <$> entries).
Proof.
  induction entries as [|e es IH]; intros content; cbn.
  - by rewrite app_nil_r.
  - rewrite IH. by rewrite <- app_assoc.
Qed.

Lemma export_content_concat entries :
  export_content date_toString entries
  = mjoin (export_entry date_toString <$> entries).
Proof. unfold export_content. by rewrite export_content_from. Qed.

End ExportFacts.

Lemma header_value_ok_disposition fileName :
  header_value_ok (content_disposition fileName) = header_value_ok fileName.
Proof.
  unfold header_value_ok, content_disposition.
  assert (Hhead : forallb header_char_ok (str "attachment; filename=") = true)
    by (vm_compute; reflexivity).
  assert (Hquote : forallb header_char_ok [34] = true) by reflexivity.
  rewrite !forallb_app, Hhead, Hquote. cbn [andb]. apply andb_true_r.
Qed.

(** X27. The attachment's name is never empty.  When it is a name a
    header takes, the export holds the first 10000 records of the file,
    each as its own text in the stored order, and nothing of the records
    after them.  When it is not (a name with a letter outside Latin-1, a
    control character), [res.setHeader] throws and the route answers 500:
    such a file cannot be exported. *)
Theorem export_first_10000 (date_toString : Timestamp -> jsstring)
    (st : MemStorage) (fileId : jsstring) :
  export_name st fileId <> []
  /\ (header_value_ok (export_name st fileId) = true ->
      export date_toString st fileId
      = Attachment (export_name st fileId)
          (mjoin (export_entry date_toString
                    <$> take (Z.to_nat 10000) (entries_of st fileId))))
  /\ (header_value_ok (export_name st fileId) = false ->
      export date_toString st fileId = ExportFailed (str "Failed to export logs")).
Proof.
  split.
  { unfold export_name.
    destruct (getLogFile st fileId) as [logFile|]; [|discriminate].
    destruct (LogFile.fileName logFile); discriminate. }
  unfold export, send_export. rewrite header_value_ok_disposition.
  split; intros ->; [|reflexivity].
  rewrite export_content_concat. do 3 f_equal.
  change (take (Z.to_nat 10000) (entries_of st fileId))
    with (take (Z.to_nat 10000) (drop 0 (entries_of st fileId))).
  rewrite <- (getLogEntries_nat st fileId (Z.to_nat 10000) 0).
  rewrite Z2Nat.id by lia. reflexivity.
Qed.

(** X28. After [deleteLogFile] the export of that file is an empty text
    under the name [export.log], over the source store and over the
    compiled one, whose read cannot throw then. *)
Theorem export_after_delete (date_toString : Timestamp -> jsstring)
    (toUpperCase : jsstring -> jsstring)
    (toISOString : Timestamp -> result jsstring)
    (st : MemStorage) (fileId : jsstring) :
  export date_toString (deleteLogFile st fileId) fileId
  = Attachment (str "export.log") []
  /\ export_js date_toString toUpperCase toISOString (deleteLogFile st fileId) fileId
     = Attachment (str "export.log") [].
Proof.
  unfold export, export_js, export_name, getLogFile, getLogEntries_js,
    getLogEntries, entries_of, deleteLogFile.
  cbn [logEntries logFiles]. rewrite !lookup_delete_eq. split; reflexivity.
Qed.

Lemma export_first_10000_witness :
  let st := fst (createLogFile (str "id-1") empty_storage
                   {| InsertLogFile.fileName := [1083; 1086; 1075];
                      InsertLogFile.fileSize := 0;
                      InsertLogFile.status := None |}) in
  export (fun _ => str "Invalid Date") st (str "id-1")
  = ExportFailed (str "Failed to export logs").
Proof.
  cbn zeta.
  apply (proj2 (proj2 (export_first_10000 (fun _ => str "Invalid Date") _ (str "id-1")))).
  vm_compute. reflexivity.
Defined.
